(** * RRB NTPC prep portal: scoring, session, loader and provider adapter

    A shallow embedding of the logic of the portal
    ([types.ts], [services/geminiService.ts], [components/TestInterface.tsx]
    and [App.tsx]) together with the properties its specification states.

    Conventions of the embedding.
    - A JavaScript integer is a [Z]; the score and the accuracy, which the
      code rounds to two decimals with [toFixed(2)], are rationals ([Q]).
    - A JavaScript object used as a dictionary ([Record<string, UserResponse>])
      is a [gmap string UserResponse]; the properties a plain object
      inherits are not keys of it.
    - A response record is built by object spread in the code, so each of its
      fields may be absent at run time; an absent field is [None] (or
      [Unset] for the selected option, which also has the value [null]).
    - A provider text is a list of UTF-16 code units.
    - Asynchronous code is a transition system: a pending promise or timer
      is an entry of the state, its completion is an event. *)

From Stdlib Require Import Ascii String QArith Qround Qabs Lqa Floats DecimalString.
From stdpp Require Import base numbers option list strings gmap fin_maps sorting.

Local Open Scope Z_scope.

(* ===================================================================== *)
(** * Part I. The program                                                *)
(* ===================================================================== *)

(** ** types.ts ([src/types.ts]) *)

Inductive Difficulty := Easy | Medium | Hard.

Inductive Subject := Mathematics | Reasoning | GeneralAwareness.

#[global] Instance Subject_eq_dec : EqDecision Subject.
Proof. solve_decision. Defined.

(** [Question]; the field [id] of the source is [qid] here, [id] being the
    identity function of the prelude. *)
Record Question := mkQuestion {
  qid : string;
  text : string;
  options : list string;
  correctAnswer : Z;
  subject : Subject;
  topic : string;
  difficulty : Difficulty;
  explanation : string;
  pyqTag : option string;
  cachedHint : option string
}.

Inductive Mode := Full | SubjectMode | TopicMode | Custom.

Record TestConfig := mkConfig {
  mode : Mode;
  totalQuestions : Z;
  durationMinutes : Z;
  selectedSubjects : list Subject;
  selectedTopic : option string
}.

Inductive Status :=
  Answered | NotAnswered | MarkedForReview | NotVisited | AnsweredAndMarked.

#[global] Instance Status_eq_dec : EqDecision Status.
Proof. solve_decision. Defined.

(** [selectedOption: number | null], plus the absent field. *)
Inductive Selection := Unset | Null | Chosen (i : Z).

#[global] Instance Selection_eq_dec : EqDecision Selection.
Proof. solve_decision. Defined.

Record UserResponse := mkResponse {
  questionId : option string;
  selectedOption : Selection;
  status : option Status;
  timeSpentSeconds : option Z;
  visited : option bool;
  isBookmarked : option bool
}.

Record TestResult := mkResult {
  res_totalQuestions : Z;
  attempted : Z;
  correct : Z;
  wrong : Z;
  score : Q;
  accuracy : Q;
  timeTakenSeconds : Z;
  res_responses : gmap string UserResponse;
  date : string
}.

(** ** JavaScript strings: the operations the adapter uses *)

Module Js.

Definition jsstring := list N.

Definition unit_of_ascii (a : ascii) : N := N_of_ascii a.

Fixpoint units (s : string) : jsstring :=
  match s with
  | EmptyString => []
  | String a s' => unit_of_ascii a :: units s'
  end.

(** White space and line terminators, as [String.prototype.trim] strips them. *)
Definition isWhiteSpace (c : N) : bool :=
  ((9 <=? c) && (c <=? 13) || (c =? 32) || (c =? 160) || (c =? 5760)
   || (8192 <=? c) && (c <=? 8202) || (c =? 8232) || (c =? 8233)
   || (c =? 8239) || (c =? 8287) || (c =? 12288) || (c =? 65279))%N.

Fixpoint startsWith (pat s : jsstring) : bool :=
  match pat, s with
  | [], _ => true
  | _ :: _, [] => false
  | p :: pat', c :: s' => (p =? c)%N && startsWith pat' s'
  end.

(** [s.replace(/pat/g, rep)] for a literal, non-empty pattern: the matches
    are taken from the left and do not overlap.  [skip] counts the units of
    a match still to be passed over. *)
Fixpoint replace_from (pat rep : jsstring) (skip : nat) (s : jsstring) : jsstring :=
  match s with
  | [] => []
  | c :: s' =>
      match skip with
      | S k => replace_from pat rep k s'
      | O =>
          if startsWith pat s
          then rep ++ replace_from pat rep (length pat - 1) s'
          else c :: replace_from pat rep 0 s'
      end
  end.

Definition replaceAll (pat rep s : jsstring) : jsstring := replace_from pat rep 0 s.

Fixpoint trimStart (s : jsstring) : jsstring :=
  match s with
  | [] => []
  | c :: s' => if isWhiteSpace c then trimStart s' else s
  end.

Definition trimEnd (s : jsstring) : jsstring := rev (trimStart (rev s)).

Definition trim (s : jsstring) : jsstring := trimEnd (trimStart s).

(** [indexOf] and [lastIndexOf] of one unit; [None] is the source's [-1]. *)
Fixpoint indexOf (c : N) (s : jsstring) : option nat :=
  match s with
  | [] => None
  | x :: s' => if (x =? c)%N then Some O else S <$> indexOf c s'
  end.

Fixpoint lastIndexOf (c : N) (s : jsstring) : option nat :=
  match s with
  | [] => None
  | x :: s' =>
      match lastIndexOf c s' with
      | Some i => Some (S i)
      | None => if (x =? c)%N then Some O else None
      end
  end.

(** [s.substring(a, b)] for [a <= b]. *)
Definition substring (a b : nat) (s : jsstring) : jsstring :=
  take (b - a) (drop a s).

(** [arr.slice(0, e)]: a negative [e] counts from the end. *)
Definition slice0 {A} (e : Z) (l : list A) : list A :=
  let len := Z.of_nat (length l) in
  let stop := if e <? 0 then Z.max (len + e) 0 else Z.min e len in
  take (Z.to_nat stop) l.

End Js.

(** ** services/geminiService.ts

    In the source tree this file is the second part of
    [src/components/TestInterface.tsx] (lines 712 to 982). *)

Module Gemini.
Import Js.

Definition FALLBACK_QUESTIONS : list Question :=
  [ mkQuestion "fb-1"
      "If A:B = 3:4 and B:C = 8:9, then find A:C."
      ["1:2"; "3:2"; "1:3"; "2:3"] 3 Mathematics "Ratio & Proportion" Easy
      "Standard: A/C = (A/B)*(B/C) = (3/4)*(8/9) = 2/3. Shortcut: Write A:B (3:4) and B:C (8:9) below it. Multiply columns: A=3*8=24, C=4*9=36. 24:36 = 2:3."
      (Some "RRB NTPC 2016 Shift 1") None;
    mkQuestion "fb-2"
      "Which vitamin is water soluble?"
      ["Vitamin A"; "Vitamin D"; "Vitamin C"; "Vitamin K"] 2 GeneralAwareness
      "General Science" Medium
      "Vitamin B and C are water soluble. Mnemonic: 'WBC' -> Water Soluble = B & C. Fat soluble are 'KEDA'."
      (Some "RRB NTPC 28 Dec 2020") None;
    mkQuestion "fb-3"
      "In a certain code, 'ROCKET' is written as 'TCMQKV'. How is 'DRIVER' written in that code?"
      ["FTKXGP"; "FTKIGT"; "FTKXGT"; "GUKYHU"] 2 Reasoning "Coding-Decoding" Medium
      "Pattern: +2, -2, +2, -2, +2, -2. R(+2)=T, O(-2)=M... Similarly, D(+2)=F, R(-2)=P. Correct Logic: R(+2)=T, O(-2)=M, C(+2)=E, K(-2)=I, E(+2)=G, T(-2)=R."
      (Some "RRB NTPC CBT-2 2022") None ].

(** The request sent to the provider: the prompt of the source is a text
    template; its variable parts are the fields below. *)
Record Prompt := mkPrompt {
  modelName : string;
  requested : Z;
  subjects : list Subject;
  topicContext : option string
}.

(** What [ai.models.generateContent] does with a request: the promise is
    rejected, or it resolves to a response whose [text] may be absent. *)
Inductive Outcome := Rejected | Responded (text : option jsstring).

Definition safeBatchSize (batchSize : Z) : Z := Z.min batchSize 5.

Definition buildPrompt (config : TestConfig) (batchSize : Z) : Prompt :=
  mkPrompt "gemini-2.5-flash" (safeBatchSize batchSize)
    (selectedSubjects config) (selectedTopic config).

Definition fenceJson : jsstring := units "```json".
Definition fence : jsstring := units "```".
Definition openBracket : N := 91.
Definition closeBracket : N := 93.

(** The clean-up and bracket extraction of the [try] block; [None] is the
    thrown ["Invalid JSON structure found"]. *)
Definition extractJson (text : jsstring) : option jsstring :=
  let jsonStr := trim (replaceAll fence [] (replaceAll fenceJson [] text)) in
  match indexOf openBracket jsonStr, lastIndexOf closeBracket jsonStr with
  | Some firstOpen, Some lastClose =>
      if (firstOpen <? lastClose)%nat
      then Some (substring firstOpen (lastClose + 1) jsonStr)
      else None
  | _, _ => None
  end.

Definition withId (i : string) (q : Question) : Question :=
  mkQuestion i (text q) (options q) (correctAnswer q) (subject q) (topic q)
    (difficulty q) (explanation q) (pyqTag q) (cachedHint q).

Section Adapter.

(** [JSON.parse], seen at the type the adapter uses it at: [None] when it
    throws. *)
Variable JSON_parse : jsstring -> option (list Question).

(** The environment of one call: the key of [process.env], the provider,
    and the identifiers that [Date.now()] and [Math.random()] produce for
    the elements of the parsed array. *)
Variable apiKey : option string.
Variable provider : Prompt -> Outcome.
Variable genId : nat -> string.

Definition fallbackBatch (batchSize : Z) : list Question :=
  slice0 (safeBatchSize batchSize) FALLBACK_QUESTIONS.

Definition handleResponse (batchSize : Z) (o : Outcome) : list Question :=
  match o with
  | Rejected => fallbackBatch batchSize
  | Responded text =>
      match extractJson (default [] text) with
      | None => fallbackBatch batchSize
      | Some jsonStr =>
          match JSON_parse jsonStr with
          | None => fallbackBatch batchSize
          | Some questionsData => imap (fun i q => withId (genId i) q) questionsData
          end
      end
  end.

Definition hasKey : bool :=
  match apiKey with
  | None => false
  | Some k => negb (String.eqb k "")
  end.

Definition generateQuestions (config : TestConfig) (batchSize : Z) : list Question :=
  if negb hasKey then FALLBACK_QUESTIONS
  else handleResponse batchSize (provider (buildPrompt config batchSize)).

End Adapter.

End Gemini.

(** ** components/TestInterface.tsx

    The first part of [src/components/TestInterface.tsx] (lines 1 to 712). *)

Module TestInterface.

(** The props and the state of the component that the logic reads. *)
Record Session := mkSession {
  questions : list Question;
  durationMinutes : Z;
  totalQuestionsConfig : Z;
  currentQuestionIndex : nat;
  responses : gmap string UserResponse;
  timeLeft : Z;
  isPaused : bool
}.

Definition setResponses (f : gmap string UserResponse -> gmap string UserResponse)
    (s : Session) : Session :=
  mkSession (questions s) (durationMinutes s) (totalQuestionsConfig s)
    (currentQuestionIndex s) (f (responses s)) (timeLeft s) (isPaused s).

Definition setTimeLeft (f : Z -> Z) (s : Session) : Session :=
  mkSession (questions s) (durationMinutes s) (totalQuestionsConfig s)
    (currentQuestionIndex s) (responses s) (f (timeLeft s)) (isPaused s).

Definition setCurrentQuestionIndex (i : nat) (s : Session) : Session :=
  mkSession (questions s) (durationMinutes s) (totalQuestionsConfig s)
    i (responses s) (timeLeft s) (isPaused s).

Definition setIsPaused (b : bool) (s : Session) : Session :=
  mkSession (questions s) (durationMinutes s) (totalQuestionsConfig s)
    (currentQuestionIndex s) (responses s) (timeLeft s) b.

(** [{}] and [{...prev[qId]}]: spreading an absent record gives no field. *)
Definition emptyObject : UserResponse :=
  mkResponse None Unset None None None None.

Definition spread (o : option UserResponse) : UserResponse :=
  default emptyObject o.

Definition withSelection (sel : Selection) (st : Status) (r : UserResponse) : UserResponse :=
  mkResponse (questionId r) sel (Some st) (timeSpentSeconds r) (visited r) (isBookmarked r).

Definition withStatus (st : option Status) (v : option bool) (r : UserResponse) : UserResponse :=
  mkResponse (questionId r) (selectedOption r) st (timeSpentSeconds r) v (isBookmarked r).

Definition withTimeSpent (t : Z) (r : UserResponse) : UserResponse :=
  mkResponse (questionId r) (selectedOption r) (status r) (Some t) (visited r) (isBookmarked r).

Definition withBookmark (b : bool) (r : UserResponse) : UserResponse :=
  mkResponse (questionId r) (selectedOption r) (status r) (timeSpentSeconds r) (visited r) (Some b).

(** [questions[currentQuestionIndex].id]; [None] when the question is not
    loaded, where the source raises a [TypeError]. *)
Definition currentId (s : Session) : option string :=
  qid <$> questions s !! currentQuestionIndex s.

(** The effect that gives every loaded question a record.  The test
    [!next[q.id]] is the lookup of the map: the ids of the program are
    [fb-N] and [gen-...], none of which names an inherited property of a
    plain object. *)
Definition freshRecord (q : Question) : UserResponse :=
  mkResponse (Some (qid q)) Null (Some NotVisited) (Some 0) (Some false) (Some false).

Definition syncQuestions (qs : list Question) (prev : gmap string UserResponse)
    : gmap string UserResponse :=
  fold_left (fun next q =>
               match next !! qid q with
               | Some _ => next
               | None => <[qid q := freshRecord q]> next
               end) qs prev.

Definition updateStatus (qId : string) (newStatus : option Status) (markVisited : bool)
    (prev : gmap string UserResponse) : gmap string UserResponse :=
  match prev !! qId with
  | None => prev
  | Some current =>
      let updatedStatus :=
        if markVisited && bool_decide (status current = Some NotVisited)
        then Some NotAnswered
        else match newStatus with Some st => Some st | None => status current end in
      <[qId := withStatus updatedStatus
                 (if markVisited then Some true else visited current) current]> prev
  end.

Definition handleOptionSelect (optionIndex : Z) (s : Session) : option Session :=
  qId ← currentId s;
  Some (setResponses (fun prev =>
          <[qId := withSelection (Chosen optionIndex) Answered (spread (prev !! qId))]> prev) s).

Definition handleMarkForReview (s : Session) : option Session :=
  qId ← currentId s;
  currentRes ← responses s !! qId;
  let newStatus :=
    if bool_decide (selectedOption currentRes = Null)
    then MarkedForReview else AnsweredAndMarked in
  Some (setResponses (updateStatus qId (Some newStatus) false) s).

Definition handleNavigate (index : Z) (s : Session) : Session :=
  if (0 <=? index) && (index <? totalQuestionsConfig s) then
    let s' := setCurrentQuestionIndex (Z.to_nat index) s in
    match questions s !! Z.to_nat index with
    | Some q => setResponses (updateStatus (qid q) None true) s'
    | None => s'
    end
  else s.

Definition handleSkip (s : Session) : option Session :=
  qId ← currentId s;
  let s' := setResponses (fun prev =>
      let r := spread (prev !! qId) in
      <[qId := mkResponse (questionId r) Null (Some NotAnswered)
                 (timeSpentSeconds r) (Some true) (isBookmarked r)]> prev) s in
  Some (if Z.of_nat (currentQuestionIndex s) <? Z.of_nat (length (questions s)) - 1
        then handleNavigate (Z.of_nat (currentQuestionIndex s) + 1) s'
        else s').

(** [!prev[qId].isBookmarked]: an absent flag is falsy; an absent record
    raises. *)
Definition handleBookmark (s : Session) : option Session :=
  qId ← currentId s;
  r ← responses s !! qId;
  Some (setResponses (fun prev =>
          <[qId := withBookmark (negb (default false (isBookmarked r))) r]> prev) s).

Definition handleClearResponse (s : Session) : option Session :=
  qId ← currentId s;
  Some (setResponses (fun prev =>
          <[qId := withSelection Null NotAnswered (spread (prev !! qId))]> prev) s).

(** *** The timer effect *)

Inductive TimerAction := Idle | ForcedSubmit | Ticking.

(** The body of the timer effect, guard by guard, for the values of the
    render it runs after. *)
Definition timerEffect (s : Session) : TimerAction :=
  if isPaused s || (timeLeft s <=? 0) then Idle
  else if timeLeft s <=? 0 then ForcedSubmit
  else Ticking.

(** The callback of [setInterval], for the question array of the current
    render.  The callback closes over the array of the render whose timer
    effect armed it; [Screen.staleTick] is the callback for any such array,
    and the two agree as long as no new array has arrived since. *)
Definition tick (s : Session) : Session :=
  let s' := setTimeLeft (fun prev => prev - 1) s in
  match questions s !! currentQuestionIndex s with
  | Some q =>
      let qId := qid q in
      setResponses (fun prev =>
        <[qId := withTimeSpent
                   (default 0 (prev !! qId ≫= timeSpentSeconds) + 1)
                   (spread (prev !! qId))]> prev) s'
  | None => s'
  end.

(** *** Scoring *)

(** [x.toFixed(2)] read back by [parseFloat]: the nearest multiple of 1/100,
    the one of larger magnitude when two are as near.  Here [x] is the exact
    rational; the source rounds the double that its arithmetic gives, which
    is the same decimal for all counts of a test the dashboard offers
    ([agree_upto_100] below) and can differ at a tie beyond them. *)
Definition toFixed2 (x : Q) : Q :=
  let n := Qfloor (Qabs x * 100 + (1 # 2)) in
  (if (Qnum x <? 0) then - n else n) # 100.

Definition Object_values (m : gmap string UserResponse) : list UserResponse :=
  (map_to_list m).*2.

Definition isAttempted (r : UserResponse) : bool :=
  negb (bool_decide (selectedOption r = Null)).

Definition finishTest (now : string) (s : Session) : TestResult :=
  let attempted := Z.of_nat (length (List.filter isAttempted (Object_values (responses s)))) in
  let correct :=
    fold_left (fun acc q =>
                 match responses s !! qid q with
                 | None => acc
                 | Some r =>
                     acc + (if bool_decide (selectedOption r = Chosen (correctAnswer q))
                            then 1 else 0)
                 end) (questions s) 0 in
  let wrong := attempted - correct in
  let score := toFixed2 (inject_Z correct * 1 - inject_Z wrong * (1 / 3)) in
  mkResult (Z.of_nat (length (questions s))) attempted correct wrong score
    (if 0 <? attempted
     then toFixed2 (inject_Z correct / inject_Z attempted * 100)
     else 0%Q)
    (durationMinutes s * 60 - timeLeft s)
    (responses s) now.

(** One second of a mounted session: what the timer effect armed happens.
    The second component is the result handed to [onComplete], if any. *)
Definition second (now : string) (s : Session) : Session * option TestResult :=
  match timerEffect s with
  | Idle => (s, None)
  | ForcedSubmit => (s, Some (finishTest now s))
  | Ticking => (tick s, None)
  end.

End TestInterface.

(** ** The scoring arithmetic in double precision *)

(** The source computes the score and the accuracy on IEEE doubles.  The
    definitions below run the same operations on binary64 numbers, so that
    the rational model above can be compared with them. *)
Module Double.

(** The number a finite double stands for. *)
Definition Q_of_double (f : float) : Q :=
  match Prim2SF f with
  | S754_finite s m e =>
      let mag := match e with
                 | Z0 => Zpos m # 1
                 | Zpos p => (Zpos m * Z.pow_pos 2 p) # 1
                 | Zneg p => Zpos m # (Pos.pow 2 p)
                 end in
      if s then Qopp mag else mag
  | _ => 0%Q
  end.

Definition double_of_Z (z : Z) : float :=
  if z <? 0 then PrimFloat.opp (PrimFloat.of_uint63 (Uint63.of_Z (- z)))
  else PrimFloat.of_uint63 (Uint63.of_Z z).

(** [correct * 1 - wrong * (1/3)] and [(correct / attempted) * 100]. *)
Definition score_double (correct wrong : Z) : float :=
  (double_of_Z correct * 1 - double_of_Z wrong * (1 / 3))%float.

Definition accuracy_double (correct attempted : Z) : float :=
  (double_of_Z correct / double_of_Z attempted * 100)%float.

(** [toFixed(2)] of the double and of the rational give the same decimal. *)
Definition agree (correct attempted : Z) : bool :=
  let wrong := attempted - correct in
  (Qnum (TestInterface.toFixed2 (Q_of_double (score_double correct wrong)))
   =? Qnum (TestInterface.toFixed2 (inject_Z correct * 1 - inject_Z wrong * (1 / 3))))
  && ((attempted =? 0)
      || (Qnum (TestInterface.toFixed2 (Q_of_double (accuracy_double correct attempted)))
          =? Qnum (TestInterface.toFixed2 (inject_Z correct / inject_Z attempted * 100)))).

Definition upto (n : nat) : list Z := Z.of_nat <$> seq 0 (S n).

End Double.

(** ** App.tsx

    The third part of [src/components/TestInterface.tsx] (from line 982). *)

Module App.

(** *** Restoring a saved session on mount *)

(** What [JSON.parse] can leave in the field [timestamp] of the parsed
    value: nothing ([undefined]), [null], a boolean, a number, a string, or
    an object or array, which is kept as the text its [toString] gives.
    Numbers are whole milliseconds, as [Date.now()] writes them. *)
Inductive JsValue :=
  | JsUndefined
  | JsNull
  | JsBoolean (b : bool)
  | JsNumber (n : Z)
  | JsString (s : string)
  | JsObject (asString : string).

(** The object read back from durable storage, through the three fields
    the persistence effect writes. *)
Record Snapshot := mkSnapshot {
  snap_responses : gmap string UserResponse;
  snap_timeLeft : Z;
  timestamp : JsValue
}.

Definition DAY_MS : Z := 24 * 60 * 60 * 1000.

(** What the mount effect leaves behind: the [savedSession] state and the
    content of the storage key. *)
Record Restored := mkRestored {
  savedSession : option Snapshot;
  storedAfter : option string
}.

Section Restore.

(** [JSON.parse] followed by the read of [.timestamp]: [None] when either
    raises (a syntax error, or the parsed value is [null]). *)
Variable JSON_parse : string -> option Snapshot.

(** The conversion of a string to a number; [None] is [NaN]. *)
Variable StringToNumber : string -> option Z.

(** The conversion that the subtraction [Date.now() - parsed.timestamp]
    applies to its right operand; [None] is [NaN].  An object or array is
    converted through its string. *)
Definition ToNumber (v : JsValue) : option Z :=
  match v with
  | JsUndefined => None
  | JsNull => Some 0
  | JsBoolean b => Some (if b then 1 else 0)
  | JsNumber n => Some n
  | JsString s => StringToNumber s
  | JsObject asString => StringToNumber asString
  end.

(** [Date.now() - parsed.timestamp < 24 * 60 * 60 * 1000]: a comparison
    with [NaN] is false. *)
Definition within24h (now : Z) (parsed : Snapshot) : bool :=
  match ToNumber (timestamp parsed) with
  | Some ts => now - ts <? DAY_MS
  | None => false
  end.

Definition restoreSession (now : Z) (stored : option string) : Restored :=
  match stored with
  | None => mkRestored None stored
  | Some saved =>
      if String.eqb saved "" then mkRestored None stored
      else
        match JSON_parse saved with
        | None => mkRestored None None
        | Some parsed =>
            if within24h now parsed
            then mkRestored (Some parsed) stored
            else mkRestored None None
        end
  end.

End Restore.

(** *** Starting a test from the question bank *)

Definition topicChosen (config : TestConfig) : bool :=
  match selectedTopic config with
  | None => false
  | Some t => negb (String.eqb t "")
  end.

(** The first loop of [handleStartTest]: up to five banked questions for
    each selected subject. *)
Definition takeFromBank (config : TestConfig) (questionBank : Subject -> list Question)
    : list Question :=
  if topicChosen config then []
  else
    fold_left (fun initialQs subject =>
                 let cached := questionBank subject in
                 let takeCount := Nat.min (length cached) 5 in
                 let subset := take takeCount cached in
                 if (0 <? length subset)%nat then initialQs ++ subset else initialQs)
              (selectedSubjects config) [].

(** The question bank when the application starts, and the update the
    preload of the mount effect makes when the call for [subject] returns
    [qs]. *)
Definition emptyBank : Subject -> list Question := fun _ => [].

Definition preloaded (subject : Subject) (qs : list Question)
    (prev : Subject -> list Question) : Subject -> list Question :=
  fun sub => if decide (sub = subject) then prev sub ++ qs else prev sub.

(** *** The progressive loader *)

(** The updater passed to [setQuestions]. *)
Definition mergeQuestions (prev newQs : list Question) : list Question :=
  let existingIds : gset string := list_to_set (qid <$> prev) in
  let filteredNew := filter (fun q => qid q ∉ existingIds) newQs in
  prev ++ filteredNew.

(** The state the loader works on.  [inFlight] holds the batch size of each
    call of [generateQuestions] that [loadMoreQuestions] awaits, [timers] the
    count each pending [setTimeout] continuation will pass on, and [issued]
    counts the calls made so far. *)
Record Loader := mkLoader {
  questions : list Question;
  isFetching : bool;
  inFlight : list Z;
  timers : list nat;
  issued : nat
}.

Inductive Event :=
  | Resolve (newQs : list Question)
  | Reject
  | Timeout
  | RequestMore.

Section Loader.

Variable config : TestConfig.

Definition loadMoreQuestions (currentCount : nat) (st : Loader) : Loader :=
  if totalQuestions config <=? Z.of_nat currentCount then st
  else if isFetching st then st
  else
    let remaining := totalQuestions config - Z.of_nat currentCount in
    let batchSize := Z.min remaining 5 in
    mkLoader (questions st) true (inFlight st ++ [batchSize]) (timers st) (S (issued st)).

(** The awaited call returns [newQs]: the merge, and the next round if the
    set is still short. *)
Definition resolve (newQs : list Question) (st : Loader) : Loader :=
  let updated := mergeQuestions (questions st) newQs in
  mkLoader updated (isFetching st) (tail (inFlight st))
    (if Z.of_nat (length updated) <? totalQuestions config
     then timers st ++ [length updated] else timers st)
    (issued st).

(** The awaited call raises: the [catch] block. *)
Definition reject (st : Loader) : Loader :=
  mkLoader (questions st) false (tail (inFlight st)) (timers st) (issued st).

(** A timer fires: the latch is released and the loader re-entered. *)
Definition timeout (n : nat) (st : Loader) : Loader :=
  loadMoreQuestions n
    (mkLoader (questions st) false (inFlight st) (tail (timers st)) (issued st)).

Definition handleRequestMoreQuestions (st : Loader) : Loader :=
  if negb (isFetching st) && (Z.of_nat (length (questions st)) <? totalQuestions config)
  then loadMoreQuestions (length (questions st)) st
  else st.

(** One event; [None] when nothing is pending that the event completes. *)
Definition step (st : Loader) (e : Event) : option Loader :=
  match e with
  | Resolve newQs =>
      match inFlight st with [] => None | _ :: _ => Some (resolve newQs st) end
  | Reject =>
      match inFlight st with [] => None | _ :: _ => Some (reject st) end
  | Timeout =>
      match timers st with [] => None | n :: _ => Some (timeout n st) end
  | RequestMore => Some (handleRequestMoreQuestions st)
  end.

Fixpoint steps (st : Loader) (es : list Event) : option Loader :=
  match es with
  | [] => Some st
  | e :: es' => st' ← step st e; steps st' es'
  end.

(** The end of [handleStartTest]: the first questions are shown and the
    loader is entered if they are short of the target. *)
Definition startLoader (initialQs : list Question) : Loader :=
  let st := mkLoader initialQs false [] [] 0 in
  if Z.of_nat (length initialQs) <? totalQuestions config
  then loadMoreQuestions (length initialQs) st
  else st.

(** [handleStartTest]: the banked questions if there are any, else the
    batch [fetchedQs] that the first call of [generateQuestions] returned. *)
Definition handleStartTest (questionBank : Subject -> list Question)
    (fetchedQs : list Question) : Loader :=
  let initialQs := takeFromBank config questionBank in
  if (0 <? length initialQs)%nat then startLoader initialQs
  else startLoader fetchedQs.

(** A session from the press of the start button, in an application where
    no call or timer is pending: with an empty bank the first batch is
    awaited (the test screen is not shown yet), then the loader runs. *)
Inductive Session :=
  | AwaitingFirstBatch
  | Loading (st : Loader).

Definition startSession (questionBank : Subject -> list Question) : Session :=
  let initialQs := takeFromBank config questionBank in
  if (0 <? length initialQs)%nat then Loading (startLoader initialQs)
  else AwaitingFirstBatch.

Definition sessionStep (s : Session) (e : Event) : option Session :=
  match s with
  | AwaitingFirstBatch =>
      match e with
      | Resolve fetchedQs => Some (Loading (startLoader fetchedQs))
      | _ => None
      end
  | Loading st => Loading <$> step st e
  end.

Fixpoint sessionSteps (s : Session) (es : list Event) : option Session :=
  match es with
  | [] => Some s
  | e :: es' => s' ← sessionStep s e; sessionSteps s' es'
  end.

(** The calls of [generateQuestions] that have not returned yet. *)
Definition callsInFlight (s : Session) : nat :=
  match s with
  | AwaitingFirstBatch => 1
  | Loading st => length (inFlight st)
  end.

(** A run without the user: each pending call is answered by the next batch
    of [answers], each timer fires.  The run stops when nothing is pending
    or the answers are used up. *)
Fixpoint run (fuel : nat) (answers : list (list Question)) (st : Loader)
    : Loader * list (list Question) :=
  match fuel with
  | O => (st, answers)
  | S fuel' =>
      match inFlight st, timers st, answers with
      | _ :: _, _, newQs :: rest => run fuel' rest (resolve newQs st)
      | [], n :: _, _ => run fuel' answers (timeout n st)
      | _, _, _ => (st, answers)
      end
  end.

End Loader.

End App.

(** ** Sessions used as examples *)

Module Samples.

(** The full mock test of the dashboard. *)
Definition fullMock : TestConfig :=
  mkConfig Full 100 90 [Mathematics; Reasoning; GeneralAwareness] None.

(** The bank once the three preload calls have each returned the fallback
    questions, as they do when no key is configured. *)
Definition fallbackBank : Subject -> list Question :=
  App.preloaded GeneralAwareness Gemini.FALLBACK_QUESTIONS
    (App.preloaded Reasoning Gemini.FALLBACK_QUESTIONS
       (App.preloaded Mathematics Gemini.FALLBACK_QUESTIONS App.emptyBank)).

(** A mounted test screen over the questions [qs]: every question has its
    record and the first one is marked visited. *)
Definition mounted (config : TestConfig) (qs : list Question) : TestInterface.Session :=
  TestInterface.handleNavigate 0
    (TestInterface.mkSession qs (durationMinutes config) (totalQuestions config) 0
       (TestInterface.syncQuestions qs ∅) (durationMinutes config * 60) false).

(** The full mock test started from the fallback bank. *)
Definition fallbackSession : TestInterface.Session :=
  mounted fullMock (App.takeFromBank fullMock fallbackBank).

(** A session over the three fallback questions with one second left. *)
Definition lastSecond : TestInterface.Session :=
  TestInterface.setTimeLeft (fun _ => 1) (mounted fullMock Gemini.FALLBACK_QUESTIONS).

(** The same session after the first question was answered and
    bookmarked, and the record it then has. *)
Definition answeredSession : TestInterface.Session :=
  let base := mounted fullMock Gemini.FALLBACK_QUESTIONS in
  default base (TestInterface.handleOptionSelect 3 base ≫= TestInterface.handleBookmark).

Definition answeredRecord : UserResponse :=
  mkResponse (Some "fb-1") (Chosen 3) (Some Answered) (Some 0) (Some true) (Some true).

(** A provider answer: one question, and the JSON object text that stands
    for it (the body of the array text).  [parseOnly] is a parser that
    knows this one array text. *)
Definition generated : Question :=
  mkQuestion "" "What is 15% of 200?" ["20"; "25"; "30"; "35"] 2 Mathematics
    "Percentage" Easy "15/100 * 200 = 30." (Some "RRB NTPC 2021") None.

Definition quoted (s : string) : Js.jsstring := 34%N :: Js.units s ++ [34%N].

Definition generatedBody : Js.jsstring :=
  Js.units "{" ++ quoted "text" ++ Js.units ":" ++ quoted "What is 15% of 200?"
  ++ Js.units "," ++ quoted "options" ++ Js.units ":["
  ++ quoted "20" ++ Js.units "," ++ quoted "25" ++ Js.units ","
  ++ quoted "30" ++ Js.units "," ++ quoted "35" ++ Js.units "],"
  ++ quoted "correctAnswer" ++ Js.units ":2,"
  ++ quoted "subject" ++ Js.units ":" ++ quoted "Mathematics" ++ Js.units ","
  ++ quoted "topic" ++ Js.units ":" ++ quoted "Percentage" ++ Js.units ","
  ++ quoted "difficulty" ++ Js.units ":" ++ quoted "Easy" ++ Js.units ","
  ++ quoted "explanation" ++ Js.units ":" ++ quoted "15/100 * 200 = 30." ++ Js.units ","
  ++ quoted "pyqTag" ++ Js.units ":" ++ quoted "RRB NTPC 2021" ++ Js.units "}".

Definition parseOnly (s : Js.jsstring) : option (list Question) :=
  if decide (s = Gemini.openBracket :: generatedBody ++ [Gemini.closeBracket])
  then Some [generated] else None.

Definition fencedAnswer : Js.jsstring :=
  Js.units "Here you go: ```json " ++
  (Gemini.openBracket :: generatedBody ++ [Gemini.closeBracket]) ++
  Js.units " ``` Good luck!".

Definition bracketedAnswer : Js.jsstring :=
  Js.units "[note] " ++
  (Gemini.openBracket :: generatedBody ++ [Gemini.closeBracket]) ++ [].

Definition genIds (i : nat) : string :=
  match i with O => "gen-1-a" | _ => "gen-1-b" end.

(** A custom test of five Mathematics questions, and a bank that holds
    four cached Mathematics questions. *)
Definition customFive : TestConfig := mkConfig Custom 5 5 [Mathematics] None.

Definition cachedFour : list Question :=
  [ Gemini.withId "gen-0-a" generated; Gemini.withId "gen-0-b" generated;
    Gemini.withId "gen-0-c" generated; Gemini.withId "gen-0-d" generated ].

Definition cachedBank : Subject -> list Question :=
  fun sub => if decide (sub = Mathematics) then cachedFour else [].

(** Three batches of two fresh questions each. *)
Definition pairs : list (list Question) :=
  [ [Gemini.withId "gen-1-a" generated; Gemini.withId "gen-1-b" generated];
    [Gemini.withId "gen-2-a" generated; Gemini.withId "gen-2-b" generated];
    [Gemini.withId "gen-3-a" generated; Gemini.withId "gen-3-b" generated] ].

(** The first question answered and bookmarked, with 45 of the 90 minutes
    left: a test that was interrupted half way. *)
Definition interrupted : TestInterface.Session :=
  TestInterface.setTimeLeft (fun _ => 2700) answeredSession.

(** A custom test of ten questions on one topic, which never starts from
    the bank, and batches of five fresh questions. *)
Definition topicTen : TestConfig :=
  mkConfig Custom 10 9 [Mathematics] (Some "Percentage").

Definition fiveFresh (round : string) : list Question :=
  (fun letter => Gemini.withId ("gen-" +:+ round +:+ "-" +:+ letter) generated)
    <$> ["a"; "b"; "c"; "d"; "e"].

End Samples.

(** ** Notions the statements use *)

Module Notions.

(** [y] is [x] rounded to two decimals: a multiple of 1/100 at distance at
    most 1/200 from [x]. *)
Definition rounded2 (x y : Q) : Prop :=
  (exists n : Z, y == n # 100)%Q /\ (Qabs (y - x) <= 1 # 200)%Q.

(** The records of [R] whose selected option is not [null]. *)
Definition attemptedRecords (R : gmap string UserResponse) : gmap string UserResponse :=
  filter (fun kv : string * UserResponse => selectedOption kv.2 <> Null) R.

(** The records of [R] that hold a selected option, and the maps in which
    no record lacks the field. *)
Definition isChosen (sel : Selection) : Prop :=
  match sel with Chosen _ => True | _ => False end.

#[global] Instance isChosen_dec sel : Decision (isChosen sel).
Proof. destruct sel; apply _. Defined.

Definition chosenRecords (R : gmap string UserResponse) : gmap string UserResponse :=
  filter (fun kv : string * UserResponse => isChosen (selectedOption kv.2)) R.

Definition typedRecords (R : gmap string UserResponse) : Prop :=
  forall k r, R !! k = Some r -> selectedOption r <> Unset.

(** The record of question [q] selects the correct option of [q]. *)
Definition selectsCorrect (R : gmap string UserResponse) (q : Question) : Prop :=
  selectedOption <$> R !! qid q = Some (Chosen (correctAnswer q)).

#[global] Instance selectsCorrect_dec R q : Decision (selectsCorrect R q).
Proof. unfold selectsCorrect. apply _. Defined.

Definition correctQuestions (R : gmap string UserResponse) (qs : list Question)
    : list Question :=
  filter (selectsCorrect R) qs.

(** *** Restoring a session *)

(** The snapshot carries a timestamp that converts to a number less than
    24 hours before [now]. *)
Definition fresh (StringToNumber : string -> option Z) (now : Z) (snap : App.Snapshot)
    : Prop :=
  exists ts, App.ToNumber StringToNumber (App.timestamp snap) = Some ts
             /\ now - ts < App.DAY_MS.

(** *** The provider adapter *)

(** What the [try] block of [generateQuestions] parses out of the provider's
    answer; [None] when it raises. *)
Definition parsedData (JSON_parse : Js.jsstring -> option (list Question))
    (o : Gemini.Outcome) : option (list Question) :=
  match o with
  | Gemini.Rejected => None
  | Gemini.Responded text => Gemini.extractJson (default [] text) ≫= JSON_parse
  end.

(** The pattern [pat] occurs somewhere in [s]. *)
Fixpoint occurs (pat s : Js.jsstring) : bool :=
  match s with
  | [] => Js.startsWith pat []
  | _ :: s' => Js.startsWith pat s || occurs pat s'
  end.

(** The text of a JSON array: an opening bracket, a body, a closing bracket. *)
Definition arrayText (body : Js.jsstring) : Js.jsstring :=
  Gemini.openBracket :: body ++ [Gemini.closeBracket].

Definition stamped (genId : nat -> string) (data : list Question) : list Question :=
  imap (fun i q => Gemini.withId (genId i) q) data.

(** The length bound in the words of the specification. *)
Definition batch_bound_as_specified : Prop :=
  forall JSON_parse apiKey provider genId config batchSize,
    Z.of_nat (length (Gemini.generateQuestions JSON_parse apiKey provider genId config batchSize))
      <= batchSize
    /\ Gemini.requested (Gemini.buildPrompt config batchSize) <= 5.

(** Tolerance of malformed output in the words of the specification: an
    array wrapped in any prose is recovered, and output that cannot be
    parsed gives the fallback set. *)
Definition wrapped_array_recovered : Prop :=
  forall JSON_parse key provider genId config batchSize prefix body suffix data,
    key <> "" ->
    provider (Gemini.buildPrompt config batchSize)
      = Gemini.Responded (Some (prefix ++ arrayText body ++ suffix)) ->
    JSON_parse (arrayText body) = Some data ->
    Gemini.generateQuestions JSON_parse (Some key) provider genId config batchSize
      = stamped genId data.

Definition unparsable_gives_fallback : Prop :=
  forall JSON_parse key provider genId config batchSize,
    key <> "" ->
    parsedData JSON_parse (provider (Gemini.buildPrompt config batchSize)) = None ->
    Gemini.generateQuestions JSON_parse (Some key) provider genId config batchSize
      = Gemini.FALLBACK_QUESTIONS.

(** *** The active question set and the loader *)

Definition ids (qs : list Question) : list string := qid <$> qs.

(** How many questions of [qs] carry the id [i]. *)
Definition copies (i : string) (qs : list Question) : nat :=
  length (filter (fun q => qid q = i) qs).

(** Every batch of [answers], in turn, brings only ids that are not in the
    set built so far from [prev]. *)
Fixpoint freshBatches (prev : list Question) (answers : list (list Question)) : Prop :=
  match answers with
  | [] => True
  | a :: rest => Forall (fun q => qid q ∉ ids prev) a /\ freshBatches (prev ++ a) rest
  end.

(** [ceil(a / b)] for a positive [b]. *)
Definition ceilDiv (a b : Z) : Z := (a + b - 1) / b.

(** The invariants of the active set in the words of the specification,
    over every state a session reaches from [handleStartTest]. *)
Definition length_bound_as_specified : Prop :=
  forall config bank fetchedQs events st,
    App.steps config (App.handleStartTest config bank fetchedQs) events = Some st ->
    Z.of_nat (length (App.questions st)) <= totalQuestions config.

Definition distinct_ids_as_specified : Prop :=
  forall config bank fetchedQs events st,
    App.steps config (App.handleStartTest config bank fetchedQs) events = Some st ->
    NoDup (ids (App.questions st)).

(** What holds of the loader between any two events: at most one call or
    timer is pending; while one is, the latch is set and the set is short
    of the target; a pending timer carries the current count. *)
Definition single_flight (config : TestConfig) (st : App.Loader) : Prop :=
  (length (App.inFlight st) + length (App.timers st) <= 1)%nat
  /\ (App.inFlight st <> [] \/ App.timers st <> [] ->
      App.isFetching st = true
      /\ Z.of_nat (length (App.questions st)) < totalQuestions config)
  /\ (forall n, n ∈ App.timers st -> n = length (App.questions st)).

End Notions.

(** ** components/TestInterface.tsx: the mounted screen

    The state hooks' initial values, the effects that run after a render,
    and the events of a session. *)

Module Screen.
Import TestInterface.

(** The optional [savedState] prop. *)
Record SavedState := mkSavedState {
  saved_responses : gmap string UserResponse;
  saved_timeLeft : Z
}.

(** The initial values of the state hooks: [savedState?.responses || {}]
    and [savedState?.timeLeft || durationMinutes * 60]. *)
Definition initialSession (qs : list Question) (durationMinutes total : Z)
    (savedState : option SavedState) : Session :=
  mkSession qs durationMinutes total 0
    (match savedState with Some sv => saved_responses sv | None => ∅ end)
    (match savedState with
     | Some sv => if saved_timeLeft sv =? 0 then durationMinutes * 60 else saved_timeLeft sv
     | None => durationMinutes * 60
     end)
    false.

Definition withQuestions (qs : list Question) (s : Session) : Session :=
  mkSession qs (durationMinutes s) (totalQuestionsConfig s)
    (currentQuestionIndex s) (responses s) (timeLeft s) (isPaused s).

(** The effects read the values of the render they follow ([rendered]) and
    queue their updaters on the state ([s]). *)
Definition syncEffect (rendered s : Session) : Session :=
  setResponses (syncQuestions (questions rendered)) s.

Definition visitedMarkEffect (rendered s : Session) : Session :=
  match questions rendered with
  | q0 :: _ =>
      if bool_decide (responses rendered !! qid q0 ≫= status = Some NotVisited)
      then setResponses (updateStatus (qid q0) None true) s
      else s
  | [] => s
  end.

(** The background fetch trigger: whether the effect calls [onRequestMore]. *)
Definition requestsMore (s : Session) : bool :=
  (Z.of_nat (length (questions s)) - 5 <=? Z.of_nat (currentQuestionIndex s))
  && (Z.of_nat (length (questions s)) <? totalQuestionsConfig s).

(** The first render and its effects. *)
Definition mount (qs : list Question) (durationMinutes total : Z)
    (savedState : option SavedState) : Session :=
  let rendered := initialSession qs durationMinutes total savedState in
  visitedMarkEffect rendered (syncEffect rendered rendered).

(** The parent passes a new [questions] array: the sync effect runs, and
    the visited mark when the length has changed. *)
Definition receive (qs : list Question) (s : Session) : Session :=
  let rendered := withQuestions qs s in
  let s1 := syncEffect rendered rendered in
  if (length qs =? length (questions s))%nat then s1
  else visitedMarkEffect rendered s1.

(** What can happen to a mounted screen.  [None] is a [TypeError] raised by
    the handler. *)
Inductive Action :=
  | Select (optionIndex : Z)
  | Review
  | Skip
  | Clear
  | Bookmark
  | Navigate (index : Z)
  | Pause
  | Resume
  | Second (now : string)
  | Receive (qs : list Question).

Definition act (a : Action) (s : Session) : option Session :=
  match a with
  | Select optionIndex => handleOptionSelect optionIndex s
  | Review => handleMarkForReview s
  | Skip => handleSkip s
  | Clear => handleClearResponse s
  | Bookmark => handleBookmark s
  | Navigate index => Some (handleNavigate index s)
  | Pause => Some (setIsPaused true s)
  | Resume => Some (setIsPaused false s)
  | Second now => Some (second now s).1
  | Receive qs => Some (receive qs s)
  end.

Fixpoint acts (s : Session) (l : list Action) : option Session :=
  match l with
  | [] => Some s
  | a :: l' => s' ← act a s; acts s' l'
  end.

(** The persistence effect: the snapshot written to durable storage after a
    render, unless the test is paused. *)
Definition snapshotOf (now : Z) (s : Session) : App.Snapshot :=
  App.mkSnapshot (responses s) (timeLeft s) (App.JsNumber now).

Definition persist (JSON_stringify : App.Snapshot -> string) (now : Z) (s : Session)
    (stored : option string) : option string :=
  if isPaused s then stored else Some (JSON_stringify (snapshotOf now s)).

(** *** The question array the timer holds

    The callback of [setInterval] reads [questions] and
    [currentQuestionIndex] of the render whose timer effect armed it.  The
    effect runs again when [timeLeft], [currentQuestionIndex] or [isPaused]
    has changed, not when a new [questions] array has arrived: until then
    the pending callback holds the array of the render that armed it.
    [tick s] above is the callback for the array of the current render,
    [staleTick armed s] the callback for the array [armed]. *)
Definition staleTick (armed : list Question) (s : Session) : Session :=
  let s' := setTimeLeft (fun prev => prev - 1) s in
  match armed !! currentQuestionIndex s with
  | Some q =>
      let qId := qid q in
      setResponses (fun prev =>
        <[qId := withTimeSpent
                   (default 0 (prev !! qId ≫= timeSpentSeconds) + 1)
                   (spread (prev !! qId))]> prev) s'
  | None => s'
  end.

(** A mounted screen together with the array its timer callback holds. *)
Record Mounted := mkMounted {
  session : Session;
  armed : list Question
}.

(** The dependencies of the timer effect. *)
Definition timerDeps (s : Session) : Z * nat * bool :=
  (timeLeft s, currentQuestionIndex s, isPaused s).

(** After a render: the timer effect has run again, and closed over the
    current array, if one of its dependencies has changed. *)
Definition afterRender (before : Mounted) (after : Session) : Mounted :=
  mkMounted after
    (if decide (timerDeps after = timerDeps (session before))
     then armed before else questions after).

Definition mountTimed (qs : list Question) (durationMinutes total : Z)
    (savedState : option SavedState) : Mounted :=
  let s := mount qs durationMinutes total savedState in
  mkMounted s (questions s).

(** One second: the callback runs on the array it holds; the remaining
    time has changed, so the effect runs again. *)
Definition secondTimed (m : Mounted) : Mounted :=
  match timerEffect (session m) with
  | Ticking =>
      let s' := staleTick (armed m) (session m) in
      mkMounted s' (questions s')
  | _ => m
  end.

Definition actTimed (a : Action) (m : Mounted) : option Mounted :=
  match a with
  | Second _ => Some (secondTimed m)
  | _ => s' ← act a (session m); Some (afterRender m s')
  end.

Fixpoint actsTimed (m : Mounted) (l : list Action) : option Mounted :=
  match l with
  | [] => Some m
  | a :: l' => m' ← actTimed a m; actsTimed m' l'
  end.

Fixpoint secondsTimed (k : nat) (m : Mounted) : Mounted :=
  match k with
  | O => m
  | S k' => secondsTimed k' (secondTimed m)
  end.

(** The seconds counted on the question [k]. *)
Definition counter (s : Session) (k : string) : Z :=
  default 0 (responses s !! k ≫= timeSpentSeconds).

End Screen.

(** ** App.tsx: the test screen as the application renders it

    The render of the test screen (lines 1230 to 1238 of the third part of
    [src/components/TestInterface.tsx]). *)

Module Resume.

(** The props of [TestInterface]. *)
Record Props := mkProps {
  p_questions : list Question;
  p_durationMinutes : Z;
  p_totalQuestionsConfig : Z;
  p_savedState : option Screen.SavedState
}.

(** The props the application passes: the questions and the two numbers
    of the current configuration.  The [savedSession] state is in scope of
    the render and is not passed on; [savedState] is left out. *)
Definition testScreenProps (savedSession : option App.Snapshot)
    (currentConfig : TestConfig) (questions : list Question) : Props :=
  mkProps questions (durationMinutes currentConfig) (totalQuestions currentConfig) None.

Definition mountWith (p : Props) : TestInterface.Session :=
  Screen.mount (p_questions p) (p_durationMinutes p) (p_totalQuestionsConfig p)
    (p_savedState p).

End Resume.

(** ** Notions for the sessions of a mounted screen *)

Module SessionNotions.
Import TestInterface Screen.

Definition answeredStatus (st : Status) : bool :=
  match st with Answered | AnsweredAndMarked => true | _ => false end.

(** A record as the sync effect creates it and the handlers keep it: every
    field is present, the record sits under its own id, and its status says
    Answered exactly when an option is selected. *)
Definition completeRecord (k : string) (r : UserResponse) : Prop :=
  questionId r = Some k
  /\ selectedOption r <> Unset
  /\ (exists st, status r = Some st
        /\ (Notions.isChosen (selectedOption r) <-> answeredStatus st = true))
  /\ (exists t, timeSpentSeconds r = Some t /\ 0 <= t)
  /\ is_Some (visited r)
  /\ is_Some (isBookmarked r).

Definition timeSpent (r : UserResponse) : Z := default 0 (timeSpentSeconds r).

(** The seconds counted on all the records together. *)
Definition totalTimeSpent (R : gmap string UserResponse) : Z :=
  foldr (fun r acc => timeSpent r + acc) 0 (Object_values R).

Definition covered (qs : list Question) (R : gmap string UserResponse) : Prop :=
  forall q, q ∈ qs -> is_Some (R !! qid q).

Definition sound (R : gmap string UserResponse) (T : Z) : Prop :=
  (forall k r, R !! k = Some r -> completeRecord k r) /\ totalTimeSpent R <= T.

Definition owned (qs : list Question) (R : gmap string UserResponse) : Prop :=
  forall k, is_Some (R !! k) -> k ∈ qid <$> qs.

(** What every session reached from a mount satisfies. *)
Definition wellFormed (s : Session) : Prop :=
  (forall q, q ∈ questions s -> is_Some (responses s !! qid q))
  /\ (forall k r, responses s !! k = Some r -> completeRecord k r)
  /\ 0 <= timeLeft s <= durationMinutes s * 60
  /\ (currentQuestionIndex s = O
      \/ Z.of_nat (currentQuestionIndex s) < totalQuestionsConfig s)
  /\ totalTimeSpent (responses s) <= durationMinutes s * 60 - timeLeft s.

(** The records the palette shows as answered. *)
Definition answeredRecords (R : gmap string UserResponse) : gmap string UserResponse :=
  filter (fun kv : string * UserResponse =>
            status kv.2 = Some Answered \/ status kv.2 = Some AnsweredAndMarked) R.

(** The handlers that read [questions[currentQuestionIndex].id]. *)
Definition recordHandler (a : Action) : bool :=
  match a with
  | Select _ | Review | Skip | Clear | Bookmark => true
  | _ => false
  end.

(** The events that are no answer: marks, moves, pauses and the clock. *)
Definition marksOnly (a : Action) : bool :=
  match a with
  | Review | Bookmark | Navigate _ | Pause | Resume | Second _ => true
  | _ => false
  end.

(** The figures of a result. *)
Definition scoreSheet (r : TestResult) : Z * Z * Z * Q * Q :=
  (attempted r, correct r, wrong r, score r, accuracy r).

(** The parent only ever extends the question list, as the loader's merge
    does: every [Receive] of [l] brings a list that the loaded one is a
    prefix of. *)
Fixpoint extending (s : Session) (l : list Action) : Prop :=
  match l with
  | [] => True
  | a :: l' =>
      match a with
      | Receive qs => questions s `prefix_of` qs
      | _ => True
      end
      /\ match act a s with
         | Some s' => extending s' l'
         | None => True
         end
  end.

(** A session over the three fallback questions of the full mock test, the
    events of a short walk through it, and the session after them. *)
Definition fresh3 : Session := mount Gemini.FALLBACK_QUESTIONS 90 100 None.

Definition walk : list Action :=
  [ Select 3; Review; Navigate 1; Second "2024-01-01T00:00:00.000Z"; Skip; Bookmark;
    Pause; Resume;
    Receive (Gemini.FALLBACK_QUESTIONS ++ [Gemini.withId "gen-1-a" Samples.generated]);
    Navigate 3; Select 2; Clear ].

Definition walked : Session := default fresh3 (acts fresh3 walk).

(** Three presses of Next from the first question reach the fourth one,
    which is not loaded. *)
Definition pastTheEnd : Session :=
  default fresh3 (acts fresh3 [Navigate 1; Navigate 2; Navigate 3]).

(** The seconds of the clock among the events. *)
Definition clockAction (a : Action) : bool :=
  match a with Second _ => true | _ => false end.

(** The events [l] from [s], none of them a second of the clock and none
    changing what the timer effect depends on: the timer is not armed anew
    on the way. *)
Fixpoint quietRun (s : Session) (l : list Action) : option Session :=
  match l with
  | [] => Some s
  | a :: l' =>
      if clockAction a then None
      else
        s1 ← act a s;
        if decide (timerDeps s1 = timerDeps s) then quietRun s1 l' else None
  end.

(** What links a screen with its timer to the sessions of [acts]: the
    array the timer holds is the question list of a session [s0] reached
    from the mount, and the screen is reached from [s0] by events that did
    not arm the timer anew. *)
Definition simulated (qs : list Question) (d total : Z) (m : Mounted) : Prop :=
  exists l' s0 l'',
    acts (mount qs d total None) l' = Some s0
    /\ questions s0 = armed m
    /\ quietRun s0 l'' = Some (session m).

(** The fourth question arrives while the screen waits on its index: three
    presses of Next, then the array with one more question.  The timer was
    armed by the last press and holds the three questions of that render. *)
Definition lateArrival : Mounted :=
  let m := mountTimed Gemini.FALLBACK_QUESTIONS 90 100 None in
  default m
    (actsTimed m
       [ Navigate 1; Navigate 2; Navigate 3;
         Receive (Gemini.FALLBACK_QUESTIONS ++ [Gemini.withId "gen-1-a" Samples.generated]) ]).

End SessionNotions.

(** ** services/geminiService.ts: flashcards, hints and doubts

    [generateFlashcards], [getAIHint] and [solveAIDoubt] (lines 830 to 924
    of [src/components/TestInterface.tsx]). *)

Module Assistant.
Import Js Gemini.

Record Flashcard := mkFlashcard {
  card_topic : string;
  content : string;
  keyPoint : string
}.

(** [Array.from(new Set(arr))]: each element is added unless the set holds
    it already, so the elements come in the order of their first
    occurrence. *)
Definition addAll {A} `{EqDecision A} (set arr : list A) : list A :=
  fold_left (fun set x => if decide (x ∈ set) then set else set ++ [x]) arr set.

Definition arrayFromSet {A} `{EqDecision A} (arr : list A) : list A := addAll [] arr.

Definition uniqueTopics (weakTopics : list string) : list string :=
  take 3 (arrayFromSet weakTopics).

(** [s.substring(a, b)]: the arguments are swapped when [a > b]. *)
Definition substringAny (a b : nat) (s : jsstring) : jsstring :=
  if (a <=? b)%nat then substring a b s else substring b a s.

(** [.replace(/```json/g, "").replace(/```/g, "").trim()]. *)
Definition cleanUp (text : jsstring) : jsstring :=
  trim (replaceAll fence [] (replaceAll fenceJson [] text)).

(** The request for flashcards: the variable part of its prompt is the
    list of topics. *)
Record FlashPrompt := mkFlashPrompt {
  flash_model : string;
  flash_topics : list string
}.

(** What [generateFlashcards] hands to [JSON.parse]: the text between the
    first opening and the last closing bracket when both occur, else the
    whole cleaned text. *)
Definition flashJson (text : jsstring) : jsstring :=
  let jsonStr := cleanUp text in
  match indexOf openBracket jsonStr, lastIndexOf closeBracket jsonStr with
  | Some firstOpen, Some lastClose => substringAny firstOpen (lastClose + 1) jsonStr
  | _, _ => jsonStr
  end.

Section Flashcards.

Variable JSON_parse : jsstring -> option (list Flashcard).
Variable apiKey : option string.
Variable provider : FlashPrompt -> Outcome.

Definition generateFlashcards (weakTopics : list string) : list Flashcard :=
  if negb (hasKey apiKey) || (length weakTopics =? 0)%nat then []
  else
    match provider (mkFlashPrompt "gemini-2.5-flash" (uniqueTopics weakTopics)) with
    | Rejected => []
    | Responded text => default [] (JSON_parse (flashJson (default [] text)))
    end.

End Flashcards.

(** [s || d] for an optional string: [undefined] and the empty string are
    falsy. *)
Definition orElse (s : option jsstring) (d : string) : jsstring :=
  match s with
  | Some (c :: r) => c :: r
  | _ => units d
  end.

Section Hints.

Variable apiKey : option string.

(** The prompts are built from the question, and from the question and the
    query of the student. *)
Variable hintProvider : Question -> Outcome.
Variable doubtProvider : Question -> jsstring -> Outcome.

Definition getAIHint (question : Question) : jsstring :=
  if negb (hasKey apiKey) then units "Hints unavailable without API Key."
  else
    match hintProvider question with
    | Rejected => units "Check specific keywords in the question."
    | Responded text => orElse (trim <$> text) "Analyze the options carefully."
    end.

Definition solveAIDoubt (question : Question) (userQuery : jsstring) : jsstring :=
  if negb (hasKey apiKey) then units "Feature unavailable."
  else
    match doubtProvider question userQuery with
    | Rejected => units "Connection error. Please try again."
    | Responded text =>
        orElse (trim <$> text) "I couldn't generate an explanation at this moment."
    end.

End Hints.

(** The number of backticks a text begins with. *)
Fixpoint leadingTicks (s : jsstring) : nat :=
  match s with
  | c :: s' => if (c =? 96)%N then S (leadingTicks s') else O
  | [] => O
  end.

(** A text of white space only, and an answer without content: no text at
    all, or white space only. *)
Definition white (s : jsstring) : Prop := Forall (fun c => isWhiteSpace c = true) s.

Definition blank (text : option jsstring) : Prop :=
  forall t, text = Some t -> white t.

(** How a function of the assistant answers: with [noKey] when no key is
    configured, with [failed] when the call is rejected, with [empty] when
    the provider's answer is absent or blank, and else with the answer
    without the white space around it. *)
Definition answersWith (noKey failed empty : string) (apiKey : option string)
    (o : Outcome) (result : jsstring) : Prop :=
  (hasKey apiKey = false -> result = units noKey)
  /\ (hasKey apiKey = true -> o = Rejected -> result = units failed)
  /\ (hasKey apiKey = true -> forall text, o = Responded text ->
        (blank text -> result = units empty)
        /\ (~ blank text ->
            exists t before after,
              text = Some t /\ t = before ++ result ++ after
              /\ white before /\ white after)).

(** A text neither begins nor ends with white space. *)
Definition trimmed (s : jsstring) : Prop :=
  (forall c, head s = Some c -> isWhiteSpace c = false)
  /\ (forall c, last s = Some c -> isWhiteSpace c = false).

End Assistant.

(** ** components/ResultAnalysis.tsx *)

Module ResultAnalysis.
Import Assistant.

Inductive ReviewFilter := All | Incorrect | Skipped.

Inductive RowLabel := LabelCorrect | LabelSkipped | LabelIncorrect.

(** [subject.split(' ')[0]]: the first word of the subject's name. *)
Definition shortName (s : Subject) : string :=
  match s with
  | Mathematics => "Mathematics"
  | Reasoning => "General"
  | GeneralAwareness => "General"
  end.

(** A row of [subjectData].  The score is computed with the factor 0.33,
    read here as the rational 33/100. *)
Record SubjectRow := mkSubjectRow {
  row_name : string;
  full : Subject;
  row_total : nat;
  row_attempted : nat;
  row_correct : nat;
  row_score : Q
}.

Section Result.

(** [result.responses] and the [questions] prop. *)
Variable responses : gmap string UserResponse.
Variable questions : list Question.

(** [result.responses[q.id]?.selectedOption]: [undefined] when the question
    has no record. *)
Definition selectionOf (q : Question) : Selection :=
  match responses !! qid q with
  | Some r => selectedOption r
  | None => Unset
  end.

Definition isCorrect (q : Question) : bool :=
  bool_decide (selectionOf q = Chosen (correctAnswer q)).

Definition isAttempted (q : Question) : bool :=
  negb (bool_decide (selectionOf q = Null)).

Definition isSkipped (q : Question) : bool :=
  bool_decide (selectionOf q = Null) || bool_decide (selectionOf q = Unset).

(** The filter of the flashcard effect: [res && res.selectedOption !== null
    && res.selectedOption !== q.correctAnswer]. *)
Definition answeredWrong (q : Question) : bool :=
  match responses !! qid q with
  | Some r =>
      negb (bool_decide (selectedOption r = Null))
      && negb (bool_decide (selectedOption r = Chosen (correctAnswer q)))
  | None => false
  end.

Definition wrongAnswerTopics : list string :=
  topic <$> List.filter answeredWrong questions.

Definition subjects : list Subject := arrayFromSet (subject <$> questions).

Definition ofSubject (sub : Subject) (q : Question) : bool :=
  bool_decide (subject q = sub).

(** [subjectScores] of the analysis request, as the list of its entries. *)
Definition subjectScores : list (Subject * nat) :=
  (fun sub =>
     let qs := List.filter (ofSubject sub) questions in
     (sub, length (List.filter isCorrect qs))) <$> subjects.

Definition subjectData : list SubjectRow :=
  (fun sub =>
     let subjectQuestions := List.filter (ofSubject sub) questions in
     let attempted := length (List.filter isAttempted subjectQuestions) in
     let correct := length (List.filter isCorrect subjectQuestions) in
     mkSubjectRow (shortName sub) sub (length subjectQuestions) attempted correct
       (inject_Z (Z.of_nat correct) * 1
        - (inject_Z (Z.of_nat attempted) - inject_Z (Z.of_nat correct)) * (33 # 100)))
  <$> subjects.

Definition passes (reviewFilter : ReviewFilter) (q : Question) : bool :=
  match reviewFilter with
  | Incorrect => isAttempted q && negb (isCorrect q)
  | Skipped => negb (isAttempted q)
  | All => true
  end.

Definition filteredQuestions (reviewFilter : ReviewFilter) : list Question :=
  List.filter (passes reviewFilter) questions.

(** The badge of a row of the review list. *)
Definition rowLabel (q : Question) : RowLabel :=
  if isCorrect q then LabelCorrect
  else if isSkipped q then LabelSkipped
  else LabelIncorrect.

End Result.

(** The flashcard effect: the request is made only when a question was
    answered wrongly. *)
Definition flashcardEffect (JSON_parse : Js.jsstring -> option (list Flashcard))
    (apiKey : option string) (provider : FlashPrompt -> Gemini.Outcome)
    (responses : gmap string UserResponse) (questions : list Question)
    : list Flashcard :=
  let topics := wrongAnswerTopics responses questions in
  if (0 <? length topics)%nat
  then generateFlashcards JSON_parse apiKey provider topics
  else [].

(** The three slices of the pie chart. *)
Definition pieData (result : TestResult) : Z * Z * Z :=
  (correct result, wrong result, res_totalQuestions result - attempted result).

(** [Math.floor(t / 60)] and [t % 60] of the time display. *)
Definition timeDisplay (result : TestResult) : Z * Z :=
  (timeTakenSeconds result / 60, Z.rem (timeTakenSeconds result) 60).

End ResultAnalysis.

(** ** App.tsx: the question bank and a second start *)

Module Bank.
Import App.

(** [loadCache]: the cached questions are grouped by subject in reading
    order, and the groups are spread over the bank: a subject that has
    cached questions gets them in place of its entry.  [cached] is what
    [getCachedQuestions(20)] resolved to, [None] when it was rejected. *)
Definition grouped (cached : list Question) : Subject -> list Question :=
  fold_left (fun grouped q =>
               fun sub => if decide (sub = subject q) then grouped sub ++ [q]
                          else grouped sub)
            cached (fun _ => []).

Definition loadCache (cached : option (list Question)) (prev : Subject -> list Question)
    : Subject -> list Question :=
  match cached with
  | None => prev
  | Some cached =>
      fun sub => match grouped cached sub with [] => prev sub | qs => qs end
  end.

(** [usedFromBank] of [handleStartTest], and the update of the bank that
    follows a start from the bank. *)
Definition usedFromBank (config : TestConfig) (questionBank : Subject -> list Question)
    : Subject -> option nat :=
  if topicChosen config then fun _ => None
  else
    fold_left (fun used subject =>
                 let cached := questionBank subject in
                 let takeCount := Nat.min (length cached) 5 in
                 let subset := take takeCount cached in
                 if (0 <? length subset)%nat
                 then fun sub => if decide (sub = subject) then Some takeCount else used sub
                 else used)
              (selectedSubjects config) (fun _ => None).

Definition consumeBank (used : Subject -> option nat) (prev : Subject -> list Question)
    : Subject -> list Question :=
  fun sub => match used sub with Some n => drop n (prev sub) | None => prev sub end.

Definition bankAfterStart (config : TestConfig) (questionBank : Subject -> list Question)
    : Subject -> list Question :=
  if (0 <? length (takeFromBank config questionBank))%nat
  then consumeBank (usedFromBank config questionBank) questionBank
  else questionBank.

(** The end of [handleStartTest] in an application whose loader is in the
    state [st]: the latch, the pending calls and the timers are those of
    the application, not of the test. *)
Definition startOn (st : Loader) (config : TestConfig) (initialQs : list Question) : Loader :=
  let st' := mkLoader initialQs (isFetching st) (inFlight st) (timers st) (issued st) in
  if Z.of_nat (length initialQs) <? totalQuestions config
  then loadMoreQuestions config (length initialQs) st'
  else st'.

End Bank.

(** ** utils/db.ts ([src/utils/db.ts]) *)

Module Db.

(** The object store [questions] of the database.  Its key path is [id]:
    a record is filed under the id it carries. *)
Abbreviation Store := (gmap string Question).

Definition put (q : Question) (store : Store) : Store := <[qid q := q]> store.

(** The database as a call finds it: [None] when [indexedDB.open] fails, so
    that [initDB] rejects and the call with it. *)
Definition cacheQuestions (questions : list Question) (db : option Store) : option Store :=
  store ← db; Some (fold_left (fun store q => put q store) questions store).

(** The order of the keys: strings compare unit by unit. *)
Definition keyLe (a b : Question) : Prop := String.leb (qid a) (qid b) = true.

#[global] Instance keyLe_dec a b : Decision (keyLe a b).
Proof. unfold keyLe. apply _. Defined.

(** [store.getAll(undefined, limit)]: the records in ascending order of
    their keys, the first [limit] of them; all of them when [limit] is 0. *)
Definition getAll (limit : nat) (store : Store) : list Question :=
  let all := merge_sort keyLe (map_to_list store).*2 in
  if (limit =? 0)%nat then all else take limit all.

Definition getCachedQuestions (limit : nat) (db : option Store) : option (list Question) :=
  getAll limit <$> db.

Definition clearCache (db : option Store) : option Store :=
  (fun _ => ∅) <$> db.

(** Every record is filed under its own id. *)
Definition keyed (store : Store) : Prop :=
  forall k q, store !! k = Some q -> qid q = k.

End Db.

(** ** components/Dashboard.tsx

    In the source tree this file is a part of [src/unnamed/part_000]. *)

Module Dashboard.

(** [SUBJECT_TOPICS] of [src/types.ts]. *)
Definition SUBJECT_TOPICS (s : Subject) : list string :=
  match s with
  | Mathematics =>
      [ "Number System"; "HCF & LCM"; "Decimals & Fractions"; "Percentage";
        "Ratio & Proportion"; "Time & Work"; "Time & Distance";
        "Simple & Compound Interest"; "Profit & Loss"; "Mensuration";
        "Algebra"; "Geometry"; "Trigonometry"; "Data Interpretation" ]
  | Reasoning =>
      [ "Analogies"; "Classification"; "Series"; "Coding-Decoding";
        "Blood Relations"; "Puzzles"; "Seating Arrangement"; "Direction Sense";
        "Syllogism"; "Venn Diagrams"; "Data Sufficiency" ]
  | GeneralAwareness =>
      [ "Current Affairs"; "Indian History"; "Geography"; "Polity";
        "Economics"; "General Science"; "Indian Railways"; "Sports";
        "Books & Authors"; "Science & Technology" ]
  end.

(** The configurations of the four test cards. *)
Definition testCards : list TestConfig :=
  [ mkConfig Full 100 90 [Mathematics; Reasoning; GeneralAwareness] None;
    mkConfig SubjectMode 30 30 [Mathematics] None;
    mkConfig SubjectMode 30 30 [Reasoning] None;
    mkConfig SubjectMode 40 20 [GeneralAwareness] None ].

(** The state of the custom test form. *)
Record Form := mkForm {
  customSubject : Subject;
  customTopic : string;
  customCount : Z
}.

Definition initialForm : Form := mkForm Mathematics "" 20.

(** What the form's controls offer: the topic select lists the mixed
    option and the topics of the chosen subject; the range input runs from
    5 to 50 in steps of 5. *)
Definition topicOptions (f : Form) : list string :=
  "" :: SUBJECT_TOPICS (customSubject f).

Definition sliderValues : list Z := [5; 10; 15; 20; 25; 30; 35; 40; 45; 50].

(** The user picks a subject, the [n]-th option of the topic select, or
    the [n]-th stop of the slider. *)
Inductive Input :=
  | ChooseSubject (s : Subject)
  | ChooseTopic (n : nat)
  | MoveSlider (n : nat).

Definition input (f : Form) (i : Input) : Form :=
  match i with
  | ChooseSubject s => mkForm s "" (customCount f)
  | ChooseTopic n =>
      match topicOptions f !! n with
      | Some t => mkForm (customSubject f) t (customCount f)
      | None => f
      end
  | MoveSlider n =>
      match sliderValues !! n with
      | Some c => mkForm (customSubject f) (customTopic f) c
      | None => f
      end
  end.

(** [Math.ceil(customCount * 0.9)], computed in double precision. *)
Definition customDuration (customCount : Z) : Z :=
  Qceiling (Double.Q_of_double (Double.double_of_Z customCount * (9 / 10))%float).

(** The configuration that the button Start Custom Test hands over. *)
Definition customConfig (f : Form) : TestConfig :=
  mkConfig Custom (customCount f) (customDuration (customCount f)) [customSubject f]
    (if String.eqb (customTopic f) "" then None else Some (customTopic f)).

End Dashboard.

(** ** components/TestInterface.tsx: the clock display *)

Module Clock.

(** [n.toString()] for an integer. *)
Definition toString (n : Z) : string := NilZero.string_of_int (Z.to_int n).

(** [s.padStart(2, '0')]. *)
Definition padStart2 (s : string) : string :=
  match s with
  | EmptyString => "00"
  | String _ EmptyString => String "0" s
  | _ => s
  end.

(** [formatTime]: [Math.floor(seconds / 60)] and [seconds % 60], each padded
    to two digits. *)
Definition formatTime (seconds : Z) : string :=
  (padStart2 (toString (seconds / 60)) ++ ":" ++ padStart2 (toString (Z.rem seconds 60)))%string.

(** Reading a display back: the text before the first colon and the text
    after it, as decimal numbers of minutes and seconds. *)
Fixpoint splitColon (s : string) : option (string * string) :=
  match s with
  | EmptyString => None
  | String c s' =>
      if Ascii.eqb c ":" then Some (EmptyString, s')
      else (fun p : string * string => (String c p.1, p.2)) <$> splitColon s'
  end.

Definition readNumber (s : string) : option Z :=
  (fun d => Z.of_N (N.of_uint d)) <$> NilZero.uint_of_string s.

Definition readTime (s : string) : option Z :=
  p ← splitColon s;
  m ← readNumber p.1;
  sec ← readNumber p.2;
  Some (60 * m + sec).

Definition displayedExactly (seconds : Z) : bool :=
  (String.length (formatTime seconds) =? 5)%nat
  && bool_decide (readTime (formatTime seconds) = Some seconds).

End Clock.

(** ** App.tsx: leaving a test *)

Module Exit.
Import App.

(** [handleExitTest], once confirmed: the question set is emptied; the
    latch, the pending calls and the timers are left as they are. *)
Definition handleExitTest (st : Loader) : Loader :=
  mkLoader [] (isFetching st) (inFlight st) (timers st) (issued st).

End Exit.

(* ===================================================================== *)
(** * Part II. Properties                                                *)
(* ===================================================================== *)

(** ** Response records: clearing and bookmarking *)

Section Handlers.
Import TestInterface.

Implicit Types (s : Session) (r : UserResponse) (qId : string).

Lemma withBookmark_twice b r :
  isBookmarked r = Some b ->
  withBookmark (negb (negb b)) (withBookmark (negb b) r) = r.
Proof. destruct r; simpl; intros ->; by rewrite negb_involutive. Qed.

(** C9. When the current question is loaded and has a record,
    [handleClearResponse] succeeds; the record of the current question gets
    the selection [null] and the status Not Answered and keeps its visited
    flag, its bookmark flag, its time counter and its question id; every
    other record, and the rest of the session, is unchanged. *)
Theorem clearResponse_frame s qId r :
  currentId s = Some qId ->
  responses s !! qId = Some r ->
  exists s' r',
    handleClearResponse s = Some s'
    /\ responses s' !! qId = Some r'
    /\ selectedOption r' = Null
    /\ status r' = Some NotAnswered
    /\ visited r' = visited r
    /\ isBookmarked r' = isBookmarked r
    /\ timeSpentSeconds r' = timeSpentSeconds r
    /\ questionId r' = questionId r
    /\ (forall k, k <> qId -> responses s' !! k = responses s !! k)
    /\ questions s' = questions s
    /\ currentQuestionIndex s' = currentQuestionIndex s
    /\ timeLeft s' = timeLeft s
    /\ isPaused s' = isPaused s.
Proof.
  intros Hcur Hr. unfold handleClearResponse. rewrite Hcur. simpl.
  eexists _, _. split; [reflexivity|]. simpl.
  rewrite lookup_insert_eq, Hr. simpl.
  repeat split; try reflexivity.
  intros k Hk. by rewrite lookup_insert_ne.
Qed.

(** C10. When the current question is loaded and its record carries a
    boolean bookmark flag, [handleBookmark] replaces that record by the same
    record with the flag negated and touches nothing else; a second call
    gives back the session it started from, response map included. *)
Theorem toggleBookmark_involutive s qId r b :
  currentId s = Some qId ->
  responses s !! qId = Some r ->
  isBookmarked r = Some b ->
  exists s1,
    handleBookmark s = Some s1
    /\ responses s1 = <[qId := withBookmark (negb b) r]> (responses s)
    /\ (forall k, k <> qId -> responses s1 !! k = responses s !! k)
    /\ (exists r1, responses s1 !! qId = Some r1
          /\ isBookmarked r1 = Some (negb b)
          /\ questionId r1 = questionId r
          /\ selectedOption r1 = selectedOption r
          /\ status r1 = status r
          /\ timeSpentSeconds r1 = timeSpentSeconds r
          /\ visited r1 = visited r)
    /\ handleBookmark s1 = Some s
    /\ (forall s2, handleBookmark s1 = Some s2 -> responses s2 = responses s).
Proof.
  intros Hcur Hr Hb.
  assert (Hs1 : handleBookmark s
                = Some (setResponses (fun prev => <[qId := withBookmark (negb b) r]> prev) s)).
  { unfold handleBookmark. rewrite Hcur. simpl. rewrite Hr. simpl. by rewrite Hb. }
  assert (Hback : handleBookmark
                    (setResponses (fun prev => <[qId := withBookmark (negb b) r]> prev) s)
                  = Some s).
  { unfold handleBookmark, currentId in *. simpl. rewrite Hcur. simpl.
    rewrite lookup_insert_eq. simpl.
    unfold setResponses. simpl. rewrite insert_insert_eq.
    rewrite (withBookmark_twice b r Hb), (insert_id _ _ _ Hr).
    by destruct s. }
  eexists. split; [exact Hs1|]. simpl. split; [reflexivity|].
  split; [intros k Hk; by rewrite lookup_insert_ne|].
  split.
  { eexists. rewrite lookup_insert_eq. split; [reflexivity|]. by destruct r. }
  split; [exact Hback|].
  intros s2 Hs2. rewrite Hback in Hs2. by inversion Hs2.
Qed.

Lemma clearResponse_frame_witness :
  currentId Samples.answeredSession = Some "fb-1"
  /\ responses Samples.answeredSession !! "fb-1" = Some Samples.answeredRecord
  /\ exists s' r',
       handleClearResponse Samples.answeredSession = Some s'
       /\ responses s' !! "fb-1" = Some r'
       /\ selectedOption r' = Null
       /\ status r' = Some NotAnswered
       /\ visited r' = Some true
       /\ isBookmarked r' = Some true.
Proof.
  split; [reflexivity|]. split; [reflexivity|].
  destruct (clearResponse_frame Samples.answeredSession "fb-1" Samples.answeredRecord
              eq_refl eq_refl)
    as (s' & r' & H1 & H2 & H3 & H4 & H5 & H6 & _).
  exists s', r'. repeat split; assumption.
Defined.

Lemma toggleBookmark_involutive_witness :
  currentId Samples.answeredSession = Some "fb-1"
  /\ responses Samples.answeredSession !! "fb-1" = Some Samples.answeredRecord
  /\ isBookmarked Samples.answeredRecord = Some true
  /\ exists s1,
       handleBookmark Samples.answeredSession = Some s1
       /\ (responses s1 !! "fb-1" ≫= isBookmarked) = Some false
       /\ handleBookmark s1 = Some Samples.answeredSession.
Proof.
  split; [reflexivity|]. split; [reflexivity|]. split; [reflexivity|].
  destruct (toggleBookmark_involutive Samples.answeredSession "fb-1" Samples.answeredRecord
              true eq_refl eq_refl eq_refl)
    as (s1 & H1 & H2 & _ & _ & H5 & _).
  exists s1. split; [exact H1|]. split; [|exact H5].
  rewrite H2, lookup_insert_eq. reflexivity.
Defined.

End Handlers.

(** ** Scoring *)

Section Scoring.
Import TestInterface Notions.

Lemma toFixed2_rounded2 x : rounded2 x (toFixed2 x).
Proof.
  unfold rounded2, toFixed2.
  set (n := Qfloor (Qabs x * 100 + (1 # 2))).
  assert (Hlo : (inject_Z n <= Qabs x * 100 + (1 # 2))%Q) by apply Qfloor_le.
  assert (Hhi : (Qabs x * 100 + (1 # 2) < inject_Z (n + 1))%Q) by apply Qlt_floor.
  rewrite inject_Z_plus in Hhi. change (inject_Z 1) with 1%Q in Hhi.
  clearbody n. split; [eexists; reflexivity|].
  destruct (Z.ltb_spec (Qnum x) 0) as [Hneg|Hpos].
  - assert (Hx : (x < 0)%Q) by (destruct x; unfold Qlt; simpl in *; lia).
    assert (Habs : (Qabs x == - x)%Q) by (apply Qabs_neg, Qlt_le_weak, Hx).
    assert (E : ((- n) # 100 == - inject_Z n * (1 # 100))%Q).
    { unfold Qeq, inject_Z, Qmult, Qopp; simpl. lia. }
    rewrite E. apply Qabs_Qle_condition. rewrite Habs in Hlo, Hhi. split; lra.
  - assert (Hx : (0 <= x)%Q) by (destruct x; unfold Qle; simpl in *; lia).
    assert (Habs : (Qabs x == x)%Q) by (apply Qabs_pos, Hx).
    assert (E : (n # 100 == inject_Z n * (1 # 100))%Q).
    { unfold Qeq, inject_Z, Qmult; simpl. lia. }
    rewrite E. apply Qabs_Qle_condition. rewrite Habs in Hlo, Hhi. split; lra.
Qed.

Lemma rounded2_proper x x' y : (x == x')%Q -> rounded2 x y -> rounded2 x' y.
Proof. intros E [Hn Hd]. split; [exact Hn|]. by rewrite <- E. Qed.

(** The count over [Object.values] is the size of the filtered map. *)
Lemma attempted_count (R : gmap string UserResponse) :
  length (List.filter isAttempted (Object_values R)) = size (attemptedRecords R).
Proof.
  unfold Object_values, attemptedRecords.
  induction R as [|k r R Hk IH] using map_ind.
  - by rewrite map_filter_empty, map_to_list_empty, map_size_empty.
  - assert (Hlen : forall l l' : list UserResponse, l ≡ₚ l' ->
              length (List.filter isAttempted l) = length (List.filter isAttempted l')).
    { induction 1 as [|x l l' _ IHl|x y l|l l' l'' _ IH1 _ IH2]; simpl.
      - done.
      - destruct (isAttempted x); simpl; congruence.
      - destruct (isAttempted x), (isAttempted y); simpl; done.
      - congruence. }
    rewrite (Hlen _ _ (fmap_Permutation snd _ _ (map_to_list_insert R k r Hk))).
    rewrite fmap_cons. cbn [List.filter snd]. unfold isAttempted at 1.
    destruct (decide (selectedOption r = Null)) as [E|E].
    + rewrite bool_decide_eq_true_2 by done. cbn [negb].
      rewrite map_filter_insert_not'; [exact IH| simpl; tauto | intros y Hy; congruence].
    + rewrite bool_decide_eq_false_2 by done. cbn [negb length].
      rewrite map_filter_insert_True by done.
      rewrite map_size_insert_None by (by rewrite map_lookup_filter_None; left).
      by rewrite IH.
Qed.

(** The [reduce] over the questions counts those answered correctly. *)
Lemma correct_count (R : gmap string UserResponse) (qs : list Question) (acc : Z) :
  fold_left (fun acc q =>
               match R !! qid q with
               | None => acc
               | Some r =>
                   acc + (if bool_decide (selectedOption r = Chosen (correctAnswer q))
                          then 1 else 0)
               end) qs acc
  = acc + Z.of_nat (length (correctQuestions R qs)).
Proof.
  revert acc. induction qs as [|q qs IH]; intros acc; simpl; [lia|].
  rewrite IH. unfold correctQuestions. rewrite filter_cons.
  destruct (decide (selectsCorrect R q)) as [H|H]; unfold selectsCorrect in H;
    destruct (R !! qid q) as [r|]; simpl in H; try discriminate.
  - rewrite bool_decide_eq_true_2 by congruence. simpl. lia.
  - rewrite bool_decide_eq_false_2 by congruence. lia.
  - lia.
Qed.

(** The two examples of the specification. *)
Example score_18_correct_6_wrong :
  toFixed2 (inject_Z 18 * 1 - inject_Z 6 * (1 / 3)) = 1600 # 100.
Proof. reflexivity. Qed.

Example accuracy_9_of_12 :
  toFixed2 (inject_Z 9 / inject_Z 12 * 100) = 7500 # 100.
Proof. reflexivity. Qed.

(** When every record has the field, the records whose selection is not
    [null] are those that hold a selected option. *)
Lemma attemptedRecords_typed (R : gmap string UserResponse) :
  typedRecords R -> attemptedRecords R = chosenRecords R.
Proof.
  intros Htyped. apply map_filter_ext. intros k r Hr. simpl.
  specialize (Htyped k r Hr). destruct (selectedOption r); simpl; naive_solver.
Qed.

(** On every pair of counts up to 100, the largest test the dashboard
    offers, the double-precision computation of the source and the rational
    model round to the same two decimals.  (They part at 160 attempted
    questions, where [23/160 * 100] is a tie that the doubles miss.) *)
Lemma agree_upto_100 :
  forallb (fun a => forallb (fun c => Double.agree c a) (Double.upto 100)) (Double.upto 100)
  = true.
Proof. vm_compute. reflexivity. Qed.

Lemma upto_elem (n : nat) (z : Z) : 0 <= z <= Z.of_nat n -> In z (Double.upto n).
Proof.
  intros Hz. unfold Double.upto. apply list_elem_of_In, list_elem_of_fmap.
  exists (Z.to_nat z). split; [lia|]. apply list_elem_of_In, in_seq. lia.
Qed.

Lemma scoring_in_doubles (c a : Z) :
  0 <= c <= 100 -> 0 <= a <= 100 ->
  toFixed2 (Double.Q_of_double (Double.score_double c (a - c)))
  = toFixed2 (inject_Z c * 1 - inject_Z (a - c) * (1 / 3))
  /\ (a <> 0 ->
      toFixed2 (Double.Q_of_double (Double.accuracy_double c a))
      = toFixed2 (inject_Z c / inject_Z a * 100)).
Proof.
  intros Hc Ha.
  pose proof agree_upto_100 as H.
  rewrite forallb_forall in H. specialize (H a (upto_elem 100 a Ha)).
  rewrite forallb_forall in H. specialize (H c (upto_elem 100 c Hc)).
  unfold Double.agree in H. apply andb_prop in H as [Hs Hacc].
  apply Z.eqb_eq in Hs. split.
  - unfold toFixed2 in Hs |- *. cbn [Qnum] in Hs. by f_equal.
  - intros Hne. apply orb_prop in Hacc as [E|E]; [apply Z.eqb_eq in E; lia|].
    apply Z.eqb_eq in E. unfold toFixed2 in E |- *. cbn [Qnum] in E. by f_equal.
Qed.

(** C1. The result of [finishTest] on the response map [R] and the loaded
    questions [Q]: [attempted] is the number of records of [R] whose
    selected option is not [null]; [correct] is the number of questions of
    [Q] whose record selects their correct option; [wrong] is
    [attempted - correct]; [score] is [correct - wrong/3] rounded to two
    decimals; [accuracy] is 0 when nothing was attempted and otherwise
    [100 * correct / attempted] rounded to two decimals.  The records
    counted as attempted are those that hold a selected option, provided no
    record lacks the field. *)
Theorem finishTest_scoring (now : string) (s : Session) :
  let res := finishTest now s in
  attempted res = Z.of_nat (size (attemptedRecords (responses s)))
  /\ correct res = Z.of_nat (length (correctQuestions (responses s) (questions s)))
  /\ wrong res = attempted res - correct res
  /\ rounded2 (inject_Z (correct res) - inject_Z (wrong res) / 3) (score res)
  /\ (attempted res = 0 -> accuracy res = 0%Q)
  /\ (attempted res <> 0 ->
      rounded2 (100 * inject_Z (correct res) / inject_Z (attempted res)) (accuracy res))
  /\ res_totalQuestions res = Z.of_nat (length (questions s))
  /\ res_responses res = responses s
  /\ (typedRecords (responses s) ->
      attempted res = Z.of_nat (size (chosenRecords (responses s)))).
Proof.
  intros res. subst res. unfold finishTest.
  cbn [attempted correct wrong score accuracy res_totalQuestions res_responses].
  rewrite attempted_count, correct_count. rewrite Z.add_0_l.
  split_and!; try reflexivity; [| | |by intros ->%attemptedRecords_typed].
  all: set (a := Z.of_nat (size (attemptedRecords (responses s)))).
  all: set (c := Z.of_nat (length (correctQuestions (responses s) (questions s)))).
  - eapply rounded2_proper; [|apply toFixed2_rounded2]. field.
  - intros ->. reflexivity.
  - intros Hne. destruct (Z.ltb_spec 0 a); [|lia].
    eapply rounded2_proper; [|apply toFixed2_rounded2]. field.
    intros E. apply Hne. unfold Qeq in E. simpl in E. lia.
Qed.

End Scoring.

(** ** Scoring a session whose question list repeats an id *)

Section ScoringBounds.
Import TestInterface Notions.

(** The bounds hold when the questions have pairwise distinct ids and every
    record belongs to a loaded question. *)
Lemma finishTest_bounds (now : string) (s : Session) :
  NoDup (qid <$> questions s) ->
  (forall k, is_Some (responses s !! k) -> k ∈ qid <$> questions s) ->
  let res := finishTest now s in
  attempted res = correct res + wrong res
  /\ 0 <= correct res <= attempted res
  /\ attempted res <= res_totalQuestions res.
Proof.
  intros Hnd Hdom res. subst res. unfold finishTest.
  cbn [attempted correct wrong res_totalQuestions].
  rewrite attempted_count, correct_count, Z.add_0_l.
  set (R := responses s) in *. set (qs := questions s) in *.
  assert (H1 : (length (correctQuestions R qs) <= size (attemptedRecords R))%nat).
  { rewrite <- (length_fmap qid), <- length_map_to_list, <- (length_fmap fst).
    apply submseteq_length, NoDup_submseteq.
    - unfold correctQuestions.
      eapply sublist_NoDup; [exact Hnd|apply fmap_sublist, sublist_filter].
    - intros k Hk. apply list_elem_of_fmap in Hk as (q & -> & Hq).
      apply list_elem_of_filter in Hq as [Hsel _]. unfold selectsCorrect in Hsel.
      destruct (R !! qid q) as [r|] eqn:Hr; [|discriminate]. simpl in Hsel.
      apply list_elem_of_fmap. exists (qid q, r). split; [done|].
      apply elem_of_map_to_list. unfold attemptedRecords.
      apply map_lookup_filter_Some. split; [done|]. simpl. congruence. }
  assert (H2 : (size (attemptedRecords R) <= length qs)%nat).
  { etrans; [apply map_size_filter|].
    rewrite <- (length_fmap qid qs), <- length_map_to_list, <- (length_fmap fst).
    apply submseteq_length, NoDup_submseteq; [apply NoDup_fst_map_to_list|].
    intros k Hk. apply list_elem_of_fmap in Hk as ([k' r] & -> & Hkr).
    apply elem_of_map_to_list in Hkr. apply Hdom. by exists r. }
  lia.
Qed.

(** C6, at the full mock test started from the fallback bank.  The nine
    loaded questions are three copies of the fallback questions; once the
    first one is answered correctly, one record is attempted and three
    questions count as correct. *)
Theorem finishTest_duplicate_ids :
  (qid <$> questions Samples.fallbackSession
   = ["fb-1"; "fb-2"; "fb-3"; "fb-1"; "fb-2"; "fb-3"; "fb-1"; "fb-2"; "fb-3"])
  /\ exists s, handleOptionSelect 3 Samples.fallbackSession = Some s
     /\ let res := finishTest "" s in
        attempted res = 1 /\ correct res = 3 /\ wrong res = -2
        /\ res_totalQuestions res = 9
        /\ ~ (correct res <= attempted res).
Proof.
  split; [by vm_compute|].
  eexists. split; [reflexivity|].
  vm_compute. repeat split; try reflexivity. intros H. apply H. reflexivity.
Qed.

End ScoringBounds.

(** ** The countdown *)

Section Timer.
Import TestInterface.

(** A tick of a running session takes one second off the remaining time
    and adds one to the time counter of the current question. *)
Lemma tick_effect (s : Session) (q : Question) :
  questions s !! currentQuestionIndex s = Some q ->
  timeLeft (tick s) = timeLeft s - 1
  /\ (responses (tick s) !! qid q ≫= timeSpentSeconds
      = Some (default 0 (responses s !! qid q ≫= timeSpentSeconds) + 1))
  /\ (forall k, k <> qid q -> responses (tick s) !! k = responses s !! k).
Proof.
  intros Hq. unfold tick. rewrite Hq. simpl. split; [reflexivity|]. split.
  - by rewrite lookup_insert_eq.
  - intros k Hk. by rewrite lookup_insert_ne.
Qed.

Lemma timerEffect_running (s : Session) :
  isPaused s = false -> 0 < timeLeft s -> timerEffect s = Ticking.
Proof.
  intros Hp Ht. unfold timerEffect. rewrite Hp. simpl.
  destruct (Z.leb_spec (timeLeft s) 0); [lia|reflexivity].
Qed.

(** C3, the forced submission.  The effect returns at its first guard
    whenever the remaining time is zero or less, so its second guard never
    holds: no state of the session makes the timer submit.  In the session
    with one second left, the tick brings the time to zero, no result is
    handed over, and the session stays as it is from then on. *)
Theorem timer_never_submits :
  (forall s, timerEffect s <> ForcedSubmit)
  /\ (forall now s, (second now s).2 = None)
  /\ (let s1 := (second "" Samples.lastSecond).1 in
      timerEffect Samples.lastSecond = Ticking
      /\ timeLeft s1 = 0
      /\ (second "" Samples.lastSecond).2 = None
      /\ second "" s1 = (s1, None)).
Proof.
  assert (H : forall s, timerEffect s <> ForcedSubmit).
  { intros s. unfold timerEffect.
    destruct (isPaused s); simpl; [discriminate|].
    destruct (timeLeft s <=? 0); discriminate. }
  split; [exact H|]. split.
  - intros now s. unfold second. specialize (H s). by destruct (timerEffect s).
  - by vm_compute.
Qed.

End Timer.

(** ** Restoring a saved session *)

Section Restore.
Import App Notions.

Variable JSON_parse : string -> option Snapshot.
Variable StringToNumber : string -> option Z.

Lemma within24h_fresh (now : Z) (snap : Snapshot) :
  within24h StringToNumber now snap = true <-> fresh StringToNumber now snap.
Proof.
  unfold within24h, fresh. destruct (ToNumber StringToNumber (timestamp snap)) as [ts|].
  - rewrite Z.ltb_lt. split; [by exists ts|]. by intros (ts' & [= <-] & H).
  - split; [done|]. by intros (ts' & [=] & _).
Qed.

Lemma restoreSession_nonempty (now : Z) (saved : string) :
  saved <> "" ->
  restoreSession JSON_parse StringToNumber now (Some saved)
  = match JSON_parse saved with
    | Some parsed =>
        if within24h StringToNumber now parsed
        then mkRestored (Some parsed) (Some saved)
        else mkRestored None None
    | None => mkRestored None None
    end.
Proof.
  intros Hne. unfold restoreSession.
  destruct (String.eqb_spec saved ""); [done|reflexivity].
Qed.

Local Ltac restore_trivial := intros; simplify_eq/=; done.

(** The session restore of the mount effect.  A stored string that is not
    empty is put into the [savedSession] state exactly when it parses to a
    value whose timestamp converts to a number less than 24 hours before
    now, and then it stays in storage; otherwise (24 hours old or older, a
    timestamp that converts to [NaN], or unparsable) it is deleted.  An
    empty stored string is skipped by the guard on the stored value, and
    with nothing stored nothing happens. *)
Lemma restoreSession_rule (now : Z) (stored : option string) :
  let r := restoreSession JSON_parse StringToNumber now stored in
  (is_Some (savedSession r)
   <-> exists saved snap,
         stored = Some saved /\ saved <> "" /\ JSON_parse saved = Some snap
         /\ fresh StringToNumber now snap)
  /\ (forall snap, savedSession r = Some snap ->
        storedAfter r = stored
        /\ exists saved, stored = Some saved /\ JSON_parse saved = Some snap)
  /\ (forall saved, stored = Some saved -> saved <> "" ->
        savedSession r = None -> storedAfter r = None)
  /\ (stored = Some "" -> savedSession r = None /\ storedAfter r = Some "")
  /\ (stored = None -> savedSession r = None /\ storedAfter r = None).
Proof.
  intros r. subst r.
  assert (Hno : forall P : Prop, ~ P -> (is_Some (@None Snapshot) <-> P)).
  { intros P HP. split; [by intros [? [=]]|done]. }
  destruct stored as [saved|].
  2:{ simpl. split_and!; [apply Hno; by intros (? & ? & [=] & _)|restore_trivial..]. }
  destruct (decide (saved = "")) as [->|Hne].
  { simpl. split_and!; [apply Hno; by intros (? & ? & [= <-] & ? & _)|restore_trivial..]. }
  rewrite restoreSession_nonempty by done.
  destruct (JSON_parse saved) as [parsed|] eqn:Hp.
  2:{ simpl. split_and!; [apply Hno|restore_trivial..].
      intros (? & ? & [= <-] & _ & E & _). congruence. }
  destruct (within24h StringToNumber now parsed) eqn:Hw; simpl.
  - apply within24h_fresh in Hw.
    split_and!; [|intros snap [= <-]; eauto|restore_trivial..].
    split; [|by eexists]. intros _. exists saved, parsed. split_and!; eauto.
  - split_and!; [apply Hno|restore_trivial..].
    intros (? & ? & [= <-] & _ & E & Hfresh).
    rewrite Hp in E. injection E as <-.
    apply within24h_fresh in Hfresh. congruence.
Qed.

(** A timestamp that is a numeric string is converted by the subtraction,
    so such a snapshot is kept like one with a number. *)
Lemma restoreSession_string_timestamp (now ts : Z) (saved text : string)
    (snap : Snapshot) :
  saved <> "" -> JSON_parse saved = Some snap ->
  timestamp snap = JsString text -> StringToNumber text = Some ts ->
  now - ts < DAY_MS ->
  restoreSession JSON_parse StringToNumber now (Some saved)
  = mkRestored (Some snap) (Some saved).
Proof.
  intros Hne Hp Hts Hnum Hlt. rewrite restoreSession_nonempty, Hp by done.
  unfold within24h. rewrite Hts. simpl. rewrite Hnum.
  by replace (now - ts <? DAY_MS) with true by (symmetry; by apply Z.ltb_lt).
Qed.

End Restore.

(** ** The provider adapter: how many questions come back *)

Section AdapterLength.
Import Js Gemini Notions.

Variable JSON_parse : jsstring -> option (list Question).
Variable apiKey : option string.
Variable provider : Prompt -> Outcome.
Variable genId : nat -> string.

Lemma handleResponse_parsedData (batchSize : Z) (o : Outcome) :
  handleResponse JSON_parse genId batchSize o
  = match parsedData JSON_parse o with
    | Some data => stamped genId data
    | None => fallbackBatch batchSize
    end.
Proof.
  unfold handleResponse, parsedData. destruct o as [|text]; [reflexivity|].
  destruct (extractJson (default [] text)) as [js|]; simpl; [|reflexivity].
  by destruct (JSON_parse js).
Qed.

Lemma slice0_prefix {A} (e : Z) (l : list A) : slice0 e l `prefix_of` l.
Proof. unfold slice0. apply prefix_take. Qed.

Lemma slice0_length {A} (e : Z) (l : list A) :
  0 <= e -> Z.of_nat (length (slice0 e l)) = Z.min e (Z.of_nat (length l)).
Proof.
  intros He. unfold slice0. destruct (Z.ltb_spec e 0); [lia|].
  rewrite length_take. lia.
Qed.

Lemma fallbackBatch_all (batchSize : Z) :
  3 <= batchSize -> fallbackBatch batchSize = FALLBACK_QUESTIONS.
Proof.
  intros H. unfold fallbackBatch, slice0, safeBatchSize.
  destruct (Z.ltb_spec (Z.min batchSize 5) 0); [lia|].
  apply take_ge. simpl. lia.
Qed.

(** C4, as the code has it.  The provider is asked for [min(batchSize, 5)]
    questions, so for at most 5.  Without a key the three fallback
    questions are returned whatever [batchSize] is.  With a key, when the
    call fails or no array can be parsed, the first [min(batchSize, 5)]
    fallback questions are returned: at most 3, and at most [batchSize] when
    it is not negative; when an array is parsed, one question per element
    is returned, however many the provider sent. *)
Theorem generateQuestions_length (config : TestConfig) (batchSize : Z) :
  let result := generateQuestions JSON_parse apiKey provider genId config batchSize in
  requested (buildPrompt config batchSize) = Z.min batchSize 5
  /\ requested (buildPrompt config batchSize) <= 5
  /\ (hasKey apiKey = false -> result = FALLBACK_QUESTIONS)
  /\ (hasKey apiKey = true ->
      match parsedData JSON_parse (provider (buildPrompt config batchSize)) with
      | Some data => result = stamped genId data /\ length result = length data
      | None =>
          result = fallbackBatch batchSize
          /\ (length result <= 3)%nat
          /\ (0 <= batchSize -> Z.of_nat (length result) <= Z.min batchSize 5)
      end).
Proof.
  intros result. subst result. unfold generateQuestions. simpl. split_and!.
  - reflexivity.
  - unfold safeBatchSize. lia.
  - by intros ->.
  - intros ->. simpl. rewrite handleResponse_parsedData.
    destruct (parsedData JSON_parse _) as [data|].
    + split; [reflexivity|]. unfold stamped. by rewrite length_imap.
    + split; [reflexivity|]. split.
      * exact (prefix_length _ _ (slice0_prefix (safeBatchSize batchSize) FALLBACK_QUESTIONS)).
      * intros H. unfold fallbackBatch, safeBatchSize.
        rewrite slice0_length by lia. lia.
Qed.

End AdapterLength.

(** C4 as the specification words it fails without a key: a batch of one is
    asked for and the three fallback questions come back. *)
Lemma batch_bound_as_specified_fails : ~ Notions.batch_bound_as_specified.
Proof.
  intros H.
  destruct (H (fun _ => None) None (fun _ => Gemini.Rejected) (fun _ => "")
              Samples.fullMock 1) as [Hlen _].
  vm_compute in Hlen. by apply Hlen.
Qed.

(** ** The provider adapter: stripping and bracket extraction *)

Section JsStrings.
Import Js Notions.

Implicit Types (pat rep s p q a : jsstring) (c : N).

Lemma startsWith_length pat s :
  startsWith pat s = true -> (length pat <= length s)%nat.
Proof.
  revert s. induction pat as [|x pat IH]; intros [|y s]; simpl; try lia; try discriminate.
  intros [_ H]%andb_prop. apply IH in H. lia.
Qed.

(** A match cannot run into a unit that the pattern does not contain. *)
Lemma startsWith_app_stop pat s c q :
  c ∉ pat -> startsWith pat (s ++ c :: q) = startsWith pat s.
Proof.
  revert s. induction pat as [|x pat IH]; intros s Hc; [by destruct s|].
  apply not_elem_of_cons in Hc as [Hx Hc].
  destruct s as [|y s]; simpl.
  - apply andb_false_iff. left. by apply N.eqb_neq.
  - by rewrite IH.
Qed.

(** A match that starts in a block ending with a unit foreign to the
    pattern lies within the block. *)
Lemma startsWith_within pat a c q :
  c ∉ pat -> startsWith pat ((a ++ [c]) ++ q) = true -> startsWith pat (a ++ [c]) = true.
Proof.
  intros Hc. rewrite <- app_assoc. simpl.
  by rewrite (startsWith_app_stop pat a c q), (startsWith_app_stop pat a c []).
Qed.

Section Replace.

Variables (pat rep : jsstring).

(** The scan copies a block in which the pattern does not occur and whose
    last unit is foreign to the pattern. *)
Lemma replace_from_block a c q :
  c ∉ pat -> occurs pat (a ++ [c]) = false ->
  replace_from pat rep 0 ((a ++ [c]) ++ q) = (a ++ [c]) ++ replace_from pat rep 0 q.
Proof.
  intros Hc. induction a as [|x a IH]; intros Hocc.
  - pose proof (startsWith_app_stop pat [] c q Hc) as E.
    simpl in Hocc. apply orb_false_elim in Hocc as [_ Hnil].
    simpl in E. rewrite Hnil in E. simpl. by rewrite E.
  - change (((x :: a) ++ [c]) ++ q) with (x :: (a ++ [c]) ++ q).
    cbn [replace_from].
    assert (Hs : startsWith pat (x :: (a ++ [c]) ++ q) = false).
    { destruct (startsWith pat (x :: (a ++ [c]) ++ q)) eqn:E; [|done].
      apply (startsWith_within pat (x :: a) c q Hc) in E.
      simpl in Hocc. apply orb_false_elim in Hocc as [E' _].
      simpl in E. congruence. }
    rewrite Hs. simpl. f_equal. apply IH.
    simpl in Hocc. by apply orb_false_elim in Hocc as [_ ?].
Qed.

(** The scan of a text before a unit foreign to the pattern does not see
    what follows that unit. *)
Lemma replace_from_before p c r (k : nat) :
  c ∉ pat -> (k <= length p)%nat ->
  replace_from pat rep k (p ++ c :: r)
  = replace_from pat rep k p ++ replace_from pat rep 0 (c :: r).
Proof.
  intros Hc. revert k. induction p as [|x p IH]; intros k Hk.
  - simpl in Hk. by replace k with 0%nat by lia.
  - change ((x :: p) ++ c :: r) with (x :: p ++ c :: r).
    cbn [replace_from]. destruct k as [|k].
    + change (x :: p ++ c :: r) with ((x :: p) ++ c :: r).
      rewrite (startsWith_app_stop pat (x :: p) c r Hc).
      destruct (startsWith pat (x :: p)) eqn:E.
      * apply startsWith_length in E. simpl in E.
        rewrite IH by lia. by rewrite app_assoc.
      * rewrite IH by lia. reflexivity.
    + simpl in Hk. apply IH. lia.
Qed.

Lemma replaceAll_around p a c c' q :
  c ∉ pat -> c' ∉ pat -> occurs pat (c :: a ++ [c']) = false ->
  replaceAll pat rep (p ++ (c :: a ++ [c']) ++ q)
  = replaceAll pat rep p ++ (c :: a ++ [c']) ++ replaceAll pat rep q.
Proof.
  intros Hc Hc' Hocc. unfold replaceAll.
  change (p ++ (c :: a ++ [c']) ++ q) with (p ++ c :: (a ++ [c']) ++ q).
  rewrite replace_from_before by (done || lia). f_equal.
  exact (replace_from_block (c :: a) c' q Hc' Hocc).
Qed.

End Replace.

(** Replacing by the empty string only deletes units. *)
Lemma replace_from_empty_subset pat k s c :
  c ∈ replace_from pat [] k s -> c ∈ s.
Proof.
  revert k. induction s as [|x s IH]; intros k; [done|].
  cbn [replace_from]. destruct k as [|k].
  - destruct (startsWith pat (x :: s)); simpl.
    + intros H%IH. by right.
    + intros [->|H%IH]%elem_of_cons; [left|by right].
  - intros H%IH. by right.
Qed.

Lemma trimStart_subset s c : c ∈ trimStart s -> c ∈ s.
Proof.
  induction s as [|x s IH]; [done|]. simpl.
  destruct (isWhiteSpace x); [|done]. intros H%IH. by right.
Qed.

Lemma trimStart_app_stop s c r :
  isWhiteSpace c = false -> trimStart (s ++ c :: r) = trimStart s ++ c :: r.
Proof.
  intros Hc. induction s as [|x s IH]; simpl; [by rewrite Hc|].
  by destruct (isWhiteSpace x).
Qed.

Lemma indexOf_app_first c s r :
  c ∉ s -> indexOf c (s ++ c :: r) = Some (length s).
Proof.
  induction s as [|x s IH]; simpl; intros Hc.
  - by rewrite N.eqb_refl.
  - apply not_elem_of_cons in Hc as [Hx Hc].
    destruct (N.eqb_spec x c); [congruence|]. by rewrite IH.
Qed.

Lemma lastIndexOf_None c s : c ∉ s -> lastIndexOf c s = None.
Proof.
  induction s as [|x s IH]; simpl; [done|]. intros [Hx Hc]%not_elem_of_cons.
  rewrite IH by done. destruct (N.eqb_spec x c); [congruence|done].
Qed.

Lemma lastIndexOf_app_last c s r :
  c ∉ r -> lastIndexOf c (s ++ c :: r) = Some (length s).
Proof.
  intros Hc. induction s as [|x s IH]; simpl.
  - by rewrite lastIndexOf_None, N.eqb_refl.
  - by rewrite IH.
Qed.

Lemma substring_middle p a q :
  substring (length p) (length p + length a) (p ++ a ++ q) = a.
Proof.
  unfold substring. rewrite drop_app_length.
  replace (length p + length a - length p)%nat with (length a) by lia.
  by rewrite take_app_length.
Qed.

Lemma trimEnd_subset s c : c ∈ trimEnd s -> c ∈ s.
Proof.
  unfold trimEnd. intros H.
  apply list_elem_of_In, in_rev, list_elem_of_In, trimStart_subset in H.
  by apply list_elem_of_In, in_rev, list_elem_of_In.
Qed.

Lemma trimEnd_app_stop r c s :
  isWhiteSpace c = false -> trimEnd (r ++ c :: s) = r ++ c :: trimEnd s.
Proof.
  intros Hc. unfold trimEnd.
  rewrite rev_app_distr. simpl. rewrite <- app_assoc. simpl.
  rewrite trimStart_app_stop by done.
  rewrite rev_app_distr. simpl. rewrite rev_involutive, <- app_assoc. reflexivity.
Qed.

Lemma startsWith_app_pat pat1 pat2 s :
  startsWith (pat1 ++ pat2) s = true -> startsWith pat1 s = true.
Proof.
  revert s. induction pat1 as [|x pat1 IH]; intros s; [by destruct s|].
  destruct s as [|y s]; simpl; [done|].
  intros [-> H]%andb_prop. simpl. by apply IH.
Qed.

Lemma occurs_app_pat pat1 pat2 s :
  occurs pat1 s = false -> occurs (pat1 ++ pat2) s = false.
Proof.
  induction s as [|x s IH]; simpl.
  - intros H. destruct (startsWith (pat1 ++ pat2) []) eqn:E; [|done].
    apply startsWith_app_pat in E. congruence.
  - intros [H1 H2]%orb_false_elim. rewrite IH by done.
    destruct (startsWith (pat1 ++ pat2) (x :: s)) eqn:E; [|done].
    apply startsWith_app_pat in E. congruence.
Qed.

(** The extraction recovers an array text wrapped in a prefix without an
    opening bracket and a suffix without a closing bracket, provided the
    array text holds no code fence. *)
Lemma extractJson_wrapped prefix body suffix :
  Gemini.openBracket ∉ prefix ->
  Gemini.closeBracket ∉ suffix ->
  occurs Gemini.fence (arrayText body) = false ->
  Gemini.extractJson (prefix ++ arrayText body ++ suffix) = Some (arrayText body).
Proof.
  intros Hp Hs Hocc. unfold Gemini.extractJson, arrayText in *.
  assert (HoccJ : occurs Gemini.fenceJson (Gemini.openBracket :: body ++ [Gemini.closeBracket])
                  = false).
  { change Gemini.fenceJson with (Gemini.fence ++ units "json"). by apply occurs_app_pat. }
  rewrite (replaceAll_around Gemini.fenceJson [] prefix body
             Gemini.openBracket Gemini.closeBracket suffix)
    by (done || by apply (bool_decide_unpack _)).
  set (p1 := replaceAll Gemini.fenceJson [] prefix).
  set (s1 := replaceAll Gemini.fenceJson [] suffix).
  rewrite (replaceAll_around Gemini.fence [] p1 body
             Gemini.openBracket Gemini.closeBracket s1)
    by (done || by apply (bool_decide_unpack _)).
  set (p2 := replaceAll Gemini.fence [] p1).
  set (s2 := replaceAll Gemini.fence [] s1).
  assert (Hp2 : forall c, c ∈ p2 -> c ∈ prefix).
  { intros c H. by do 2 apply replace_from_empty_subset in H. }
  assert (Hs2 : forall c, c ∈ s2 -> c ∈ suffix).
  { intros c H. by do 2 apply replace_from_empty_subset in H. }
  unfold trim.
  change (p2 ++ (Gemini.openBracket :: body ++ [Gemini.closeBracket]) ++ s2)
    with (p2 ++ Gemini.openBracket :: (body ++ [Gemini.closeBracket]) ++ s2).
  rewrite trimStart_app_stop by reflexivity.
  set (p3 := trimStart p2).
  assert (Hp3 : Gemini.openBracket ∉ p3).
  { intros H. apply Hp, Hp2. by apply trimStart_subset. }
  replace (p3 ++ Gemini.openBracket :: (body ++ [Gemini.closeBracket]) ++ s2)
    with ((p3 ++ Gemini.openBracket :: body) ++ Gemini.closeBracket :: s2)
    by (by rewrite <- !app_assoc).
  rewrite trimEnd_app_stop by reflexivity.
  set (s3 := trimEnd s2).
  assert (Hs3 : Gemini.closeBracket ∉ s3).
  { intros H. apply Hs, Hs2. by apply trimEnd_subset. }
  rewrite lastIndexOf_app_last by done.
  rewrite <- app_assoc. simpl.
  rewrite indexOf_app_first by done.
  rewrite length_app. simpl.
  destruct (Nat.ltb_spec (length p3) (length p3 + S (length body))); [|lia].
  f_equal.
  replace (length p3 + S (length body) + 1)%nat
    with (length p3 + length (Gemini.openBracket :: body ++ [Gemini.closeBracket]))%nat
    by (simpl; rewrite length_app; simpl; lia).
  replace (p3 ++ Gemini.openBracket :: body ++ Gemini.closeBracket :: s3)
    with (p3 ++ (Gemini.openBracket :: body ++ [Gemini.closeBracket]) ++ s3)
    by (simpl; by rewrite <- app_assoc).
  apply substring_middle.
Qed.

End JsStrings.

(** ** The provider adapter: malformed output *)

Section AdapterTolerance.
Import Js Gemini Notions.

Variable JSON_parse : jsstring -> option (list Question).
Variable provider : Prompt -> Outcome.
Variable genId : nat -> string.

Lemma hasKey_Some (key : string) : key <> "" -> hasKey (Some key) = true.
Proof. intros H. simpl. by destruct (String.eqb_spec key ""). Qed.

(** C8, as the code has it, with a key configured.  When the provider's
    text is an array text between a prefix without an opening bracket and a
    suffix without a closing bracket, and the array text holds no code
    fence, the extraction yields exactly the array text, and if that parses
    the result is the parsed questions under fresh ids.  When nothing can be
    parsed out of the answer, the result is the first [min(batchSize, 5)]
    fallback questions: a prefix of the fallback set, and the whole set when
    [batchSize] is at least 3. *)
Theorem generateQuestions_tolerant (key : string) (config : TestConfig) (batchSize : Z) :
  key <> "" ->
  let result := generateQuestions JSON_parse (Some key) provider genId config batchSize in
  (forall prefix body suffix,
      provider (buildPrompt config batchSize)
        = Responded (Some (prefix ++ arrayText body ++ suffix)) ->
      openBracket ∉ prefix ->
      closeBracket ∉ suffix ->
      occurs fence (arrayText body) = false ->
      extractJson (prefix ++ arrayText body ++ suffix) = Some (arrayText body)
      /\ forall data, JSON_parse (arrayText body) = Some data -> result = stamped genId data)
  /\ (parsedData JSON_parse (provider (buildPrompt config batchSize)) = None ->
      result = fallbackBatch batchSize
      /\ result `prefix_of` FALLBACK_QUESTIONS
      /\ (3 <= batchSize -> result = FALLBACK_QUESTIONS)).
Proof.
  intros Hkey result. subst result. unfold generateQuestions.
  rewrite (hasKey_Some key Hkey). cbn [negb]. rewrite handleResponse_parsedData. split.
  - intros prefix body suffix Hprov Hp Hs Hocc.
    pose proof (extractJson_wrapped prefix body suffix Hp Hs Hocc) as Hx.
    split; [exact Hx|]. intros data Hdata.
    rewrite Hprov.
    change (parsedData JSON_parse (Responded (Some (prefix ++ arrayText body ++ suffix))))
      with (extractJson (prefix ++ arrayText body ++ suffix) ≫= JSON_parse).
    rewrite Hx. simpl. by rewrite Hdata.
  - intros ->. split; [reflexivity|]. split.
    + apply slice0_prefix.
    + apply fallbackBatch_all.
Qed.

End AdapterTolerance.

Lemma generateQuestions_tolerant_witness :
  "key" <> ""
  /\ Gemini.extractJson Samples.fencedAnswer = Some (Notions.arrayText Samples.generatedBody)
  /\ Gemini.generateQuestions Samples.parseOnly (Some "key")
       (fun _ => Gemini.Responded (Some Samples.fencedAnswer)) Samples.genIds
       Samples.fullMock 5
     = [Gemini.withId "gen-1-a" Samples.generated].
Proof.
  split; [discriminate|].
  destruct (generateQuestions_tolerant Samples.parseOnly
              (fun _ => Gemini.Responded (Some Samples.fencedAnswer)) Samples.genIds
              "key" Samples.fullMock 5 ltac:(discriminate)) as [Hwrap _].
  destruct (Hwrap (Js.units "Here you go: ```json ") Samples.generatedBody
              (Js.units " ``` Good luck!") eq_refl) as [Hx Hres].
  - by apply (bool_decide_unpack _).
  - by apply (bool_decide_unpack _).
  - reflexivity.
  - split; [exact Hx|]. exact (Hres [Samples.generated] eq_refl).
Defined.

(** C8 as the specification words it fails twice: prose that holds a
    bracket hides the array, and a failed call for a batch of one gives one
    fallback question, not the fallback set. *)
Lemma malformed_output_as_specified_fails :
  ~ Notions.wrapped_array_recovered /\ ~ Notions.unparsable_gives_fallback.
Proof.
  split.
  - intros H.
    specialize (H Samples.parseOnly "key"
                  (fun _ => Gemini.Responded (Some Samples.bracketedAnswer)) Samples.genIds
                  Samples.fullMock 5 (Js.units "[note] ") Samples.generatedBody []
                  [Samples.generated] ltac:(discriminate) eq_refl eq_refl).
    vm_compute in H. discriminate H.
  - intros H.
    specialize (H Samples.parseOnly "key" (fun _ => Gemini.Rejected) Samples.genIds
                  Samples.fullMock 1 ltac:(discriminate) eq_refl).
    vm_compute in H. discriminate H.
Qed.

(** ** The active question set *)

Section Merge.
Import App Notions.

Implicit Types (prev newQs : list Question).

Lemma mergeQuestions_prefix prev newQs : prev `prefix_of` mergeQuestions prev newQs.
Proof. unfold mergeQuestions. by apply prefix_app_r. Qed.

Lemma mergeQuestions_fresh prev newQs :
  (forall q, q ∈ newQs -> qid q ∉ ids prev) ->
  mergeQuestions prev newQs = prev ++ newQs.
Proof.
  intros Hfresh. unfold mergeQuestions. f_equal.
  induction newQs as [|q newQs IH]; [reflexivity|].
  rewrite filter_cons_True.
  - f_equal. apply IH. intros q' Hq'. apply Hfresh. by right.
  - intros Hin%elem_of_list_to_set. by apply (Hfresh q); [left|].
Qed.

Lemma mergeQuestions_length prev newQs :
  (length (mergeQuestions prev newQs) <= length prev + length newQs)%nat.
Proof.
  unfold mergeQuestions. rewrite length_app.
  pose proof (length_filter (fun q => qid q ∉ (list_to_set (qid <$> prev) : gset string)) newQs).
  lia.
Qed.

(** A merge leaves the number of copies of a present id as it is. *)
Lemma mergeQuestions_copies prev newQs i :
  i ∈ ids prev -> copies i (mergeQuestions prev newQs) = copies i prev.
Proof.
  intros Hi. unfold copies, mergeQuestions. rewrite filter_app, length_app.
  rewrite list_filter_filter.
  assert (E : forall l : list Question,
             filter (fun q => qid q = i /\ qid q ∉ (list_to_set (qid <$> prev) : gset string)) l
             = []).
  { induction l as [|q l IH]; [reflexivity|].
    rewrite filter_cons_False; [exact IH|].
    intros [-> Hnot]. apply Hnot. by apply elem_of_list_to_set. }
  rewrite E. simpl. lia.
Qed.

Lemma mergeQuestions_NoDup prev newQs :
  NoDup (ids prev) -> NoDup (ids newQs) -> NoDup (ids (mergeQuestions prev newQs)).
Proof.
  intros Hprev Hnew. unfold ids, mergeQuestions. rewrite fmap_app.
  apply NoDup_app. split; [done|]. split.
  - intros i Hi Hi'. apply list_elem_of_fmap in Hi' as (q & -> & Hq).
    apply list_elem_of_filter in Hq as [Hnot _]. apply Hnot. by apply elem_of_list_to_set.
  - eapply sublist_NoDup; [exact Hnew|]. apply fmap_sublist, sublist_filter.
Qed.

End Merge.

Section ActiveSet.
Import App Notions.

Variable config : TestConfig.

Lemma loadMoreQuestions_questions (n : nat) (st : Loader) :
  questions (loadMoreQuestions config n st) = questions st.
Proof. unfold loadMoreQuestions. by repeat case_match. Qed.

Lemma step_questions (st st' : Loader) (e : Event) :
  step config st e = Some st' ->
  questions st' = match e with
                  | Resolve newQs => mergeQuestions (questions st) newQs
                  | _ => questions st
                  end.
Proof.
  destruct e as [newQs| | |]; simpl.
  - destruct (inFlight st); [done|]. by intros [= <-].
  - destruct (inFlight st); [done|]. by intros [= <-].
  - destruct (timers st); [done|]. intros [= <-]. unfold timeout.
    by rewrite loadMoreQuestions_questions.
  - intros [= <-]. unfold handleRequestMoreQuestions.
    case_match; [|done]. by rewrite loadMoreQuestions_questions.
Qed.

(** C5, as the code has it.  Every step of the loader keeps the loaded
    questions as a prefix of the new list, and only a merge changes the
    list.  A merge adds no question whose id is present, so the number of
    questions carrying a present id stays the same, and the ids stay
    pairwise distinct when they were distinct before and the ids of the
    batch are distinct.  The length stays within the configured total after
    a merge when the batch is no longer than what was missing; a longer
    batch is not cut. *)
Theorem activeSet_step (st st' : Loader) (e : Event) :
  step config st e = Some st' ->
  questions st `prefix_of` questions st'
  /\ ((forall newQs, e <> Resolve newQs) -> questions st' = questions st)
  /\ (forall newQs, e = Resolve newQs ->
        questions st' = mergeQuestions (questions st) newQs
        /\ (forall i, i ∈ ids (questions st) ->
              copies i (questions st') = copies i (questions st))
        /\ (NoDup (ids (questions st)) -> NoDup (ids newQs) -> NoDup (ids (questions st')))
        /\ (Z.of_nat (length newQs) <= totalQuestions config - Z.of_nat (length (questions st)) ->
            Z.of_nat (length (questions st')) <= totalQuestions config)).
Proof.
  intros Hstep. apply step_questions in Hstep. split_and!.
  - rewrite Hstep. destruct e; try done. apply mergeQuestions_prefix.
  - intros Hne. rewrite Hstep. destruct e as [newQs| | |]; try done.
    by destruct (Hne newQs).
  - intros newQs ->. rewrite Hstep. split_and!.
    + reflexivity.
    + intros i Hi. by apply mergeQuestions_copies.
    + apply mergeQuestions_NoDup.
    + intros Hlen. pose proof (mergeQuestions_length (questions st) newQs). lia.
Qed.

End ActiveSet.

Lemma activeSet_step_witness :
  let st := App.startLoader Samples.customFive Samples.cachedFour in
  let newQs := [Gemini.withId "gen-1-a" Samples.generated] in
  exists st',
    App.step Samples.customFive st (App.Resolve newQs) = Some st'
    /\ App.questions st `prefix_of` App.questions st'
    /\ NoDup (Notions.ids (App.questions st'))
    /\ Z.of_nat (length (App.questions st')) <= 5.
Proof.
  intros st newQs. eexists. split; [reflexivity|].
  destruct (activeSet_step Samples.customFive st _ (App.Resolve newQs) eq_refl)
    as (Hpre & _ & Hmerge).
  destruct (Hmerge newQs eq_refl) as (_ & _ & Hnd & Hlen).
  split; [exact Hpre|]. split.
  - apply Hnd; by apply (bool_decide_unpack _).
  - apply Hlen. by vm_compute.
Defined.

(** C5 as the specification words it fails twice.  A custom test of five
    questions started from four banked ones asks for one more; without a
    key the three fallback questions come back and seven are loaded.  The
    full mock test started from the fallback bank loads the fallback
    questions three times over. *)
Lemma activeSet_as_specified_fails :
  ~ Notions.length_bound_as_specified /\ ~ Notions.distinct_ids_as_specified.
Proof.
  split.
  - intros H.
    specialize (H Samples.customFive Samples.cachedBank []
                  [App.Resolve (Gemini.generateQuestions (fun _ => None) None
                                  (fun _ => Gemini.Rejected) (fun _ => "")
                                  Samples.customFive 1)]
                  _ eq_refl).
    vm_compute in H. by apply H.
  - intros H.
    specialize (H Samples.fullMock Samples.fallbackBank [] [] _ eq_refl).
    revert H. by apply (bool_decide_unpack _).
Qed.

(** ** The loader: single flight, stopping, and the number of requests *)

Section LoaderProtocol.
Import App Notions.

Variable config : TestConfig.

Local Abbreviation total := (totalQuestions config).

Lemma single_flight_start (initialQs : list Question) :
  single_flight config (startLoader config initialQs).
Proof.
  unfold startLoader, loadMoreQuestions. simpl.
  destruct (Z.ltb_spec (Z.of_nat (length initialQs)) total) as [Hlt|Hge].
  - destruct (Z.leb_spec total (Z.of_nat (length initialQs))); [lia|].
    unfold single_flight; simpl. split_and!; [lia|done|by intros n ?%elem_of_nil].
  - unfold single_flight; simpl.
    split_and!; [lia|by intros [?|?]|by intros n ?%elem_of_nil].
Qed.

Lemma single_flight_step (st st' : Loader) (e : Event) :
  single_flight config st -> step config st e = Some st' -> single_flight config st'.
Proof.
  intros (Hone & Hlatch & Htim) Hstep.
  destruct st as [qs fetching flight tm n]. simpl in *.
  destruct e as [newQs| | |]; simpl in Hstep.
  - destruct flight as [|b flight]; [done|]. injection Hstep as <-.
    destruct flight; [|simpl in Hone; lia]. destruct tm; [|simpl in Hone; lia].
    destruct Hlatch as [-> _]; [by left|].
    unfold resolve, single_flight; simpl.
    destruct (Z.ltb_spec (Z.of_nat (length (mergeQuestions qs newQs))) total); simpl.
    + split_and!; [lia|done|]. by intros k ->%list_elem_of_singleton.
    + split_and!; [lia|by intros [?|?]|by intros k ?%elem_of_nil].
  - destruct flight as [|b flight]; [done|]. injection Hstep as <-.
    destruct flight; [|simpl in Hone; lia]. destruct tm; [|simpl in Hone; lia].
    unfold reject, single_flight; simpl.
    split_and!; [lia|by intros [?|?]|by intros k ?%elem_of_nil].
  - destruct tm as [|k tm]; [done|]. injection Hstep as <-.
    destruct tm; [|simpl in Hone; lia]. destruct flight; [|simpl in Hone; lia].
    destruct Hlatch as [_ Hshort]; [by right|].
    rewrite (Htim k) in * by by left.
    unfold timeout, loadMoreQuestions, single_flight; simpl.
    destruct (Z.leb_spec total (Z.of_nat (length qs))); [lia|]. simpl.
    split_and!; [lia|done|by intros ? ?%elem_of_nil].
  - injection Hstep as <-. unfold handleRequestMoreQuestions, loadMoreQuestions. simpl.
    destruct fetching; simpl; [done|].
    destruct (Z.ltb_spec (Z.of_nat (length qs)) total); [|done].
    destruct (Z.leb_spec total (Z.of_nat (length qs))); [lia|].
    assert (flight = [] /\ tm = []) as [-> ->].
    { destruct flight, tm; try done;
        (destruct Hlatch as [? _]; [eauto|done]). }
    unfold single_flight; simpl. split_and!; [lia|done|by intros ? ?%elem_of_nil].
Qed.

Lemma single_flight_steps (events : list Event) (st st' : Loader) :
  single_flight config st -> steps config st events = Some st' -> single_flight config st'.
Proof.
  revert st. induction events as [|e events IH]; intros st Hinv; simpl.
  - by intros [= <-].
  - destruct (step config st e) as [st1|] eqn:Hstep; [|done]. simpl.
    apply IH. by eapply single_flight_step.
Qed.

(** Once the set has reached the target nothing is pending, and no event
    changes the state. *)
Lemma loader_ceases (st : Loader) :
  single_flight config st ->
  total <= Z.of_nat (length (questions st)) ->
  inFlight st = [] /\ timers st = []
  /\ forall e st', step config st e = Some st' -> st' = st.
Proof.
  intros (_ & Hlatch & _) Hfull.
  assert (inFlight st = [] /\ timers st = []) as [Hf Ht].
  { destruct (inFlight st), (timers st); try done;
      (destruct Hlatch as [_ ?]; [eauto|lia]). }
  split_and!; [done..|].
  intros e st'. destruct e; simpl; rewrite ?Hf, ?Ht; try done.
  intros [= <-]. unfold handleRequestMoreQuestions.
  destruct (Z.ltb_spec (Z.of_nat (length (questions st))) total); [lia|].
  by rewrite andb_false_r.
Qed.

Lemma run_quiet (fuel : nat) (answers : list (list Question)) (st : Loader) :
  inFlight st = [] -> timers st = [] -> run config fuel answers st = (st, answers).
Proof. intros Hf Ht. destruct fuel; simpl; [done|]. by rewrite Hf, Ht. Qed.

(** [m + 1] rounds: each answer but the last is merged and followed by a
    timer and a new call; the last one completes the set. *)
Lemma run_rounds (B : nat) (m : nat) :
  forall (prev : list Question) (answers : list (list Question)) (k : nat) (b : Z)
         (more : nat),
    Forall (fun a => length a = B) answers ->
    (m < length answers)%nat ->
    freshBatches prev answers ->
    Z.of_nat m * Z.of_nat B < total - Z.of_nat (length prev) <= (Z.of_nat m + 1) * Z.of_nat B ->
    run config (S (2 * m) + more) answers (mkLoader prev true [b] [] k)
    = (mkLoader (prev ++ concat (take (S m) answers)) true [] [] (k + m),
       drop (S m) answers).
Proof.
  induction m as [|m IH]; intros prev answers k b more Hlen Hm Hnd Hrange;
    (destruct answers as [|a rest]; [simpl in Hm; lia|]);
    apply Forall_cons in Hlen as [Ha Hrest];
    destruct Hnd as [Hfresh Hnd];
    (assert (Hmerge : mergeQuestions prev a = prev ++ a);
     [apply mergeQuestions_fresh; by apply Forall_forall|]).
  - simpl. unfold resolve. simpl. rewrite Hmerge, length_app, Ha.
    destruct (Z.ltb_spec (Z.of_nat (length prev + B)) total); [lia|].
    rewrite run_quiet by done. by rewrite app_nil_r, Nat.add_0_r.
  - replace (S (2 * S m) + more)%nat with (S (S (S (2 * m) + more))) by lia.
    cbn [run inFlight timers]. unfold resolve. cbn [questions inFlight timers isFetching issued tail].
    rewrite Hmerge, length_app, Ha.
    destruct (Z.ltb_spec (Z.of_nat (length prev + B)) total); [|lia].
    cbn [app]. unfold timeout, loadMoreQuestions.
    cbn [questions inFlight timers isFetching issued tail app].
    destruct (Z.leb_spec total (Z.of_nat (length prev + B))); [lia|].
    rewrite IH.
    + simpl. rewrite <- app_assoc. do 2 f_equal. lia.
    + done.
    + simpl in Hm. lia.
    + exact Hnd.
    + rewrite length_app, Ha. lia.
Qed.

Lemma ceilDiv_spec (r B : Z) :
  0 < B -> 0 < r -> (ceilDiv r B - 1) * B < r <= ceilDiv r B * B /\ 1 <= ceilDiv r B.
Proof.
  intros HB Hr. unfold ceilDiv.
  pose proof (Z.div_mod (r + B - 1) B ltac:(lia)) as E.
  pose proof (Z.mod_pos_bound (r + B - 1) B HB) as Hmod.
  nia.
Qed.

(** The run from the first questions [initialQs], when every answer holds
    [B] questions and all ids are distinct: the loader makes
    [ceil((total - |initialQs|) / B)] calls and comes to rest. *)
Lemma run_requests (B : nat) (initialQs : list Question) (answers : list (list Question)) :
  (1 <= B)%nat ->
  Z.of_nat (length initialQs) <= total ->
  Forall (fun a => length a = B) answers ->
  freshBatches initialQs answers ->
  let n := Z.to_nat (ceilDiv (total - Z.of_nat (length initialQs)) (Z.of_nat B)) in
  (n <= length answers)%nat ->
  exists fuel final,
    (forall more, run config (fuel + more) answers (startLoader config initialQs)
                  = (final, drop n answers))
    /\ issued final = n
    /\ questions final = initialQs ++ concat (take n answers)
    /\ inFlight final = [] /\ timers final = []
    /\ total <= Z.of_nat (length (questions final)).
Proof.
  intros HB Hinit Hlen Hnd n Hn.
  destruct (decide (Z.of_nat (length initialQs) = total)) as [Heq|Hne].
  - assert (n = 0%nat) as ->.
    { subst n. rewrite Heq, Z.sub_diag. unfold ceilDiv.
      rewrite Z.div_small by lia. reflexivity. }
    exists 0%nat, (mkLoader initialQs false [] [] 0).
    rewrite take_0, drop_0. cbn [concat questions inFlight timers issued].
    rewrite app_nil_r. split_and!; try done; [|lia].
    intros more. unfold startLoader.
    destruct (Z.ltb_spec (Z.of_nat (length initialQs)) total); [lia|].
    by rewrite run_quiet.
  - set (r := total - Z.of_nat (length initialQs)) in *.
    destruct (ceilDiv_spec r (Z.of_nat B)) as [Hrange Hpos]; [lia..|].
    set (m := (n - 1)%nat).
    assert (Hnm : n = S m) by lia.
    exists (S (2 * m)), (mkLoader (initialQs ++ concat (take n answers)) true [] [] n).
    assert (Hrun : forall more,
               run config (S (2 * m) + more) answers (startLoader config initialQs)
               = (mkLoader (initialQs ++ concat (take n answers)) true [] [] n,
                  drop n answers)).
    { intros more. unfold startLoader, loadMoreQuestions.
      cbn [questions inFlight timers isFetching issued app].
      destruct (Z.ltb_spec (Z.of_nat (length initialQs)) total); [|lia].
      destruct (Z.leb_spec total (Z.of_nat (length initialQs))); [lia|].
      rewrite (run_rounds B m); [by rewrite Hnm| done | lia | done |].
      replace (Z.of_nat m) with (ceilDiv r (Z.of_nat B) - 1) by lia.
      replace (ceilDiv r (Z.of_nat B) - 1 + 1) with (ceilDiv r (Z.of_nat B)) by lia.
      exact Hrange. }
    split_and!; simpl; try done.
    (* the set has reached the target *)
    rewrite length_app.
    assert (Hcat : length (concat (take n answers)) = (n * B)%nat).
    { clear -Hlen Hn. revert answers Hlen Hn.
      induction n as [|n IH]; intros answers Hlen Hn; [by rewrite take_0|].
      destruct answers as [|a rest]; [simpl in Hn; lia|].
      apply Forall_cons in Hlen as [Ha Hrest]. simpl.
      rewrite length_app, Ha, IH; [lia|done|simpl in Hn; lia]. }
    rewrite Hcat. nia.
Qed.

Lemma session_single_flight (bank : Subject -> list Question) (events : list Event)
    (s : Session) :
  sessionSteps config (startSession config bank) events = Some s ->
  match s with
  | AwaitingFirstBatch => True
  | Loading st => single_flight config st
  end.
Proof.
  assert (Hstart : match startSession config bank with
                   | AwaitingFirstBatch => True
                   | Loading st => single_flight config st
                   end).
  { unfold startSession. destruct (0 <? length _)%nat; [apply single_flight_start|done]. }
  revert Hstart. generalize (startSession config bank). intros s0. revert s0.
  induction events as [|e events IH]; intros s0 Hinv; simpl.
  - by intros [= <-].
  - destruct (sessionStep config s0 e) as [s1|] eqn:Hstep; [|done]. simpl.
    apply IH. destruct s0 as [|st0]; simpl in Hstep.
    + destruct e; try done. injection Hstep as <-. apply single_flight_start.
    + destruct (step config st0 e) as [st1|] eqn:Hst; [|done].
      injection Hstep as <-. by eapply single_flight_step.
Qed.

(** A round that brings nothing new: when every question of the answer
    collides with a loaded one, the set stays as it is and the next call is
    issued all the same. *)
Lemma loader_round_without_progress (prev newQs : list Question) (b : Z) (k : nat) :
  Z.of_nat (length prev) < total ->
  (forall q, q ∈ newQs -> qid q ∈ ids prev) ->
  steps config (mkLoader prev true [b] [] k) [Resolve newQs; Timeout]
  = Some (mkLoader prev true [Z.min (total - Z.of_nat (length prev)) 5] [] (S k)).
Proof.
  intros Hshort Hold.
  assert (Hmerge : mergeQuestions prev newQs = prev).
  { unfold mergeQuestions. rewrite <- (app_nil_r prev) at 2. f_equal.
    induction newQs as [|q newQs IH]; [reflexivity|].
    rewrite filter_cons_False.
    - apply IH. intros q' Hq'. apply Hold. by right.
    - intros Hnot. apply Hnot, elem_of_list_to_set, Hold. by left. }
  simpl. unfold resolve. simpl. rewrite Hmerge.
  destruct (Z.ltb_spec (Z.of_nat (length prev)) total); [|lia]. simpl.
  unfold timeout, loadMoreQuestions. simpl.
  destruct (Z.leb_spec total (Z.of_nat (length prev))); [lia|]. reflexivity.
Qed.

(** The first session of an application, started while the latch is clear
    and no call or timer is pending.  Over every state it reaches by the
    completion of calls, the firing of timers and requests of the test
    screen: at most one call of [loadMoreQuestions] is in flight; while the
    loader runs, a call in flight excludes a pending timer and has the latch
    set; once the loaded count has reached the target nothing is pending and
    no event issues a call or changes the state.  In a run where every batch
    holds [B >= 1] questions with ids that are new, the loader started on
    the empty set makes exactly [ceil(target / B)] calls and stops; started
    on first questions it makes [ceil((target - loaded) / B)] calls. *)
Lemma first_session_single_flight_and_count :
  (forall bank events s,
      sessionSteps config (startSession config bank) events = Some s ->
      (callsInFlight s <= 1)%nat
      /\ forall st, s = Loading st ->
           (length (inFlight st) + length (timers st) <= 1)%nat
           /\ (inFlight st <> [] -> isFetching st = true)
           /\ (total <= Z.of_nat (length (questions st)) ->
               inFlight st = [] /\ timers st = []
               /\ forall e st', step config st e = Some st' -> st' = st))
  /\ (forall (B : nat) initialQs answers,
      (1 <= B)%nat ->
      Z.of_nat (length initialQs) <= total ->
      Forall (fun a => length a = B) answers ->
      freshBatches initialQs answers ->
      let n := Z.to_nat (ceilDiv (total - Z.of_nat (length initialQs)) (Z.of_nat B)) in
      (n <= length answers)%nat ->
      exists fuel final,
        (forall more, run config (fuel + more) answers (startLoader config initialQs)
                      = (final, drop n answers))
        /\ issued final = n
        /\ (initialQs = [] -> Z.of_nat (issued final) = ceilDiv total (Z.of_nat B))
        /\ questions final = initialQs ++ concat (take n answers)
        /\ inFlight final = [] /\ timers final = []
        /\ total <= Z.of_nat (length (questions final))).
Proof.
  split.
  - intros bank events s Hsteps.
    pose proof (session_single_flight bank events s Hsteps) as Hinv.
    destruct s as [|st]; simpl.
    + split; [lia|]. by intros st [=].
    + pose proof Hinv as (Hone & Hlatch & _). split; [lia|].
      intros ? [= <-]. split_and!; [lia| |by apply loader_ceases].
      intros Hne. by destruct Hlatch as [? _]; [left|].
  - intros B initialQs answers HB Hinit Hlen Hnd n Hn.
    destruct (run_requests B initialQs answers HB Hinit Hlen Hnd Hn)
      as (fuel & final & Hrun & Hiss & Hqs & Hf & Ht & Hfull).
    exists fuel, final. split_and!; try done.
    intros ->. rewrite Hiss. subst n. simpl in *. rewrite Z.sub_0_r.
    rewrite Z2Nat.id; [done|]. unfold ceilDiv. apply Z.div_pos; lia.
Qed.

End LoaderProtocol.

Lemma first_session_single_flight_and_count_example :
  exists fuel final,
    App.run Samples.customFive fuel Samples.pairs (App.startLoader Samples.customFive [])
      = (final, [])
    /\ App.issued final = 3%nat
    /\ Notions.ceilDiv 5 2 = 3
    /\ App.inFlight final = [] /\ App.timers final = [].
Proof.
  destruct (proj2 (first_session_single_flight_and_count Samples.customFive) 2%nat [] Samples.pairs)
    as (fuel & final & Hrun & Hiss & _ & _ & Hf & Ht & _).
  - lia.
  - simpl. lia.
  - repeat constructor.
  - simpl. split_and!; try done; by apply (bool_decide_unpack _).
  - vm_compute. lia.
  - exists (fuel + 0)%nat, final. split; [exact (Hrun 0%nat)|].
    split; [exact Hiss|]. split; [reflexivity|]. split; [exact Hf|exact Ht].
Defined.

(** ** The latch after the first session *)

Section LatchAcrossSessions.
Import App Bank Notions.

(** In an application whose latch is set while nothing is pending, a test
    that is started changes the question set and nothing else, and no event
    changes the loader after that. *)
Lemma latched_start (st : Loader) (config : TestConfig) (initialQs : list Question) :
  isFetching st = true -> inFlight st = [] -> timers st = [] ->
  startOn st config initialQs = mkLoader initialQs true [] [] (issued st).
Proof.
  intros Hf Hi Ht. unfold startOn, loadMoreQuestions.
  cbn [isFetching inFlight timers issued]. rewrite Hf, Hi, Ht.
  destruct (_ <? _); [|done]. by destruct (_ <=? _).
Qed.

Lemma latched_steps (config : TestConfig) (qs : list Question) (n : nat)
    (events : list Event) (st : Loader) :
  steps config (mkLoader qs true [] [] n) events = Some st ->
  st = mkLoader qs true [] [] n.
Proof.
  induction events as [|e events IH]; simpl.
  - by intros [= <-].
  - destruct e; simpl; done.
Qed.

Lemma latched_run (config : TestConfig) (qs : list Question) (n fuel : nat)
    (answers : list (list Question)) :
  run config fuel answers (mkLoader qs true [] [] n) = (mkLoader qs true [] [] n, answers).
Proof. by apply run_quiet. Qed.

(** C2, the latch across sessions.  The latch belongs to the application
    and nothing clears it when the question set is complete.  The custom
    test of ten questions on a topic, taken with batches of five fresh
    questions: the first batch is awaited, the loader issues one call, the
    set is complete after [ceil(10 / 5) = 2] requests, and the latch is left
    set with nothing pending.  From then on a test that is started, whatever
    its configuration and first questions, keeps those first questions
    through any events: no call is issued for it.  The same test taken
    again starts with five of its ten questions, one more request is due,
    and none is made. *)
Theorem latch_outlives_session :
  let config := Samples.topicTen in
  forall bank : Subject -> list Question,
  exists first : Loader,
    sessionSteps config (startSession config bank)
      [Resolve (Samples.fiveFresh "1"); Resolve (Samples.fiveFresh "2")]
    = Some (Loading first)
    /\ Z.of_nat (length (questions first)) = totalQuestions config
    /\ Z.of_nat (S (issued first)) = ceilDiv (totalQuestions config) 5
    /\ isFetching first = true /\ inFlight first = [] /\ timers first = []
    /\ (forall (config' : TestConfig) (initialQs : list Question)
               (events : list Event) (st : Loader),
          steps config' (startOn first config' initialQs) events = Some st ->
          questions st = initialQs /\ issued st = issued first
          /\ inFlight st = [] /\ timers st = [])
    /\ (let second := startOn first config (Samples.fiveFresh "3") in
        Z.of_nat (length (questions second)) = 5
        /\ ceilDiv (totalQuestions config - 5) 5 = 1
        /\ issued second = issued first
        /\ forall fuel answers, run config fuel answers second = (second, answers)).
Proof.
  intros config bank.
  assert (Hstart : startSession config bank = AwaitingFirstBatch) by reflexivity.
  rewrite Hstart.
  exists (mkLoader (Samples.fiveFresh "1" ++ Samples.fiveFresh "2") true [] [] 1).
  split; [by vm_compute|].
  cbn [questions isFetching inFlight timers issued].
  split; [done|]. split; [done|]. split; [done|]. split; [done|]. split; [done|].
  split.
  - intros config' initialQs events st.
    rewrite latched_start by done. by intros ->%latched_steps.
  - rewrite latched_start by done.
    split; [done|]. split; [done|]. split; [done|].
    intros fuel answers. apply latched_run.
Qed.

End LatchAcrossSessions.

(* ===================================================================== *)
(** * Part III. The mounted test screen                                  *)
(* ===================================================================== *)

(** ** What every reachable session satisfies

    The sessions of [Screen.acts] take every second of the clock on the
    current question array.  The timer callback of the component holds the
    array of the render that armed it; [Screen.actsTimed] keeps that array
    beside the session.  [timed_sessions_reached] below shows that the
    second model reaches no session that the first does not reach, so what
    holds of every session reached by [acts] holds of the screens of
    both. *)

Section Sessions.
Import TestInterface Screen SessionNotions.

Lemma sum_perm (l l' : list UserResponse) :
  l ≡ₚ l' ->
  foldr (fun r acc => timeSpent r + acc) 0 l = foldr (fun r acc => timeSpent r + acc) 0 l'.
Proof. induction 1; simpl; lia. Qed.

Lemma totalTimeSpent_insert R k r' :
  totalTimeSpent (<[k := r']> R)
  = totalTimeSpent R - default 0 (timeSpent <$> R !! k) + timeSpent r'.
Proof.
  unfold totalTimeSpent, Object_values.
  destruct (R !! k) as [r|] eqn:Hk; simpl.
  - rewrite <- (insert_delete_eq R k r') .
    rewrite (sum_perm _ ((k, r') :: map_to_list (delete k R)).*2).
    2:{ apply fmap_Permutation, map_to_list_insert, lookup_delete_eq. }
    rewrite (sum_perm (map_to_list R).*2 ((k, r) :: map_to_list (delete k R)).*2).
    2:{ apply fmap_Permutation. symmetry. by apply map_to_list_delete. }
    rewrite !fmap_cons. cbn [foldr snd]. lia.
  - rewrite (sum_perm _ ((k, r') :: map_to_list R).*2).
    2:{ apply fmap_Permutation, map_to_list_insert, Hk. }
    rewrite !fmap_cons. cbn [foldr snd default from_option fmap option_fmap option_map]. lia.
Qed.

Lemma wellFormed_parts s :
  wellFormed s <->
  covered (questions s) (responses s)
  /\ sound (responses s) (durationMinutes s * 60 - timeLeft s)
  /\ 0 <= timeLeft s <= durationMinutes s * 60
  /\ (currentQuestionIndex s = O
      \/ Z.of_nat (currentQuestionIndex s) < totalQuestionsConfig s).
Proof. unfold wellFormed, covered, sound. tauto. Qed.

Lemma covered_insert qs R k r' :
  covered qs R -> covered qs (<[k := r']> R).
Proof.
  intros H q Hq. apply lookup_insert_is_Some'. right. by apply H.
Qed.

Lemma sound_insert R T T' k r r' :
  sound R T -> R !! k = Some r -> completeRecord k r' ->
  T + (timeSpent r' - timeSpent r) <= T' ->
  sound (<[k := r']> R) T'.
Proof.
  intros [Hc Ht] Hk Hr' Hd. split.
  - intros k' r0. destruct (decide (k' = k)) as [->|Hne].
    + rewrite lookup_insert_eq. congruence.
    + rewrite lookup_insert_ne by done. apply Hc.
  - rewrite totalTimeSpent_insert, Hk. simpl. lia.
Qed.

Lemma sound_insert_fresh R T k r' :
  sound R T -> R !! k = None -> completeRecord k r' -> timeSpent r' = 0 ->
  sound (<[k := r']> R) T.
Proof.
  intros [Hc Ht] Hk Hr' Hd. split.
  - intros k' r0. destruct (decide (k' = k)) as [->|Hne].
    + rewrite lookup_insert_eq. congruence.
    + rewrite lookup_insert_ne by done. apply Hc.
  - rewrite totalTimeSpent_insert, Hk. simpl. lia.
Qed.

Lemma completeRecord_fresh q : completeRecord (qid q) (freshRecord q).
Proof.
  unfold completeRecord, freshRecord; simpl. split_and!; [done|done| | |by eauto..].
  - exists NotVisited. split; [done|]. simpl. split; [tauto|discriminate].
  - exists 0. split; [done|lia].
Qed.

Lemma syncQuestions_extends qs R k :
  is_Some (R !! k) -> is_Some (syncQuestions qs R !! k).
Proof.
  unfold syncQuestions. revert R.
  induction qs as [|q qs IH]; intros R Hk; simpl; [done|].
  apply IH. destruct (R !! qid q); [done|].
  apply lookup_insert_is_Some'. by right.
Qed.

Lemma syncQuestions_covered qs R : covered qs (syncQuestions qs R).
Proof.
  unfold covered, syncQuestions. revert R.
  induction qs as [|q qs IH]; intros R q' Hq'; simpl.
  - by apply elem_of_nil in Hq'.
  - apply elem_of_cons in Hq' as [->|Hin]; [|by apply IH].
    apply (syncQuestions_extends qs).
    destruct (R !! qid q) eqn:E; [by rewrite E|].
    rewrite lookup_insert_eq. eauto.
Qed.

Lemma syncQuestions_sound qs R T : sound R T -> sound (syncQuestions qs R) T.
Proof.
  unfold syncQuestions. revert R.
  induction qs as [|q qs IH]; intros R HR; simpl; [done|].
  apply IH. destruct (R !! qid q) eqn:E; [done|].
  apply sound_insert_fresh; auto using completeRecord_fresh.
Qed.

Lemma updateStatus_covered qs R k ns mv :
  covered qs R -> covered qs (updateStatus k ns mv R).
Proof.
  intros H. unfold updateStatus. destruct (R !! k); [|done].
  by apply covered_insert.
Qed.

Lemma updateStatus_sound R T k ns mv :
  sound R T ->
  (forall r st, R !! k = Some r -> ns = Some st ->
     (Notions.isChosen (selectedOption r) <-> answeredStatus st = true)) ->
  sound (updateStatus k ns mv R) T.
Proof.
  intros HR Hns. unfold updateStatus. destruct (R !! k) as [r|] eqn:Hk; [|done].
  eapply sound_insert; [done..| |unfold timeSpent; simpl; lia].
  destruct HR as [Hc _]. destruct (Hc k r Hk) as (Hq & Hs & (st & Hst & Hch) & Ht & Hv & Hb).
  unfold completeRecord; simpl. split_and!; auto.
  - destruct mv; simpl.
    + case_bool_decide as Hnv.
      * exists NotAnswered. split; [done|].
        assert (st = NotVisited) as -> by congruence.
        simpl in *. split; [tauto|discriminate].
      * destruct ns as [st'|]; eauto.
    + destruct ns as [st'|]; eauto.
  - destruct mv; eauto.
Qed.


Local Ltac parts := split; [|split; [|split]].

Lemma wellFormed_navigate s index : wellFormed s -> wellFormed (handleNavigate index s).
Proof.
  rewrite !wellFormed_parts. intros (Hcov & Hsnd & Htl & Hidx).
  unfold handleNavigate. destruct (_ && _) eqn:Hrange; [|done].
  apply andb_true_iff in Hrange as [H0 H1].
  apply Z.leb_le in H0. apply Z.ltb_lt in H1.
  destruct (questions s !! Z.to_nat index) as [q|] eqn:Hq; destruct s; simpl in *.
  - parts; [by apply updateStatus_covered| |done|right; lia].
    apply updateStatus_sound; [done|discriminate].
  - parts; [done..|right; lia].
Qed.

Lemma wellFormed_visitedMark rendered s :
  wellFormed s -> wellFormed (visitedMarkEffect rendered s).
Proof.
  rewrite !wellFormed_parts. intros (Hcov & Hsnd & Htl & Hidx).
  unfold visitedMarkEffect. destruct (questions rendered) as [|q0 ?]; [done|].
  case_bool_decide; [|done]. destruct s; simpl in *.
  parts; [by apply updateStatus_covered| |done..].
  apply updateStatus_sound; [done|discriminate].
Qed.

Lemma wellFormed_sync qs s :
  wellFormed s ->
  wellFormed (syncEffect (withQuestions qs s) (withQuestions qs s)).
Proof.
  rewrite !wellFormed_parts. intros (Hcov & Hsnd & Htl & Hidx).
  destruct s; simpl in *.
  parts; [apply syncQuestions_covered|by apply syncQuestions_sound|done..].
Qed.

Lemma wellFormed_receive qs s : wellFormed s -> wellFormed (receive qs s).
Proof.
  intros H. unfold receive. destruct (_ =? _)%nat.
  - by apply wellFormed_sync.
  - by apply wellFormed_visitedMark, wellFormed_sync.
Qed.

Lemma totalTimeSpent_empty : totalTimeSpent ∅ = 0.
Proof. unfold totalTimeSpent, Object_values. by rewrite map_to_list_empty. Qed.

Lemma wellFormed_mount qs d total : 0 <= d -> wellFormed (mount qs d total None).
Proof.
  intros Hd. unfold mount. apply wellFormed_visitedMark.
  apply wellFormed_parts. simpl.
  parts; [apply syncQuestions_covered| |lia|by left].
  apply syncQuestions_sound. split; [by intros k r; rewrite lookup_empty|].
  rewrite totalTimeSpent_empty. lia.
Qed.

Lemma currentId_loaded s qId :
  currentId s = Some qId ->
  exists q, questions s !! currentQuestionIndex s = Some q /\ qid q = qId /\ q ∈ questions s.
Proof.
  unfold currentId. destruct (questions s !! _) as [q|] eqn:Hq; [|done].
  intros [= <-]. exists q. split_and!; [done..|]. by eapply list_elem_of_lookup_2.
Qed.

Lemma wellFormed_current s qId :
  wellFormed s -> currentId s = Some qId ->
  exists r, responses s !! qId = Some r /\ completeRecord qId r.
Proof.
  intros Hwf Hid. apply currentId_loaded in Hid as (q & _ & <- & Hin).
  destruct Hwf as (Hcov & Hc & _). destruct (Hcov q Hin) as [r Hr]. eauto.
Qed.

Lemma wellFormed_act a s s' : wellFormed s -> act a s = Some s' -> wellFormed s'.
Proof.
  intros Hwf. pose proof Hwf as Hparts. apply wellFormed_parts in Hparts.
  destruct Hparts as (Hcov & Hsnd & Htl & Hidx).
  destruct a; simpl.
  - (* Select *)
    unfold handleOptionSelect. destruct (currentId s) as [qId|] eqn:Hid; [|done].
    intros [= <-]. destruct (wellFormed_current s qId Hwf Hid) as (r & Hr & Hq & Hs & Hst & Ht & Hv & Hb).
    apply wellFormed_parts. destruct s; simpl in *. rewrite Hr. simpl.
    parts; [by apply covered_insert| |done..].
    eapply sound_insert; [done..| |unfold timeSpent; simpl; lia].
    unfold completeRecord; simpl. split_and!; [done|done| |done..].
    exists Answered. by split.
  - (* Review *)
    unfold handleMarkForReview. destruct (currentId s) as [qId|] eqn:Hid; [|done].
    destruct (wellFormed_current s qId Hwf Hid) as (r & Hr & Hq & Hs & Hst & Ht & Hv & Hb).
    simpl. rewrite Hr. simpl. intros [= <-].
    apply wellFormed_parts. destruct s; simpl in *.
    parts; [by apply updateStatus_covered| |done..].
    apply updateStatus_sound; [done|].
    intros r0 st Hr0 [= <-]. assert (r0 = r) as -> by congruence.
    case_bool_decide as Hn.
    + rewrite Hn. simpl. split; [tauto|discriminate].
    + destruct (selectedOption r); simpl; try done. 
  - (* Skip *)
    unfold handleSkip. destruct (currentId s) as [qId|] eqn:Hid; [|done].
    destruct (wellFormed_current s qId Hwf Hid) as (r & Hr & Hq & Hs & Hst & Ht & Hv & Hb).
    simpl. intros [= <-].
    match goal with |- wellFormed (if _ then handleNavigate _ ?s1 else _) =>
      assert (wellFormed s1) as Hs1 end.
    { apply wellFormed_parts. destruct s; simpl in *. rewrite Hr. simpl.
      parts; [by apply covered_insert| |done..].
        eapply sound_insert; [done..| |unfold timeSpent; simpl; lia].
      unfold completeRecord; simpl. split_and!; [done|done| |done|by eauto|done].
      exists NotAnswered. split; [done|]. simpl. split; [tauto|discriminate]. }
    destruct (_ <? _); [by apply wellFormed_navigate|done].
  - (* Clear *)
    unfold handleClearResponse. destruct (currentId s) as [qId|] eqn:Hid; [|done].
    intros [= <-]. destruct (wellFormed_current s qId Hwf Hid) as (r & Hr & Hq & Hs & Hst & Ht & Hv & Hb).
    apply wellFormed_parts. destruct s; simpl in *. rewrite Hr. simpl.
    parts; [by apply covered_insert| |done..].
    eapply sound_insert; [done..| |unfold timeSpent; simpl; lia].
    unfold completeRecord; simpl. split_and!; [done|done| |done..].
    exists NotAnswered. split; [done|]. simpl. split; [tauto|discriminate].
  - (* Bookmark *)
    unfold handleBookmark. destruct (currentId s) as [qId|] eqn:Hid; [|done].
    destruct (wellFormed_current s qId Hwf Hid) as (r & Hr & Hq & Hs & Hst & Ht & Hv & Hb).
    simpl. rewrite Hr. simpl. intros [= <-].
    apply wellFormed_parts. destruct s; simpl in *.
    parts; [by apply covered_insert| |done..].
    eapply sound_insert; [done..| |unfold timeSpent; simpl; lia].
    unfold completeRecord; simpl. split_and!; [done..|by eauto].
  - (* Navigate *)
    intros [= <-]. by apply wellFormed_navigate.
  - (* Pause *)
    intros [= <-]. apply wellFormed_parts. by destruct s.
  - (* Resume *)
    intros [= <-]. apply wellFormed_parts. by destruct s.
  - (* Second *)
    intros [= <-]. unfold second, timerEffect.
    destruct (isPaused s || (timeLeft s <=? 0)) eqn:Hidle; [done|].
    apply orb_false_iff in Hidle as [Hp Hpos]. rewrite Hpos. simpl.
    apply Z.leb_gt in Hpos.
    apply wellFormed_parts. unfold tick.
    destruct (questions s !! currentQuestionIndex s) as [q|] eqn:Hq.
    + assert (currentId s = Some (qid q)) as Hid by (unfold currentId; by rewrite Hq).
      destruct (wellFormed_current s _ Hwf Hid) as (r & Hr & Hqi & Hs & Hst & (t & Ht & Ht0) & Hv & Hb).
      destruct s; simpl in *. rewrite Hr. simpl. rewrite Ht. simpl.
      parts; [by apply covered_insert| |lia|done].
        eapply sound_insert; [done..| |unfold timeSpent; simpl; rewrite Ht; simpl; lia].
      unfold completeRecord; simpl. split_and!; [done..| |done|done].
      exists (t + 1). split; [done|lia].
    + destruct s; simpl in *. parts; [done| |lia|done].
      destruct Hsnd as [Hc Hle]. split; [done|lia].
  - (* Receive *)
    intros [= <-]. by apply wellFormed_receive.
Qed.

Lemma wellFormed_acts l s s' : wellFormed s -> acts s l = Some s' -> wellFormed s'.
Proof.
  revert s. induction l as [|a l IH]; intros s Hwf; simpl.
  - by intros [= <-].
  - destruct (act a s) as [s1|] eqn:Ha; [|done]. simpl.
    apply IH. by eapply wellFormed_act.
Qed.

Section Reachable.

Variables (qs : list Question) (d total : Z).
Hypothesis Hd : 0 <= d.

Lemma reachable_wellFormed l s :
  acts (mount qs d total None) l = Some s -> wellFormed s.
Proof. apply wellFormed_acts. by apply wellFormed_mount. Qed.

(** X1. In every state that the test screen reaches from its mount (no
    saved state, a duration that is not negative) through any sequence of
    selections, review marks, skips, clears, bookmarks, navigations, pauses,
    seconds and new question arrays, every loaded question has a response
    record, and every record is complete: it sits under its own question
    id, its selection is [null] or a number, and its status, time counter,
    visited flag and bookmark flag are present, the time being at least 0. *)
Theorem session_records_complete (l : list Action) (s : Session) :
  acts (mount qs d total None) l = Some s ->
  (forall q, q ∈ questions s -> is_Some (responses s !! qid q))
  /\ (forall k r, responses s !! k = Some r -> completeRecord k r)
  /\ Notions.typedRecords (responses s).
Proof.
  intros Hl. destruct (reachable_wellFormed l s Hl) as (Hcov & Hc & _).
  split_and!; [done..|].
  intros k r Hr. by destruct (Hc k r Hr) as (_ & ? & _).
Qed.

(** X2. In every state reached from the mount, the status of a record and
    its selection agree: an option is selected exactly when the status is
    Answered or Answered & Marked.  So the number of attempted questions
    that [finishTest] reports is the number of records the palette shows as
    answered. *)
Theorem status_agrees_with_selection (l : list Action) (s : Session) (now : string) :
  acts (mount qs d total None) l = Some s ->
  (forall k r, responses s !! k = Some r ->
     Notions.isChosen (selectedOption r)
     <-> status r = Some Answered \/ status r = Some AnsweredAndMarked)
  /\ attempted (finishTest now s) = Z.of_nat (size (answeredRecords (responses s))).
Proof.
  intros Hl. destruct (reachable_wellFormed l s Hl) as (_ & Hc & _).
  assert (Hiff : forall k r, responses s !! k = Some r ->
            Notions.isChosen (selectedOption r)
            <-> status r = Some Answered \/ status r = Some AnsweredAndMarked).
  { intros k r Hr. destruct (Hc k r Hr) as (_ & _ & (st & Hst & Hch) & _).
    rewrite Hch, Hst. destruct st; simpl; split; intros H;
      first [done | by left | by right | by destruct H]. }
  split; [done|].
  unfold finishTest. cbn [attempted]. rewrite attempted_count. do 2 f_equal.
  unfold Notions.attemptedRecords, answeredRecords.
  apply map_filter_strong_ext. intros k r. simpl.
  split; intros [H Hr]; (split; [|done]).
  - apply (Hiff k r Hr). destruct (Hc k r Hr) as (_ & Hu & _).
    by destruct (selectedOption r).
  - apply (Hiff k r Hr) in H. by destruct (selectedOption r).
Qed.

(** X3. In every state reached from the mount, an event raises a
    [TypeError] exactly when it is one of the handlers that read
    [questions[currentQuestionIndex].id] (select, review, skip, clear,
    bookmark) and the current question is not loaded yet; navigation,
    pause, resume, the clock and new question arrays never raise. *)
Theorem handlers_raise_only_unloaded (l : list Action) (s : Session) (a : Action) :
  acts (mount qs d total None) l = Some s ->
  act a s = None <-> recordHandler a = true /\ currentId s = None.
Proof.
  intros Hl. pose proof (reachable_wellFormed l s Hl) as Hwf.
  destruct (currentId s) as [qId|] eqn:Hid.
  - destruct (wellFormed_current s qId Hwf Hid) as (r & Hr & _).
    split; [|by intros [_ ?]].
    destruct a; simpl; unfold handleOptionSelect, handleMarkForReview, handleSkip,
      handleClearResponse, handleBookmark; rewrite ?Hid; simpl; rewrite ?Hr; simpl; done.
  - split; [|intros [Ha _]].
    + destruct a; simpl; done.
    + destruct a; simpl in *; try done; unfold handleOptionSelect, handleMarkForReview,
        handleSkip, handleClearResponse, handleBookmark; by rewrite Hid.
Qed.

(** X4. In every state reached from the mount, the remaining time lies
    between 0 and the configured duration, so the time taken that
    [finishTest] reports does too; the seconds counted on the records add up
    to at most the time taken; and the current index is 0 or below the
    configured total. *)
Theorem clock_and_position_bounds (l : list Action) (s : Session) (now : string) :
  acts (mount qs d total None) l = Some s ->
  0 <= timeLeft s <= durationMinutes s * 60
  /\ 0 <= timeTakenSeconds (finishTest now s) <= durationMinutes s * 60
  /\ totalTimeSpent (responses s) <= timeTakenSeconds (finishTest now s)
  /\ (currentQuestionIndex s = O
      \/ Z.of_nat (currentQuestionIndex s) < totalQuestionsConfig s).
Proof.
  intros Hl. destruct (reachable_wellFormed l s Hl) as (_ & _ & Htl & Hidx & Htot).
  unfold finishTest. cbn [timeTakenSeconds]. split_and!; [lia..|done].
Qed.

End Reachable.

Lemma syncQuestions_keeps qs R k r :
  R !! k = Some r -> syncQuestions qs R !! k = Some r.
Proof.
  unfold syncQuestions. revert R.
  induction qs as [|q qs IH]; intros R Hk; simpl; [done|].
  apply IH. destruct (R !! qid q) eqn:E; [done|].
  rewrite lookup_insert_ne; [done|]. intros <-. congruence.
Qed.

Lemma syncQuestions_fresh qs R q :
  q ∈ qs -> R !! qid q = None -> syncQuestions qs R !! qid q = Some (freshRecord q).
Proof.
  revert R. induction qs as [|q' qs IH]; intros R Hin Hnone.
  - by apply elem_of_nil in Hin.
  - change (syncQuestions (q' :: qs) R) with
      (syncQuestions qs (match R !! qid q' with
                         | Some _ => R
                         | None => <[qid q' := freshRecord q']> R
                         end)).
    destruct (decide (qid q = qid q')) as [Heq|Hne].
    + rewrite <- Heq, Hnone. apply syncQuestions_keeps.
      rewrite lookup_insert_eq. unfold freshRecord. by rewrite Heq.
    + apply elem_of_cons in Hin as [->|Hin]; [done|].
      apply IH; [done|]. destruct (R !! qid q'); [done|].
      by rewrite lookup_insert_ne.
Qed.

Lemma visitedMarkEffect_questions rendered s :
  questions (visitedMarkEffect rendered s) = questions s.
Proof.
  unfold visitedMarkEffect. destruct (questions rendered); [done|].
  by case_bool_decide.
Qed.

Lemma mount_questions qs d total sv : questions (mount qs d total sv) = qs.
Proof. unfold mount. by rewrite visitedMarkEffect_questions. Qed.


Lemma finishTest_selections (now now' : string) (s s' : Session) :
  questions s' = questions s ->
  (forall k, selectedOption <$> responses s' !! k = selectedOption <$> responses s !! k) ->
  scoreSheet (finishTest now' s') = scoreSheet (finishTest now s).
Proof.
  intros Hq Hsel.
  assert (Ha : size (Notions.attemptedRecords (responses s'))
               = size (Notions.attemptedRecords (responses s))).
  { unfold Notions.attemptedRecords.
    assert (Hfm : forall R : gmap string UserResponse,
              size (filter (fun kv : string * UserResponse => selectedOption kv.2 <> Null) R)
              = size (filter (fun kv : string * Selection => kv.2 <> Null)
                        (selectedOption <$> R))).
    { intros R. rewrite map_filter_fmap. by rewrite map_size_fmap. }
    rewrite !Hfm. f_equal. f_equal. apply map_eq. intros k.
    rewrite !lookup_fmap. apply Hsel. }
  assert (Hc : Notions.correctQuestions (responses s') (questions s')
               = Notions.correctQuestions (responses s) (questions s)).
  { rewrite Hq. unfold Notions.correctQuestions. apply list_filter_iff.
    intros q. unfold Notions.selectsCorrect. by rewrite Hsel. }
  unfold scoreSheet, finishTest. cbn [attempted correct wrong score accuracy].
  rewrite !attempted_count, !correct_count, Ha, Hc. reflexivity.
Qed.


Lemma updateStatus_lookup_ne k ns mv R k' :
  k' <> k -> updateStatus k ns mv R !! k' = R !! k'.
Proof.
  intros Hne. unfold updateStatus. destruct (R !! k); [|done].
  by rewrite lookup_insert_ne.
Qed.

Lemma insert_selection (R : gmap string UserResponse) k r r' k' :
  R !! k = Some r -> selectedOption r' = selectedOption r ->
  selectedOption <$> <[k := r']> R !! k' = selectedOption <$> R !! k'.
Proof.
  intros Hk Hsel. destruct (decide (k' = k)) as [->|Hne].
  - rewrite lookup_insert_eq, Hk. simpl. by rewrite Hsel.
  - by rewrite lookup_insert_ne.
Qed.

Lemma updateStatus_selection k ns mv R k' :
  selectedOption <$> updateStatus k ns mv R !! k' = selectedOption <$> R !! k'.
Proof.
  unfold updateStatus. destruct (R !! k) as [r|] eqn:Hk; [|done].
  by apply insert_selection with r.
Qed.

Lemma handleNavigate_selection index s k :
  questions (handleNavigate index s) = questions s
  /\ selectedOption <$> responses (handleNavigate index s) !! k
     = selectedOption <$> responses s !! k.
Proof.
  unfold handleNavigate. destruct (_ && _); [|done].
  destruct (questions s !! Z.to_nat index); [|done].
  simpl. split; [done|]. apply updateStatus_selection.
Qed.

(** X6. In every state reached from the mount, a review mark, a
    bookmark, a navigation, a pause, a resume or a second of the clock
    leaves the figures that [finishTest] computes (attempted, correct, wrong,
    score, accuracy) as they were: they depend on the selections only. *)
Theorem scoring_ignores_marks (qs : list Question) (d total : Z) (l : list Action)
    (a : Action) (s s' : Session) (now now' : string) :
  0 <= d ->
  acts (mount qs d total None) l = Some s ->
  marksOnly a = true ->
  act a s = Some s' ->
  scoreSheet (finishTest now' s') = scoreSheet (finishTest now s).
Proof.
  intros Hd Hl Hmarks Ha.
  pose proof (wellFormed_acts l _ s (wellFormed_mount qs d total Hd) Hl) as Hwf.
  apply finishTest_selections.
  - destruct a; try discriminate; simpl in Ha.
    + unfold handleMarkForReview in Ha.
      destruct (currentId s); [|done]. simpl in Ha.
      destruct (responses s !! _); [|done]. by injection Ha as <-.
    + unfold handleBookmark in Ha.
      destruct (currentId s); [|done]. simpl in Ha.
      destruct (responses s !! _); [|done]. by injection Ha as <-.
    + injection Ha as <-. apply (handleNavigate_selection index s "").
    + by injection Ha as <-.
    + by injection Ha as <-.
    + injection Ha as <-. unfold second. destruct (timerEffect s); try done.
      unfold tick. simpl. by destruct (questions s !! _).
  - intros k. destruct a; try discriminate; simpl in Ha.
    + unfold handleMarkForReview in Ha.
      destruct (currentId s); [|done]. simpl in Ha.
      destruct (responses s !! _); [|done]. injection Ha as <-.
      apply updateStatus_selection.
    + unfold handleBookmark in Ha.
      destruct (currentId s) as [qId|]; [|done]. simpl in Ha.
      destruct (responses s !! qId) as [r|] eqn:Hr; [|done]. injection Ha as <-.
      simpl. by apply insert_selection with r.
    + injection Ha as <-. apply handleNavigate_selection.
    + by injection Ha as <-.
    + by injection Ha as <-.
    + injection Ha as <-. unfold second. destruct (timerEffect s); try done.
      unfold tick. simpl. destruct (questions s !! _) as [q|] eqn:Hq; [|done].
      assert (currentId s = Some (qid q)) as Hid by (unfold currentId; by rewrite Hq).
      destruct (wellFormed_current s _ Hwf Hid) as (r & Hr & _).
      simpl. rewrite Hr. simpl. by apply insert_selection with r.
Qed.

(** X7. On the current question the last of the handlers
    [handleOptionSelect] and [handleClearResponse] decides, and the earlier
    one leaves no trace: selecting after selecting, clearing after
    selecting, selecting after clearing and clearing after clearing give
    the very session that the second handler alone gives (and raise when it
    raises). *)
Theorem last_answer_wins (s : Session) (o o' : Z) :
  (handleOptionSelect o s ≫= handleOptionSelect o' = handleOptionSelect o' s)
  /\ (handleOptionSelect o s ≫= handleClearResponse = handleClearResponse s)
  /\ (handleClearResponse s ≫= handleOptionSelect o = handleOptionSelect o s)
  /\ (handleClearResponse s ≫= handleClearResponse = handleClearResponse s).
Proof.
  unfold handleOptionSelect, handleClearResponse.
  destruct (currentId s) as [qId|] eqn:Hid; [|done]. simpl.
  assert (Hcur : forall f, currentId (setResponses f s) = Some qId) by (intros f; exact Hid).
  rewrite !Hcur. simpl. unfold setResponses. simpl.
  rewrite !lookup_insert_eq, !insert_insert_eq. simpl.
  destruct (responses s !! qId); done.
Qed.

(** X8. When the current question is loaded, [handleSkip] succeeds: the
    record of the current question has no selection, the status Not
    Answered and the visited flag; no other record's selection changes; the
    index moves on by one exactly when the next question is loaded and its
    index is below the configured total, and stays otherwise, so that the
    current question is loaded afterwards too. *)
Theorem handleSkip_effect (s : Session) (qId : string) :
  currentId s = Some qId ->
  exists s', handleSkip s = Some s'
    /\ is_Some (currentId s')
    /\ currentQuestionIndex s'
       = (if bool_decide (Z.of_nat (currentQuestionIndex s) + 1 < Z.of_nat (length (questions s))
                          /\ Z.of_nat (currentQuestionIndex s) + 1 < totalQuestionsConfig s)
          then S (currentQuestionIndex s) else currentQuestionIndex s)
    /\ (exists r, responses s' !! qId = Some r
          /\ selectedOption r = Null /\ status r = Some NotAnswered
          /\ visited r = Some true)
    /\ (forall k, k <> qId ->
          selectedOption <$> responses s' !! k = selectedOption <$> responses s !! k).
Proof.
  intros Hid. unfold handleSkip. rewrite Hid. simpl. eexists. split; [done|].
  set (s1 := setResponses _ s).
  pose (rec := mkResponse (questionId (spread (responses s !! qId))) Null (Some NotAnswered)
                 (timeSpentSeconds (spread (responses s !! qId))) (Some true)
                 (isBookmarked (spread (responses s !! qId)))).
  assert (Hr1 : responses s1 !! qId = Some rec) by (subst s1; simpl; by rewrite lookup_insert_eq).
  assert (Hs1 : forall k, k <> qId -> responses s1 !! k = responses s !! k).
  { intros k Hk. subst s1. simpl. by rewrite lookup_insert_ne. }
  destruct (Z.ltb_spec (Z.of_nat (currentQuestionIndex s)) (Z.of_nat (length (questions s)) - 1))
    as [Hlt|Hge].
  - unfold handleNavigate. change (totalQuestionsConfig s1) with (totalQuestionsConfig s).
    change (questions s1) with (questions s).
    replace (Z.to_nat (Z.of_nat (currentQuestionIndex s) + 1)) with (S (currentQuestionIndex s)) by lia.
    destruct (lookup_lt_is_Some_2 (questions s) (S (currentQuestionIndex s))) as [q' Hq']; [lia|].
    rewrite Hq'.
    destruct (Z.ltb_spec (Z.of_nat (currentQuestionIndex s) + 1) (totalQuestionsConfig s)) as [Ht|Ht].
    + replace (0 <=? _) with true by (symmetry; apply Z.leb_le; lia). simpl.
      rewrite bool_decide_eq_true_2 by lia.
      cbn [responses setResponses setCurrentQuestionIndex currentQuestionIndex].
      split_and!.
      * unfold currentId. simpl. rewrite Hq'. by eexists.
      * done.
      * destruct (decide (qid q' = qId)) as [->|Hne].
        -- unfold updateStatus. rewrite lookup_insert_eq. simpl.
           rewrite lookup_insert_eq. eexists. split; [done|]. done.
        -- rewrite updateStatus_lookup_ne by done. exists rec.
           by rewrite lookup_insert_eq.
      * intros k Hk. rewrite updateStatus_selection. by rewrite lookup_insert_ne.
    + rewrite andb_false_r. rewrite bool_decide_eq_false_2 by lia.
      split_and!; [by exists qId|done|by exists rec|].
      intros k Hk. by rewrite Hs1.
  - rewrite bool_decide_eq_false_2 by lia.
    split_and!; [by exists qId|done|by exists rec|].
    intros k Hk. by rewrite Hs1.
Qed.

(** ** The clock *)

Lemma staleTick_current (s : Session) : staleTick (questions s) s = tick s.
Proof. reflexivity. Qed.

Lemma staleTick_frame (a : list Question) (s : Session) :
  timeLeft (staleTick a s) = timeLeft s - 1
  /\ questions (staleTick a s) = questions s
  /\ currentQuestionIndex (staleTick a s) = currentQuestionIndex s
  /\ isPaused (staleTick a s) = isPaused s.
Proof. unfold staleTick. by destruct (a !! _). Qed.

Lemma staleTick_counter (a : list Question) (s : Session) (k : string) :
  counter (staleTick a s) k
  = counter s k
    + (if decide (qid <$> a !! currentQuestionIndex s = Some k) then 1 else 0).
Proof.
  unfold staleTick, counter. destruct (a !! currentQuestionIndex s) as [q|]; simpl.
  - destruct (decide (Some (qid q) = Some k)) as [[= <-]|Hne].
    + rewrite lookup_insert_eq. simpl. done.
    + rewrite lookup_insert_ne by congruence. lia.
  - destruct (decide (None = Some k)) as [?|?]; [done|lia].
Qed.

Lemma secondsTimed_stopped k m :
  isPaused (session m) = true \/ timeLeft (session m) <= 0 -> secondsTimed k m = m.
Proof.
  intros H. induction k as [|k IH]; [done|]. simpl.
  assert (secondTimed m = m) as ->; [|done].
  unfold secondTimed, timerEffect.
  replace (isPaused (session m) || (timeLeft (session m) <=? 0)) with true; [done|].
  symmetry. apply orb_true_iff. destruct H as [->|H]; [by left|right].
  by apply Z.leb_le.
Qed.

Lemma secondTimed_running m :
  isPaused (session m) = false -> 0 < timeLeft (session m) ->
  secondTimed m
  = mkMounted (staleTick (armed m) (session m)) (questions (session m)).
Proof.
  intros Hp Ht. unfold secondTimed. rewrite timerEffect_running by done.
  f_equal. apply staleTick_frame.
Qed.

(** X9. The clock, with the question array the timer holds.  While the
    test is paused, seconds change nothing.  In a running session with
    [timeLeft >= 0], after [k] seconds the remaining time is
    [max 0 (timeLeft - k)]: [n = min k timeLeft] seconds are counted and the
    clock stops at zero; questions, current index and pause flag are as
    before, and the timer then holds the current array.  The first of the
    [n] seconds goes to the question that the array held by the timer has
    at the current index, the other [n - 1] to the current question: so a
    question that was loaded when the timer was armed gets all [n] seconds,
    and one that arrived since gets [n - 1], the first second being counted
    on no question. *)
Theorem clock_counts_down (k : nat) (m : Mounted) :
  let s := session m in
  let m' := secondsTimed k m in
  let s' := session m' in
  (isPaused s = true -> m' = m)
  /\ (isPaused s = false -> 0 <= timeLeft s ->
      let n := Z.min (Z.of_nat k) (timeLeft s) in
      timeLeft s' = Z.max 0 (timeLeft s - Z.of_nat k)
      /\ questions s' = questions s
      /\ currentQuestionIndex s' = currentQuestionIndex s
      /\ isPaused s' = false
      /\ (0 < n -> armed m' = questions s)
      /\ forall id,
           counter s' id
           = counter s id
             + (if decide (qid <$> armed m !! currentQuestionIndex s = Some id)
                then Z.min 1 n else 0)
             + (if decide (currentId s = Some id) then Z.max 0 (n - 1) else 0)).
Proof.
  intros s m' s'. subst s m' s'.
  split; [intros Hp; apply secondsTimed_stopped; by left|].
  revert m. induction k as [|k IH]; intros m Hp Ht n; subst n.
  - simpl. split_and!; [lia|done..|lia|]. intros id.
    replace (Z.min 1 (Z.min 0 _)) with 0 by lia.
    replace (Z.max 0 (Z.min 0 _ - 1)) with 0 by lia.
    repeat destruct (decide _); lia.
  - cbn [secondsTimed]. destruct (Z.le_gt_cases (timeLeft (session m)) 0) as [H0|Hpos].
    + assert (Hsec : secondTimed m = m).
      { apply (secondsTimed_stopped 1). right; lia. }
      rewrite Hsec, secondsTimed_stopped by (right; lia).
      split_and!; [lia|done..|lia|]. intros id.
      replace (Z.min 1 (Z.min _ _)) with 0 by lia.
      replace (Z.max 0 (Z.min _ _ - 1)) with 0 by lia.
      repeat destruct (decide _); lia.
    + rewrite secondTimed_running by (done || lia).
      destruct (staleTick_frame (armed m) (session m)) as (Htl & Hq & Hi & Hpt).
      set (m1 := mkMounted _ _).
      assert (Hs1 : session m1 = staleTick (armed m) (session m)) by done.
      destruct (IH m1) as (H1 & H2 & H3 & H4 & H5 & H6);
        [rewrite Hs1; congruence|rewrite Hs1; lia|].
      rewrite Hs1 in *. rewrite Htl, Hq, Hi in *.
      split_and!; [lia|done..| |].
      * intros _. destruct k as [|k]; [done|].
        destruct (decide (timeLeft (session m) - 1 <= 0)).
        -- rewrite secondsTimed_stopped; [done|]. right. rewrite Hs1. lia.
        -- apply H5. lia.
      * intros id. rewrite H6, staleTick_counter.
        change (armed m1) with (questions (session m)).
        assert (Hcur : currentId (staleTick (armed m) (session m)) = currentId (session m)).
        { unfold currentId. by rewrite Hq, Hi. }
        rewrite Hcur. unfold currentId.
        repeat destruct (decide _); lia.
Qed.


Lemma syncQuestions_none qs R k :
  R !! k = None -> k ∉ qid <$> qs -> syncQuestions qs R !! k = None.
Proof.
  unfold syncQuestions. revert R.
  induction qs as [|q qs IH]; intros R Hk Hnot; simpl; [done|].
  rewrite fmap_cons in Hnot. apply not_elem_of_cons in Hnot as [Hne Hnot].
  apply IH; [|done]. destruct (R !! qid q); [done|].
  by rewrite lookup_insert_ne.
Qed.

Lemma updateStatus_visit k R r :
  R !! k = Some r ->
  updateStatus k None true R !! k
  = Some (withStatus (if bool_decide (status r = Some NotVisited)
                      then Some NotAnswered else status r) (Some true) r).
Proof.
  intros Hk. unfold updateStatus. rewrite Hk. cbn [andb].
  by rewrite lookup_insert_eq.
Qed.

(** The responses of a screen mounted with a saved state. *)
Lemma mount_saved_responses qs d total sv :
  responses (mount qs d total (Some sv))
  = match qs with
    | q0 :: _ =>
        if bool_decide (saved_responses sv !! qid q0 ≫= status = Some NotVisited)
        then updateStatus (qid q0) None true (syncQuestions qs (saved_responses sv))
        else syncQuestions qs (saved_responses sv)
    | [] => saved_responses sv
    end.
Proof.
  unfold mount, visitedMarkEffect. cbn [questions initialSession responses].
  destruct qs as [|q0 rest]; [done|]. by case_bool_decide.
Qed.

(** X10. The snapshot round trip.  What the persistence effect of a
    running session writes at time [t0] is read back by the mount effect of
    the application at time [now], for a [JSON.parse] that reads this
    snapshot back: before 24 hours have passed the very snapshot is put into
    [savedSession] and stays in storage; from 24 hours on nothing is kept
    and the storage key is removed.  A test screen that is handed the
    snapshot as its [savedState] prop (the application itself passes none)
    is mounted with the saved time left, or the full duration if that was
    0, and with the saved records: each is kept as it is, except that the
    record of the first question, if still Not Visited, is marked visited
    and Not Answered; a question without a saved record gets the fresh
    record, and no other record appears. *)
Theorem snapshot_round_trip (JSON_stringify : App.Snapshot -> string)
    (JSON_parse : string -> option App.Snapshot) (StringToNumber : string -> option Z)
    (s : Session) (t0 now : Z) (stored : option string)
    (qs : list Question) (d total : Z) :
  isPaused s = false ->
  JSON_stringify (snapshotOf t0 s) <> "" ->
  JSON_parse (JSON_stringify (snapshotOf t0 s)) = Some (snapshotOf t0 s) ->
  let snap := snapshotOf t0 s in
  let stored' := persist JSON_stringify t0 s stored in
  let restored := App.restoreSession JSON_parse StringToNumber now stored' in
  let resumed :=
    mount qs d total
      (Some (mkSavedState (App.snap_responses snap) (App.snap_timeLeft snap))) in
  (now - t0 < App.DAY_MS ->
     App.savedSession restored = Some snap /\ App.storedAfter restored = stored')
  /\ (App.DAY_MS <= now - t0 ->
     App.savedSession restored = None /\ App.storedAfter restored = None)
  /\ timeLeft resumed = (if timeLeft s =? 0 then d * 60 else timeLeft s)
  /\ questions resumed = qs
  /\ (forall k r, responses s !! k = Some r ->
        responses resumed !! k
        = Some (if bool_decide (head (qid <$> qs) = Some k /\ status r = Some NotVisited)
                then withStatus (Some NotAnswered) (Some true) r else r))
  /\ (forall q, q ∈ qs -> responses s !! qid q = None ->
        responses resumed !! qid q = Some (freshRecord q))
  /\ (forall k, responses s !! k = None -> k ∉ qid <$> qs ->
        responses resumed !! k = None).
Proof.
  intros Hp Hne Hparse snap stored' restored resumed.
  subst restored stored' resumed snap.
  unfold persist. rewrite Hp. unfold App.restoreSession.
  replace (String.eqb (JSON_stringify (snapshotOf t0 s)) "") with false
    by (symmetry; by apply String.eqb_neq).
  rewrite Hparse. unfold App.within24h. cbn [App.timestamp snapshotOf App.ToNumber].
  split; [|split].
  { intros Hfresh. by replace (now - t0 <? App.DAY_MS) with true
      by (symmetry; apply Z.ltb_lt; lia). }
  { intros Hstale. by replace (now - t0 <? App.DAY_MS) with false
      by (symmetry; apply Z.ltb_ge; lia). }
  change (App.snap_responses (snapshotOf t0 s)) with (responses s).
  change (App.snap_timeLeft (snapshotOf t0 s)) with (timeLeft s).
  split; [|split].
  { unfold mount, visitedMarkEffect. cbn [questions initialSession].
    destruct qs as [|q0 rest]; [done|]. by case_bool_decide. }
  { apply mount_questions. }
  rewrite mount_saved_responses. cbn [saved_responses].
  set (R := responses s).
  destruct qs as [|q0 rest].
  { split_and!.
    - intros k r Hr. by rewrite Hr.
    - intros q Hq. by apply elem_of_nil in Hq.
    - done. }
  cbn [head fmap list_fmap].
  split_and!.
  - intros k r Hr. destruct (decide (k = qid q0)) as [->|Hk].
    + rewrite Hr. cbn [mbind option_bind].
      case_bool_decide as Hnv.
      * rewrite (updateStatus_visit _ _ r) by by apply syncQuestions_keeps.
        rewrite bool_decide_eq_true_2 by done.
        by rewrite bool_decide_eq_true_2 by done.
      * rewrite (syncQuestions_keeps _ _ _ _ Hr). f_equal.
        rewrite bool_decide_eq_false_2; [done|]. by intros [_ ?].
    + assert (Hsync : syncQuestions (q0 :: rest) R !! k = Some r)
        by by apply syncQuestions_keeps.
      rewrite (bool_decide_eq_false_2 (_ /\ _)) by (intros [[= ?] _]; congruence).
      case_bool_decide; [|done]. by rewrite updateStatus_lookup_ne.
  - intros q Hq Hnone.
    assert (Hsync : syncQuestions (q0 :: rest) R !! qid q = Some (freshRecord q))
      by by apply syncQuestions_fresh.
    case_bool_decide as Hnv; [|done].
    destruct (decide (qid q = qid q0)) as [Heq|Hk].
    + rewrite <- Heq, Hnone in Hnv. done.
    + by rewrite updateStatus_lookup_ne.
  - intros k Hnone Hnot.
    assert (Hsync : syncQuestions (q0 :: rest) R !! k = None)
      by by apply syncQuestions_none.
    case_bool_decide; [|done].
    rewrite updateStatus_lookup_ne; [done|]. intros ->. apply Hnot. by left.
Qed.


(** ** The timer model and the sessions of [acts] *)

Section TimerSimulation.

(** The updater of the timer callback for the question [k]. *)
Local Abbreviation bump k R :=
  (<[k := withTimeSpent (default 0 (R !! k ≫= timeSpentSeconds) + 1) (spread (R !! k))]> R).

Local Abbreviation bumped r :=
  (withTimeSpent (default 0 (timeSpentSeconds r) + 1) r).

Lemma bump_lookup (R : gmap string UserResponse) k r k' :
  R !! k = Some r ->
  bump k R !! k' = if decide (k' = k) then Some (bumped r) else R !! k'.
Proof.
  intros Hk. rewrite Hk. simpl. destruct (decide (k' = k)) as [->|Hne].
  - by rewrite lookup_insert_eq.
  - by rewrite lookup_insert_ne.
Qed.

(** A record update that leaves the time counter alone. *)
Local Abbreviation keepsTime f :=
  ((forall t r, f (withTimeSpent t r) = withTimeSpent t (f r))
   /\ (forall r, timeSpentSeconds (f r) = timeSpentSeconds r)).

Lemma bump_insert (R : gmap string UserResponse) k q (f : UserResponse -> UserResponse) :
  is_Some (R !! k) -> keepsTime f ->
  <[q := f (spread (bump k R !! q))]> (bump k R)
  = bump k (<[q := f (spread (R !! q))]> R).
Proof.
  intros [r Hk] [Hf Ht]. apply map_eq. intros i.
  destruct (decide (q = k)) as [->|Hqk].
  - rewrite !lookup_insert_eq, Hk. simpl.
    destruct (decide (i = k)) as [->|Hik].
    + rewrite !lookup_insert_eq. f_equal. by rewrite Hf, Ht.
    + by rewrite !lookup_insert_ne.
  - rewrite (lookup_insert_ne _ k q) by done.
    rewrite (lookup_insert_ne R q k) by done. rewrite Hk. simpl.
    destruct (decide (i = k)) as [->|Hik]; [|destruct (decide (i = q)) as [->|Hiq]].
    + rewrite (lookup_insert_ne _ q k) by done. by rewrite !lookup_insert_eq.
    + rewrite lookup_insert_eq. rewrite (lookup_insert_ne _ k q) by done.
      by rewrite lookup_insert_eq.
    + by rewrite !lookup_insert_ne.
Qed.

Lemma bump_updateStatus (R : gmap string UserResponse) k q ns mv :
  is_Some (R !! k) ->
  updateStatus q ns mv (bump k R) = bump k (updateStatus q ns mv R).
Proof.
  intros [r Hk]. unfold updateStatus.
  rewrite (bump_lookup R k r q Hk).
  destruct (decide (q = k)) as [->|Hqk].
  - rewrite Hk. apply map_eq. intros i.
    destruct (decide (i = k)) as [->|Hik].
    + rewrite !lookup_insert_eq. simpl. done.
    + by rewrite !lookup_insert_ne.
  - destruct (R !! q) as [current|] eqn:Hq; [|done].
    rewrite (lookup_insert_ne R q k) by done. rewrite Hk. simpl.
    apply insert_insert_ne. congruence.
Qed.

Lemma bump_syncQuestions (R : gmap string UserResponse) k qs :
  is_Some (R !! k) ->
  syncQuestions qs (bump k R) = bump k (syncQuestions qs R).
Proof.
  unfold syncQuestions. revert R.
  induction qs as [|q qs IH]; intros R [r Hk]; cbn [fold_left]; [done|].
  rewrite (bump_lookup R k r (qid q) Hk).
  destruct (decide (qid q = k)) as [Heq|Hne].
  - assert (Hq : R !! qid q = Some r) by congruence.
    rewrite Hq. apply IH. eauto.
  - destruct (R !! qid q) as [r'|] eqn:Hq; [apply IH; eauto|].
    rewrite <- IH by (rewrite lookup_insert_ne by done; eauto).
    f_equal. rewrite (lookup_insert_ne R (qid q) k) by done.
    apply insert_insert_ne. congruence.
Qed.

Lemma bump_status (R : gmap string UserResponse) k k' :
  is_Some (R !! k) ->
  bump k R !! k' ≫= status = R !! k' ≫= status.
Proof.
  intros [r Hk]. rewrite (bump_lookup R k r k' Hk).
  destruct (decide (k' = k)) as [->|]; [|done]. by rewrite Hk.
Qed.

Lemma act_setTimeLeft (f : Z -> Z) (x : Action) (s : Session) :
  clockAction x = false ->
  act x (setTimeLeft f s) = setTimeLeft f <$> act x s.
Proof.
  intros Hx. destruct s as [qs d tot idx R tl p].
  destruct x as [o| | | | |index| | |now|qs']; try done; cbn [act];
    unfold handleOptionSelect, handleMarkForReview, handleSkip, handleClearResponse,
      handleBookmark, handleNavigate, receive, currentId;
    cbn [questions currentQuestionIndex responses setTimeLeft durationMinutes
         totalQuestionsConfig timeLeft isPaused].
  - destruct (qs !! idx); done.
  - destruct (qs !! idx) as [q|]; [|done]. simpl. by destruct (R !! qid q).
  - destruct (qs !! idx) as [q|]; [|done]. simpl.
    destruct (_ <? _); [|done]. unfold handleNavigate. simpl.
    destruct (_ && _); [|done]. by destruct (qs !! _).
  - destruct (qs !! idx); done.
  - destruct (qs !! idx) as [q|]; [|done]. simpl. by destruct (R !! qid q).
  - destruct (_ && _); [|done]. by destruct (qs !! _).
  - simpl. destruct (_ =? _)%nat; [done|].
    unfold visitedMarkEffect. simpl. destruct qs' as [|q0 ?]; [done|]. by case_bool_decide.
Qed.

Lemma bump_insert_found (R : gmap string UserResponse) k q r0 r1
    (f : UserResponse -> UserResponse) :
  is_Some (R !! k) -> keepsTime f ->
  R !! q = Some r0 -> bump k R !! q = Some r1 ->
  <[q := f r1]> (bump k R) = bump k (<[q := f r0]> R).
Proof.
  intros Hk Hf H0 H1.
  assert (E0 : r0 = spread (R !! q)) by by rewrite H0.
  assert (E1 : r1 = spread (bump k R !! q)) by by rewrite H1.
  rewrite E0, E1. by apply bump_insert.
Qed.

Lemma bump_is_Some (R : gmap string UserResponse) k k' :
  is_Some (R !! k) -> is_Some (bump k R !! k') <-> is_Some (R !! k').
Proof.
  intros [r Hk]. rewrite (bump_lookup R k r k' Hk).
  destruct (decide (k' = k)) as [->|]; [|done]. rewrite Hk. split; eauto.
Qed.

Lemma handleNavigate_bump (k : string) (index : Z) (s : Session) :
  is_Some (responses s !! k) ->
  handleNavigate index (setResponses (fun R => bump k R) s)
  = setResponses (fun R => bump k R) (handleNavigate index s).
Proof.
  intros Hk. destruct s as [qs d tot idx R tl p]. unfold handleNavigate.
  cbn [questions currentQuestionIndex responses setResponses durationMinutes
       totalQuestionsConfig timeLeft isPaused] in *.
  destruct (_ && _); [|done]. destruct (qs !! Z.to_nat index) as [q|]; [|done].
  unfold setResponses, setCurrentQuestionIndex.
  cbn [questions currentQuestionIndex responses
       durationMinutes totalQuestionsConfig timeLeft isPaused].
  f_equal. by apply bump_updateStatus.
Qed.

Local Ltac norm :=
  unfold setResponses, setCurrentQuestionIndex, withQuestions, syncEffect;
  cbn [questions currentQuestionIndex responses durationMinutes totalQuestionsConfig
       timeLeft isPaused fmap option_fmap option_map mbind option_bind].

Lemma act_bump (k : string) (x : Action) (s : Session) :
  clockAction x = false ->
  is_Some (responses s !! k) ->
  act x (setResponses (fun R => bump k R) s)
  = setResponses (fun R => bump k R) <$> act x s.
Proof.
  intros Hx Hk.
  destruct x as [o| | | | |index| | |now|qs']; try done; cbn [act].
  - (* Select *)
    destruct s as [qs d tot idx R tl p]. unfold handleOptionSelect, currentId.
    norm. cbn [responses] in Hk.
    destruct (qs !! idx) as [q|]; [|done]. norm.
    do 2 f_equal. by apply (bump_insert R k (qid q) (withSelection (Chosen o) Answered)).
  - (* Review *)
    destruct s as [qs d tot idx R tl p]. unfold handleMarkForReview, currentId.
    norm. cbn [responses] in Hk.
    destruct (qs !! idx) as [q|]; [|done]. norm.
    destruct Hk as [r Hk]. rewrite (bump_lookup R k r (qid q) Hk).
    destruct (decide (qid q = k)) as [Heq|Hne].
    + assert (Hq : R !! qid q = Some r) by congruence. rewrite Hq. norm.
      cbn [selectedOption withTimeSpent].
      do 2 f_equal. apply bump_updateStatus. eauto.
    + destruct (R !! qid q) as [r'|]; [|done]. norm.
      do 2 f_equal. apply bump_updateStatus. eauto.
  - (* Skip *)
    destruct s as [qs d tot idx R tl p]. unfold handleSkip, currentId.
    norm. cbn [responses] in Hk.
    destruct (qs !! idx) as [q|]; [|done]. norm. cbv zeta.
    pose proof (bump_insert R k (qid q)
                  (fun r => mkResponse (questionId r) Null (Some NotAnswered)
                              (timeSpentSeconds r) (Some true) (isBookmarked r)) Hk) as E.
    cbv beta in E. rewrite E by done. f_equal.
    destruct (_ <? _); [|done].
    match goal with
    | |- handleNavigate ?i (mkSession ?a ?b ?c ?e (bump k ?R') ?g ?h) = _ =>
        change (mkSession a b c e (bump k R') g h)
          with (setResponses (fun R => bump k R) (mkSession a b c e R' g h))
    end.
    rewrite handleNavigate_bump; [done|].
    cbn [responses]. apply lookup_insert_is_Some'. by right.
  - (* Clear *)
    destruct s as [qs d tot idx R tl p]. unfold handleClearResponse, currentId.
    norm. cbn [responses] in Hk.
    destruct (qs !! idx) as [q|]; [|done]. norm.
    do 2 f_equal. by apply (bump_insert R k (qid q) (withSelection Null NotAnswered)).
  - (* Bookmark *)
    destruct s as [qs d tot idx R tl p]. unfold handleBookmark, currentId.
    norm. cbn [responses] in Hk.
    destruct (qs !! idx) as [q|]; [|done]. norm.
    destruct (R !! qid q) as [r0|] eqn:H0.
    2:{ assert (H1 : bump k R !! qid q = None).
        { apply eq_None_not_Some. rewrite bump_is_Some by done. by rewrite H0; intros [? ?]. }
        by rewrite H1. }
    destruct (bump k R !! qid q) as [r1|] eqn:H1.
    2:{ exfalso. apply eq_None_not_Some in H1. apply H1.
        apply bump_is_Some; [done|]. by rewrite H0. }
    norm. do 2 f_equal.
    by apply (bump_insert_found R k (qid q) r0 r1
                (fun r => withBookmark (negb (default false (isBookmarked r))) r)).
  - (* Navigate *)
    cbn [fmap option_fmap option_map]. f_equal. by apply handleNavigate_bump.
  - (* Receive *)
    cbn [fmap option_fmap option_map]. f_equal.
    destruct s as [qs d tot idx R tl p]. unfold receive, syncEffect, withQuestions.
    cbn [questions currentQuestionIndex responses durationMinutes totalQuestionsConfig
         timeLeft isPaused] in *.
    destruct (_ =? _)%nat.
    { norm. f_equal. by apply bump_syncQuestions. }
    unfold visitedMarkEffect. norm.
    destruct qs' as [|q0 rest]; [norm; f_equal; by apply bump_syncQuestions|].
    rewrite bump_status by done.
    case_bool_decide; norm; f_equal; rewrite bump_syncQuestions by done; [|done].
    apply bump_updateStatus. by apply syncQuestions_extends.
Qed.

Lemma staleTick_as (a : list Question) (s : Session) :
  staleTick a s
  = match a !! currentQuestionIndex s with
    | Some q => setResponses (fun R => bump (qid q) R) (setTimeLeft (fun t => t - 1) s)
    | None => setTimeLeft (fun t => t - 1) s
    end.
Proof. reflexivity. Qed.

Lemma timerDeps_index (s s' : Session) :
  timerDeps s' = timerDeps s ->
  timeLeft s' = timeLeft s /\ currentQuestionIndex s' = currentQuestionIndex s
  /\ isPaused s' = isPaused s.
Proof. unfold timerDeps. by intros [= -> -> ->]. Qed.

(** A pending callback and an event that does not re-arm the timer can
    be taken in either order. *)
Lemma staleTick_commutes (a : list Question) (x : Action) (s s' : Session) :
  clockAction x = false ->
  (forall q, a !! currentQuestionIndex s = Some q -> is_Some (responses s !! qid q)) ->
  act x s = Some s' -> timerDeps s' = timerDeps s ->
  act x (staleTick a s) = Some (staleTick a s').
Proof.
  intros Hx Hcov Hact Hdeps. rewrite !staleTick_as.
  destruct (timerDeps_index _ _ Hdeps) as (_ & -> & _).
  destruct (a !! currentQuestionIndex s) as [q|].
  - rewrite act_bump; [|done|by destruct s; apply Hcov].
    rewrite act_setTimeLeft by done. by rewrite Hact.
  - rewrite act_setTimeLeft by done. by rewrite Hact.
Qed.

Lemma act_keeps_keys (x : Action) (s s' : Session) (k : string) :
  act x s = Some s' -> is_Some (responses s !! k) -> is_Some (responses s' !! k).
Proof.
  intros Hact Hk.
  assert (Hins : forall q r (R : gmap string UserResponse),
            is_Some (R !! k) -> is_Some (<[q := r]> R !! k)).
  { intros q r R HR. apply lookup_insert_is_Some'. by right. }
  assert (Hupd : forall q ns mv (R : gmap string UserResponse),
            is_Some (R !! k) -> is_Some (updateStatus q ns mv R !! k)).
  { intros q ns mv R HR. unfold updateStatus. destruct (R !! q); [by apply Hins|done]. }
  assert (Hnav : forall index s0, is_Some (responses s0 !! k) ->
            is_Some (responses (handleNavigate index s0) !! k)).
  { intros index s0 H0. unfold handleNavigate. destruct (_ && _); [|done].
    destruct (questions s0 !! _); destruct s0; simpl in *; auto. }
  destruct x as [o| | | | |index| | |now|qs']; simpl in Hact.
  - unfold handleOptionSelect in Hact. destruct (currentId s); [|done].
    injection Hact as <-. destruct s; simpl in *. auto.
  - unfold handleMarkForReview in Hact. destruct (currentId s) as [qId|]; [|done].
    simpl in Hact. destruct (responses s !! qId); [|done]. injection Hact as <-.
    destruct s; simpl in *. auto.
  - unfold handleSkip in Hact. destruct (currentId s) as [qId|]; [|done].
    injection Hact as <-. destruct (_ <? _).
    + apply Hnav. destruct s; simpl in *. auto.
    + destruct s; simpl in *. auto.
  - unfold handleClearResponse in Hact. destruct (currentId s); [|done].
    injection Hact as <-. destruct s; simpl in *. auto.
  - unfold handleBookmark in Hact. destruct (currentId s) as [qId|]; [|done].
    simpl in Hact. destruct (responses s !! qId); [|done]. injection Hact as <-.
    destruct s; simpl in *. auto.
  - injection Hact as <-. by apply Hnav.
  - injection Hact as <-. by destruct s.
  - injection Hact as <-. by destruct s.
  - injection Hact as <-. unfold second. destruct (timerEffect s); [done..|].
    unfold tick. destruct (questions s !! _); destruct s; simpl in *; auto.
  - injection Hact as <-. unfold receive.
    assert (H1 : is_Some (responses (syncEffect (withQuestions qs' s) (withQuestions qs' s)) !! k)).
    { destruct s; simpl in *. by apply syncQuestions_extends. }
    destruct (_ =? _)%nat; [done|].
    unfold visitedMarkEffect. destruct (questions _); [done|].
    case_bool_decide; [|done].
    destruct (syncEffect _ _); simpl in *. auto.
Qed.

Lemma quietRun_acts l : forall s s', quietRun s l = Some s' -> acts s l = Some s'.
Proof.
  induction l as [|a l IH]; intros s s'; simpl; [done|].
  destruct (clockAction a); [done|].
  destruct (act a s) as [s1|]; [|done]. simpl.
  destruct (decide _); [|done]. apply IH.
Qed.

Lemma quietRun_deps l : forall s s', quietRun s l = Some s' -> timerDeps s' = timerDeps s.
Proof.
  induction l as [|a l IH]; intros s s'; simpl; [by intros [= <-]|].
  destruct (clockAction a); [done|].
  destruct (act a s) as [s1|]; [|done]. simpl.
  destruct (decide _) as [E|]; [|done]. intros H. rewrite <- E. by apply IH.
Qed.

Lemma quietRun_snoc l a : forall s s1 s2,
  quietRun s l = Some s1 -> clockAction a = false -> act a s1 = Some s2 ->
  timerDeps s2 = timerDeps s1 -> quietRun s (l ++ [a]) = Some s2.
Proof.
  induction l as [|b l IH]; intros s s1 s2; simpl.
  - intros [= <-] -> -> Hd. simpl. by rewrite decide_True.
  - destruct (clockAction b); [done|].
    destruct (act b s) as [s0|]; [|done]. simpl.
    destruct (decide _); [|done]. apply IH.
Qed.

Lemma quietRun_staleTick (a : list Question) l : forall s s',
  (forall q, a !! currentQuestionIndex s = Some q -> is_Some (responses s !! qid q)) ->
  quietRun s l = Some s' ->
  quietRun (staleTick a s) l = Some (staleTick a s').
Proof.
  induction l as [|x l IH]; intros s s' Hcov; simpl; [by intros [= <-]|].
  destruct (clockAction x) eqn:Hx; [done|].
  destruct (act x s) as [s1|] eqn:Hact; [|done]. simpl.
  destruct (decide _) as [Hdeps|]; [|done]. intros Hrun.
  rewrite (staleTick_commutes a x s s1 Hx Hcov Hact Hdeps). simpl.
  destruct (timerDeps_index _ _ Hdeps) as (Htl & Hidx & Hp).
  rewrite decide_True.
  - apply IH; [|done]. intros q Hq. rewrite Hidx in Hq.
    eapply act_keeps_keys; [done|]. by apply Hcov.
  - unfold timerDeps.
    destruct (staleTick_frame a s) as (-> & _ & -> & ->).
    destruct (staleTick_frame a s1) as (-> & _ & -> & ->).
    congruence.
Qed.

Lemma acts_app l1 : forall s s1 l2,
  acts s l1 = Some s1 -> acts s (l1 ++ l2) = acts s1 l2.
Proof.
  induction l1 as [|a l1 IH]; intros s s1 l2; simpl; [by intros [= <-]|].
  destruct (act a s) as [s0|]; [|done]. simpl. apply IH.
Qed.

Section Reached.

Variables (qs : list Question) (d total : Z).
Hypothesis Hd : 0 <= d.

Local Abbreviation simulated := (SessionNotions.simulated qs d total).

Lemma simulated_mount : simulated (mountTimed qs d total None).
Proof. by exists [], (mount qs d total None), []. Qed.

Lemma simulated_reached (m : Mounted) :
  simulated m -> exists l, acts (mount qs d total None) l = Some (session m).
Proof.
  intros (l' & s0 & l'' & Hl' & _ & Hq). exists (l' ++ l'').
  rewrite (acts_app _ _ _ _ Hl'). by apply quietRun_acts.
Qed.

Lemma simulated_act (a : Action) (m m' : Mounted) :
  simulated m -> actTimed a m = Some m' -> simulated m'.
Proof.
  intros Hsim Hact. pose proof Hsim as (l' & s0 & l'' & Hl' & Harmed & Hq).
  destruct (clockAction a) eqn:Hclock.
  - destruct a; try done. simpl in Hact. injection Hact as <-.
    unfold secondTimed. destruct (timerEffect (session m)) eqn:Heff; [done..|].
    pose proof (quietRun_deps _ _ _ Hq) as Hdeps.
    destruct (timerDeps_index _ _ Hdeps) as (Htl & Hidx & Hp).
    assert (Heff0 : timerEffect s0 = Ticking).
    { unfold timerEffect in *. by rewrite <- Htl, <- Hp. }
    assert (Hcov : forall q, armed m !! currentQuestionIndex s0 = Some q ->
                     is_Some (responses s0 !! qid q)).
    { intros q Hin. rewrite <- Harmed in Hin.
      destruct (reachable_wellFormed qs d total Hd l' s0 Hl') as (Hc & _).
      apply Hc. by eapply list_elem_of_lookup_2. }
    pose proof (quietRun_staleTick (armed m) l'' s0 (session m) Hcov Hq) as Hrun.
    exists (l' ++ Second now :: l''), (staleTick (armed m) (session m)), [].
    split_and!; [|done|done].
    rewrite (acts_app _ _ _ _ Hl'). cbn [acts act]. unfold second. rewrite Heff0.
    cbn [fst mbind option_bind]. rewrite <- (staleTick_current s0), Harmed.
    by apply quietRun_acts.
  - assert (Hact' : exists s', act a (session m) = Some s' /\ m' = afterRender m s').
    { destruct a; try done; cbn [actTimed] in Hact;
        (destruct (act _ (session m)) as [s'|] eqn:E;
         [injection Hact as <-; eauto|done]). }
    destruct Hact' as (s' & Hs' & ->). unfold afterRender.
    destruct (decide (timerDeps s' = timerDeps (session m))) as [Hdeps|Hdeps].
    + exists l', s0, (l'' ++ [a]). split_and!; [done..|].
      by eapply quietRun_snoc.
    + exists (l' ++ l'' ++ [a]), s', []. split_and!; [|done..].
      rewrite (acts_app _ _ _ _ Hl'). apply quietRun_acts in Hq.
      rewrite (acts_app _ _ _ _ Hq). simpl. by rewrite Hs'.
Qed.

Lemma simulated_acts (l : list Action) : forall m m',
  simulated m -> actsTimed m l = Some m' -> simulated m'.
Proof.
  induction l as [|a l IH]; intros m m' Hsim; simpl.
  - by intros [= <-].
  - destruct (actTimed a m) as [m1|] eqn:Ha; [|done]. simpl.
    apply IH. by eapply simulated_act.
Qed.

(** Every screen that the model with the timer's own array reaches from
    the mount is a session that [acts] reaches from the mount: a callback
    that ran on an old array has done what the tick of [acts] does when it
    is taken before the new array arrives.  So what holds of every session
    of [acts] holds of every screen of the timer model. *)
Theorem timed_sessions_reached (l : list Action) (m : Mounted) :
  actsTimed (mountTimed qs d total None) l = Some m ->
  exists l', acts (mount qs d total None) l' = Some (session m).
Proof.
  intros Hl. apply simulated_reached.
  eapply simulated_acts; [apply simulated_mount|done].
Qed.

Corollary timed_sessions_wellFormed (l : list Action) (m : Mounted) :
  actsTimed (mountTimed qs d total None) l = Some m -> wellFormed (session m).
Proof.
  intros Hl. destruct (timed_sessions_reached l m Hl) as [l' Hl'].
  by apply (reachable_wellFormed qs d total Hd l').
Qed.

End Reached.

End TimerSimulation.

Lemma owned_insert qs R k r' :
  owned qs R -> k ∈ qid <$> qs -> owned qs (<[k := r']> R).
Proof.
  intros Ho Hk k' Hk'. apply lookup_insert_is_Some' in Hk' as [<-|H]; auto.
Qed.

Lemma owned_updateStatus qs R k ns mv :
  owned qs R -> owned qs (updateStatus k ns mv R).
Proof.
  intros Ho. unfold updateStatus. destruct (R !! k) eqn:Hk; [|done].
  apply owned_insert; [done|]. apply Ho. by rewrite Hk.
Qed.

Lemma owned_sync qs qs' R :
  owned qs R -> qs ⊆ qs' -> owned qs' (syncQuestions qs' R).
Proof.
  intros Ho Hsub.
  assert (Ho' : owned qs' R).
  { intros k Hk. apply Ho in Hk. apply list_elem_of_fmap in Hk as (q & -> & Hq).
    apply list_elem_of_fmap. eauto. }
  clear Ho. unfold syncQuestions.
  assert (Hgen : forall l R0, l ⊆ qs' -> owned qs' R0 ->
            owned qs' (fold_left (fun next q =>
               match next !! qid q with
               | Some _ => next
               | None => <[qid q := freshRecord q]> next
               end) l R0)).
  { induction l as [|q l IH]; intros R0 Hl HR0; simpl; [done|].
    apply IH; [set_solver|]. destruct (R0 !! qid q); [done|].
    apply owned_insert; [done|]. apply list_elem_of_fmap. exists q. split; [done|].
    apply Hl. by left. }
  by apply Hgen.
Qed.

Lemma currentId_owned s qId : currentId s = Some qId -> qId ∈ qid <$> questions s.
Proof.
  intros Hid. apply currentId_loaded in Hid as (q & _ & <- & Hin).
  apply list_elem_of_fmap. eauto.
Qed.

Lemma handleNavigate_owned index s :
  owned (questions s) (responses s) ->
  owned (questions (handleNavigate index s)) (responses (handleNavigate index s)).
Proof.
  intros Ho. unfold handleNavigate. destruct (_ && _); [|done].
  destruct (questions s !! Z.to_nat index); [|done].
  simpl. by apply owned_updateStatus.
Qed.

Lemma visitedMarkEffect_owned rendered s :
  owned (questions s) (responses s) ->
  owned (questions (visitedMarkEffect rendered s)) (responses (visitedMarkEffect rendered s)).
Proof.
  intros Ho. unfold visitedMarkEffect. destruct (questions rendered); [done|].
  case_bool_decide; [|done]. simpl. by apply owned_updateStatus.
Qed.

Lemma owned_act a s s' :
  owned (questions s) (responses s) ->
  match a with Receive qs => questions s `prefix_of` qs | _ => True end ->
  act a s = Some s' ->
  owned (questions s') (responses s').
Proof.
  intros Ho Hext. destruct a; simpl.
  - unfold handleOptionSelect. destruct (currentId s) as [qId|] eqn:Hid; [|done].
    intros [= <-]. simpl. apply owned_insert; [done|]. by apply currentId_owned.
  - unfold handleMarkForReview. destruct (currentId s) as [qId|] eqn:Hid; [|done].
    simpl. destruct (responses s !! qId); [|done]. intros [= <-]. simpl.
    by apply owned_updateStatus.
  - unfold handleSkip. destruct (currentId s) as [qId|] eqn:Hid; [|done].
    intros [= <-].
    match goal with |- context [handleNavigate _ ?s1] =>
      assert (owned (questions s1) (responses s1)) as Hs1 end.
    { simpl. apply owned_insert; [done|]. by apply currentId_owned. }
    destruct (_ <? _); [by apply handleNavigate_owned|done].
  - unfold handleClearResponse. destruct (currentId s) as [qId|] eqn:Hid; [|done].
    intros [= <-]. simpl. apply owned_insert; [done|]. by apply currentId_owned.
  - unfold handleBookmark. destruct (currentId s) as [qId|] eqn:Hid; [|done].
    simpl. destruct (responses s !! qId); [|done]. intros [= <-]. simpl.
    apply owned_insert; [done|]. by apply currentId_owned.
  - intros [= <-]. by apply handleNavigate_owned.
  - by intros [= <-].
  - by intros [= <-].
  - intros [= <-]. unfold second. destruct (timerEffect s); try done.
    unfold tick. simpl. destruct (questions s !! currentQuestionIndex s) as [q|] eqn:Hq; [|done].
    simpl. apply owned_insert; [done|]. apply currentId_owned.
    unfold currentId. by rewrite Hq.
  - intros [= <-]. unfold receive.
    assert (Hsync : owned qs (syncQuestions qs (responses s))).
    { apply (owned_sync (questions s)); [done|].
      destruct Hext as [more ->]. set_solver. }
    destruct (_ =? _)%nat; [done|]. by apply visitedMarkEffect_owned.
Qed.

Lemma owned_acts l s s' :
  owned (questions s) (responses s) -> extending s l -> acts s l = Some s' ->
  owned (questions s') (responses s').
Proof.
  revert s. induction l as [|a l IH]; intros s Ho Hext; simpl.
  - by intros [= <-].
  - destruct Hext as [Ha Hl]. destruct (act a s) as [s1|] eqn:Hact; [|done]. simpl.
    apply IH; [by eapply owned_act|done].
Qed.

(** X11. In every state reached from the mount by events in which the
    parent only ever extends the question list, if the loaded questions have
    pairwise distinct ids then the result of [finishTest] satisfies
    [attempted = correct + wrong], [0 <= correct <= attempted],
    [attempted <= totalQuestions] and [0 <= wrong]. *)
Theorem reachable_scoring_bounds (qs : list Question) (d total : Z) (l : list Action)
    (s : Session) (now : string) :
  acts (mount qs d total None) l = Some s ->
  extending (mount qs d total None) l ->
  NoDup (qid <$> questions s) ->
  let res := finishTest now s in
  attempted res = correct res + wrong res
  /\ 0 <= correct res <= attempted res
  /\ attempted res <= res_totalQuestions res
  /\ 0 <= wrong res.
Proof.
  intros Hl Hext Hnd res.
  assert (Ho : owned (questions s) (responses s)).
  { eapply owned_acts; [|exact Hext|exact Hl].
    apply visitedMarkEffect_owned. simpl. apply (owned_sync []); [|set_solver].
    intros k. rewrite lookup_empty. by intros [? ?]. }
  destruct (finishTest_bounds now s Hnd Ho) as (H1 & H2 & H3).
  subst res. split_and!; lia.
Qed.

Lemma session_records_complete_witness :
  (forall q, q ∈ questions walked -> is_Some (responses walked !! qid q))
  /\ (forall k r, responses walked !! k = Some r -> completeRecord k r)
  /\ Notions.typedRecords (responses walked).
Proof.
  apply (session_records_complete Gemini.FALLBACK_QUESTIONS 90 100 ltac:(lia) walk walked).
  vm_compute. reflexivity.
Defined.

Lemma status_agrees_with_selection_witness :
  attempted (finishTest "" walked) = Z.of_nat (size (answeredRecords (responses walked))).
Proof.
  apply (status_agrees_with_selection Gemini.FALLBACK_QUESTIONS 90 100 ltac:(lia)
           walk walked "").
  vm_compute. reflexivity.
Defined.

Lemma handlers_raise_only_unloaded_witness :
  act Skip pastTheEnd = None
  <-> recordHandler Skip = true /\ currentId pastTheEnd = None.
Proof.
  apply (handlers_raise_only_unloaded Gemini.FALLBACK_QUESTIONS 90 100 ltac:(lia)
           [Navigate 1; Navigate 2; Navigate 3] pastTheEnd Skip).
  vm_compute. reflexivity.
Defined.

Lemma clock_and_position_bounds_witness :
  0 <= timeLeft walked <= durationMinutes walked * 60
  /\ 0 <= timeTakenSeconds (finishTest "" walked) <= durationMinutes walked * 60
  /\ totalTimeSpent (responses walked) <= timeTakenSeconds (finishTest "" walked)
  /\ (currentQuestionIndex walked = O
      \/ Z.of_nat (currentQuestionIndex walked) < totalQuestionsConfig walked).
Proof.
  apply (clock_and_position_bounds Gemini.FALLBACK_QUESTIONS 90 100 ltac:(lia)
           walk walked "").
  vm_compute. reflexivity.
Defined.

Lemma scoring_ignores_marks_witness :
  scoreSheet (finishTest "" (default walked (act Review walked)))
  = scoreSheet (finishTest "" walked).
Proof.
  apply (scoring_ignores_marks Gemini.FALLBACK_QUESTIONS 90 100 walk Review walked
           (default walked (act Review walked)) "" "").
  - lia.
  - vm_compute. reflexivity.
  - reflexivity.
  - vm_compute. reflexivity.
Defined.

Lemma handleSkip_effect_witness :
  exists s', handleSkip fresh3 = Some s'
    /\ is_Some (currentId s')
    /\ currentQuestionIndex s' = 1%nat
    /\ (exists r, responses s' !! "fb-1" = Some r
          /\ selectedOption r = Null /\ status r = Some NotAnswered
          /\ visited r = Some true)
    /\ (forall k, k <> "fb-1" ->
          selectedOption <$> responses s' !! k = selectedOption <$> responses fresh3 !! k).
Proof.
  apply (handleSkip_effect fresh3 "fb-1"). vm_compute. reflexivity.
Defined.

Lemma clock_counts_down_witness :
  counter (session (secondsTimed 1 lateArrival)) "gen-1-a" = 0
  /\ counter (session (secondsTimed 2 lateArrival)) "gen-1-a" = 1.
Proof.
  assert (Hp : isPaused (session lateArrival) = false) by reflexivity.
  assert (Ht : 0 <= timeLeft (session lateArrival)) by (vm_compute; discriminate).
  destruct (proj2 (clock_counts_down 1 lateArrival) Hp Ht) as (_ & _ & _ & _ & _ & H1).
  destruct (proj2 (clock_counts_down 2 lateArrival) Hp Ht) as (_ & _ & _ & _ & _ & H2).
  rewrite (H1 "gen-1-a"), (H2 "gen-1-a"). split; vm_compute; reflexivity.
Defined.

Lemma snapshot_round_trip_witness :
  let resumed :=
    mount Gemini.FALLBACK_QUESTIONS 90 100
      (Some (mkSavedState (responses Samples.interrupted) (timeLeft Samples.interrupted))) in
  timeLeft resumed = 2700
  /\ responses resumed !! "fb-1" = Some Samples.answeredRecord.
Proof.
  destruct (snapshot_round_trip (fun _ => "snapshot")
              (fun _ => Some (snapshotOf 0 Samples.interrupted)) (fun _ => None)
              Samples.interrupted 0 1000 None Gemini.FALLBACK_QUESTIONS 90 100)
    as (_ & _ & Htime & _ & Hkept & _).
  - reflexivity.
  - discriminate.
  - reflexivity.
  - split; [exact Htime|]. exact (Hkept "fb-1" Samples.answeredRecord eq_refl).
Defined.

Lemma reachable_scoring_bounds_witness :
  let res := finishTest "" walked in
  attempted res = correct res + wrong res
  /\ 0 <= correct res <= attempted res
  /\ attempted res <= res_totalQuestions res
  /\ 0 <= wrong res.
Proof.
  apply (reachable_scoring_bounds Gemini.FALLBACK_QUESTIONS 90 100 walk walked "").
  - vm_compute. reflexivity.
  - vm_compute. repeat split. eexists. reflexivity.
  - apply (bool_decide_unpack _). vm_compute. exact I.
Defined.

End Sessions.

(** ** The resume offer *)

Section ResumeOffer.

Lemma mount_fresh_records (qs : list Question) (d total : Z) (q : Question) :
  q ∈ qs ->
  TestInterface.responses (Screen.mount qs d total None) !! qid q
  = Some (TestInterface.freshRecord q).
Proof.
  intros Hq.
  assert (Hs : TestInterface.responses (Screen.mount qs d total None)
               = TestInterface.syncQuestions qs ∅).
  { unfold Screen.mount, Screen.visitedMarkEffect. simpl.
    destruct qs as [|q0 rest]; [done|]. by rewrite lookup_empty. }
  rewrite Hs. by apply syncQuestions_fresh.
Qed.

(** C7, the resume offer.  A snapshot that a running session wrote less
    than 24 hours ago is put into the [savedSession] state by the mount
    effect and stays in storage, but no resume follows: the test screen is
    rendered without [savedState], so the test that is started next begins
    as after any mount, with the full time and the fresh record for every
    question, and its first render overwrites the stored snapshot.  In the
    interrupted test one hour later: the snapshot holds the answer to the
    first question and 2700 seconds; the screen shows the question
    unanswered and 5400 seconds. *)
Theorem resume_never_offered :
  (forall (JSON_stringify : App.Snapshot -> string)
          (JSON_parse : string -> option App.Snapshot)
          (StringToNumber : string -> option Z)
          (s : TestInterface.Session) (t0 now later : Z)
          (config : TestConfig) (qs : list Question),
      TestInterface.isPaused s = false ->
      JSON_stringify (Screen.snapshotOf t0 s) <> "" ->
      JSON_parse (JSON_stringify (Screen.snapshotOf t0 s)) = Some (Screen.snapshotOf t0 s) ->
      now - t0 < App.DAY_MS ->
      let stored := Screen.persist JSON_stringify t0 s None in
      let restored := App.restoreSession JSON_parse StringToNumber now stored in
      let screen :=
        Resume.mountWith (Resume.testScreenProps (App.savedSession restored) config qs) in
      App.savedSession restored = Some (Screen.snapshotOf t0 s)
      /\ App.storedAfter restored = stored
      /\ screen = Screen.mount qs (durationMinutes config) (totalQuestions config) None
      /\ TestInterface.timeLeft screen = durationMinutes config * 60
      /\ (forall q, q ∈ qs ->
            TestInterface.responses screen !! qid q = Some (TestInterface.freshRecord q))
      /\ Screen.persist JSON_stringify later screen (App.storedAfter restored)
         = Some (JSON_stringify (Screen.snapshotOf later screen)))
  /\ (let s := Samples.interrupted in
      let snap := Screen.snapshotOf 0 s in
      let restored :=
        App.restoreSession (fun _ => Some snap) (fun _ => None) 3600000
          (Screen.persist (fun _ => "snapshot") 0 s None) in
      let screen :=
        Resume.mountWith
          (Resume.testScreenProps (App.savedSession restored) Samples.fullMock
             Gemini.FALLBACK_QUESTIONS) in
      App.savedSession restored = Some snap
      /\ selectedOption <$> App.snap_responses snap !! "fb-1" = Some (Chosen 3)
      /\ App.snap_timeLeft snap = 2700
      /\ selectedOption <$> TestInterface.responses screen !! "fb-1" = Some Null
      /\ TestInterface.timeLeft screen = 5400).
Proof.
  split.
  - intros JSON_stringify JSON_parse StringToNumber s t0 now later config qs
      Hp Hne Hparse Hfresh stored restored screen.
    assert (Hscreen : screen
              = Screen.mount qs (durationMinutes config) (totalQuestions config) None)
      by reflexivity.
    assert (Hrestored : restored
              = App.mkRestored (Some (Screen.snapshotOf t0 s)) stored).
    { subst restored stored. unfold Screen.persist. rewrite Hp.
      rewrite restoreSession_nonempty, Hparse by done.
      unfold App.within24h. cbn [App.timestamp Screen.snapshotOf App.ToNumber].
      by replace (now - t0 <? App.DAY_MS) with true by (symmetry; by apply Z.ltb_lt). }
    rewrite Hrestored. cbn [App.savedSession App.storedAfter].
    split_and!; [done..| | |].
    + rewrite Hscreen. unfold Screen.mount, Screen.visitedMarkEffect. simpl.
      destruct qs as [|q0 rest]; [done|]. by case_bool_decide.
    + intros q Hq. rewrite Hscreen. by apply mount_fresh_records.
    + unfold Screen.persist.
      assert (TestInterface.isPaused screen = false) as ->; [|done].
      rewrite Hscreen. unfold Screen.mount, Screen.visitedMarkEffect. simpl.
      destruct qs as [|q0 rest]; [done|]. by case_bool_decide.
  - vm_compute. split_and!; reflexivity.
Qed.

End ResumeOffer.

(* ===================================================================== *)
(** * Part IV. The assistant features and the result screen              *)
(* ===================================================================== *)

(** ** What reaches [JSON.parse] *)

Section Extraction.
Import Js Gemini Notions Assistant.

Implicit Types (s p q r : jsstring) (c : N).

Lemma indexOf_Some_inv c s i :
  indexOf c s = Some i -> exists p r, s = p ++ c :: r /\ (c ∉ p) /\ length p = i.
Proof.
  revert i. induction s as [|x s IH]; intros i; simpl; [done|].
  destruct (N.eqb_spec x c) as [->|Hne].
  - intros [= <-]. exists [], s. split_and!; [done| |done]. apply not_elem_of_nil.
  - destruct (indexOf c s) as [j|]; [|done]. intros [= <-].
    destruct (IH j eq_refl) as (p & r & -> & Hp & Hl).
    exists (x :: p), r. split_and!; [done| |by rewrite <- Hl].
    apply not_elem_of_cons. split; [congruence|done].
Qed.

Lemma lastIndexOf_Some_inv c s j :
  lastIndexOf c s = Some j -> exists p r, s = p ++ c :: r /\ (c ∉ r) /\ length p = j.
Proof.
  revert j. induction s as [|x s IH]; intros j; simpl; [done|].
  destruct (lastIndexOf c s) as [k|] eqn:Hk.
  - intros [= <-]. destruct (IH k eq_refl) as (p & r & -> & Hr & Hl).
    exists (x :: p), r. split_and!; [done..|by rewrite <- Hl].
  - destruct (N.eqb_spec x c) as [->|Hne]; [|done]. intros [= <-].
    exists [], s. split_and!; [done| |done].
    intros Hin. apply list_elem_of_In, in_split in Hin as (l1 & l2 & ->).
    clear IH. induction l1 as [|y l1 IHl]; simpl in Hk.
    + destruct (lastIndexOf c l2); [done|]. by rewrite N.eqb_refl in Hk.
    + destruct (lastIndexOf c (l1 ++ c :: l2)); [done|]. by apply IHl.
Qed.

Lemma app_cons_split {A} (l1 l2 m1 m2 : list A) (x y : A) :
  l1 ++ x :: m1 = l2 ++ y :: m2 -> (length l1 < length l2)%nat ->
  exists b, l2 = l1 ++ x :: b /\ m1 = b ++ y :: m2.
Proof.
  revert l2. induction l1 as [|a l1 IH]; intros [|z l2] E Hlen; simpl in *; try lia.
  - injection E as -> ->. by exists l2.
  - injection E as -> E. destruct (IH l2 E ltac:(lia)) as (b & -> & ->). by exists b.
Qed.

Lemma brackets_split s i j :
  indexOf openBracket s = Some i -> lastIndexOf closeBracket s = Some j -> (i < j)%nat ->
  exists p body q, s = p ++ arrayText body ++ q
    /\ (openBracket ∉ p) /\ (closeBracket ∉ q)
    /\ length p = i /\ (length p + length (arrayText body))%nat = (j + 1)%nat.
Proof.
  intros Hi Hj Hij.
  destruct (indexOf_Some_inv _ _ _ Hi) as (p1 & r1 & E1 & Hp1 & L1).
  destruct (lastIndexOf_Some_inv _ _ _ Hj) as (p2 & r2 & E2 & Hr2 & L2).
  destruct (app_cons_split p1 p2 r1 r2 openBracket closeBracket) as (body & Hp2 & Hr1);
    [congruence|lia|].
  exists p1, body, r2. split_and!; [|done..|].
  - rewrite E1, Hr1. unfold arrayText. simpl. by rewrite <- app_assoc.
  - unfold arrayText. simpl. rewrite length_app. simpl.
    rewrite <- L2, Hp2, length_app. simpl. lia.
Qed.

Lemma extractJson_Some_inv (text r : jsstring) :
  extractJson text = Some r ->
  exists p body q,
    cleanUp text = p ++ arrayText body ++ q
    /\ (openBracket ∉ p) /\ (closeBracket ∉ q)
    /\ r = arrayText body.
Proof.
  unfold extractJson. change (trim _) with (cleanUp text).
  set (s := cleanUp text).
  destruct (indexOf openBracket s) as [i|] eqn:Hi; [|done].
  destruct (lastIndexOf closeBracket s) as [j|] eqn:Hj; [|done].
  destruct (Nat.ltb_spec i j) as [Hij|]; [|done]. intros [= <-].
  destruct (brackets_split s i j Hi Hj Hij) as (p & body & q & E & Hp & Hq & Lp & Lb).
  exists p, body, q. split_and!; [done..|].
  rewrite E, <- Lp. replace (j + 1)%nat with (length p + length (arrayText body))%nat by lia.
  apply substring_middle.
Qed.

(** X12. The bracket extraction of [generateQuestions] succeeds exactly
    when the cleaned answer (fences removed, trimmed) is a prefix without an
    opening bracket, then an opening bracket, a body, a closing bracket, and
    a suffix without a closing bracket; what it returns is the text from
    that first opening bracket to that last closing bracket, both
    included.  In every other case it raises, and the fallback questions
    are returned. *)
Theorem extractJson_characterised (text r : jsstring) :
  extractJson text = Some r
  <-> exists p body q,
        cleanUp text = p ++ arrayText body ++ q
        /\ (openBracket ∉ p) /\ (closeBracket ∉ q)
        /\ r = arrayText body.
Proof.
  split; [apply extractJson_Some_inv|].
  unfold extractJson. change (trim _) with (cleanUp text).
  intros (p & body & q & E & Hp & Hq & ->). rewrite E.
  change (p ++ arrayText body ++ q)
    with (p ++ openBracket :: ((body ++ [closeBracket]) ++ q)).
  rewrite indexOf_app_first by done.
  replace (p ++ openBracket :: ((body ++ [closeBracket]) ++ q))
    with ((p ++ openBracket :: body) ++ closeBracket :: q)
    by (simpl; by rewrite <- !app_assoc).
  rewrite lastIndexOf_app_last by done.
  replace (length p <? length (p ++ openBracket :: body))%nat with true
    by (symmetry; apply Nat.ltb_lt; rewrite length_app; simpl; lia).
  f_equal.
  replace ((p ++ openBracket :: body) ++ closeBracket :: q)
    with (p ++ arrayText body ++ q)
    by (unfold arrayText; simpl; by rewrite <- !app_assoc).
  replace (length (p ++ openBracket :: body) + 1)%nat
    with (length p + length (arrayText body))%nat
    by (unfold arrayText; simpl; rewrite !length_app; simpl; lia).
  apply substring_middle.
Qed.

Lemma startsWith_fence s : startsWith fence s = (3 <=? leadingTicks s)%nat.
Proof.
  change fence with [96%N; 96%N; 96%N].
  destruct s as [|a [|b [|c s]]]; cbn [startsWith leadingTicks];
    rewrite ?(N.eqb_sym 96 a), ?(N.eqb_sym 96 b), ?(N.eqb_sym 96 c);
    repeat (match goal with |- context [(?x =? 96)%N] => destruct (x =? 96)%N end;
            cbn [andb]); done.
Qed.

Lemma replaceAll_fence_ticks (n : nat) s :
  (length s <= n)%nat ->
  occurs fence (replaceAll fence [] s) = false
  /\ ((leadingTicks s < 3)%nat ->
      leadingTicks (replaceAll fence [] s) = leadingTicks s).
Proof.
  revert s. induction n as [|n IH]; intros s Hlen.
  - destruct s; [done|simpl in Hlen; lia].
  - destruct s as [|c s']; [done|]. simpl in Hlen.
    unfold replaceAll. cbn [replace_from].
    destruct (startsWith fence (c :: s')) eqn:Hsw.
    + pose proof Hsw as Hticks. rewrite startsWith_fence in Hticks.
      apply Nat.leb_le in Hticks.
      destruct s' as [|x [|y t]]; try (simpl in Hsw; by rewrite ?andb_false_r in Hsw).
      cbn [length fence units replace_from app Nat.sub].
      change (replace_from _ [] 0 t) with (replaceAll fence [] t).
      destruct (IH t ltac:(simpl in Hlen; lia)) as [Hocc _].
      split; [done|lia].
    + rewrite startsWith_fence in Hsw. apply Nat.leb_gt in Hsw.
      change (replace_from fence [] 0 s') with (replaceAll fence [] s').
      destruct (IH s' ltac:(lia)) as [Hocc Hlead].
      cbn [leadingTicks] in Hsw |- *.
      destruct (c =? 96)%N eqn:Hc.
      * specialize (Hlead ltac:(lia)). split; [|intros _; by rewrite Hlead].
        cbn [occurs]. rewrite Hocc, startsWith_fence. cbn [leadingTicks].
        rewrite Hc, Hlead. rewrite orb_false_r. apply Nat.leb_gt. lia.
      * split; [|done]. cbn [occurs]. rewrite Hocc, startsWith_fence.
        cbn [leadingTicks]. by rewrite Hc.
Qed.

Lemma trimStart_suffix s : exists w, s = w ++ trimStart s.
Proof.
  induction s as [|c s [w IH]]; [by exists []|]. simpl.
  destruct (isWhiteSpace c); [|by exists []].
  exists (c :: w). simpl. by rewrite <- IH.
Qed.

Lemma trimEnd_prefix s : exists w, s = trimEnd s ++ w.
Proof.
  unfold trimEnd. destruct (trimStart_suffix (rev s)) as [w Hw].
  exists (rev w). rewrite <- rev_app_distr, <- Hw. by rewrite rev_involutive.
Qed.

Lemma trim_infix s : exists p q, s = p ++ trim s ++ q.
Proof.
  unfold trim. destruct (trimStart_suffix s) as [p Hp].
  destruct (trimEnd_prefix (trimStart s)) as [q Hq].
  exists p, q. by rewrite <- Hq.
Qed.

Lemma substring_infix a b s : exists p q, s = p ++ substring a b s ++ q.
Proof.
  unfold substring. exists (take a s), (drop (b - a) (drop a s)).
  by rewrite take_drop, take_drop.
Qed.

Lemma startsWith_app_mono pat s q :
  startsWith pat s = true -> startsWith pat (s ++ q) = true.
Proof.
  revert s. induction pat as [|x pat IH]; intros [|c s]; simpl; try done.
  intros [-> H]%andb_prop. simpl. by apply IH.
Qed.

Lemma occurs_infix pat p s q :
  pat <> [] -> occurs pat (p ++ s ++ q) = false -> occurs pat s = false.
Proof.
  intros Hpat. induction p as [|c p IH]; simpl.
  - induction s as [|c s IHs]; simpl.
    + intros _. by destruct pat.
    + intros [Hsw Hocc]%orb_false_elim. rewrite (IHs Hocc), orb_false_r.
      destruct (startsWith pat (c :: s)) eqn:E; [|done].
      apply (startsWith_app_mono _ _ q) in E. simpl in E. congruence.
  - intros [_ Hocc]%orb_false_elim. by apply IH.
Qed.

Lemma cleanUp_fence text : occurs fence (cleanUp text) = false.
Proof.
  unfold cleanUp.
  destruct (trim_infix (replaceAll fence [] (replaceAll fenceJson [] text))) as (p & q & E).
  apply (occurs_infix fence p _ q); [done|]. rewrite <- E.
  by apply (replaceAll_fence_ticks _ _ (Nat.le_refl _)).
Qed.

(** X13. Whatever the provider answers, the cleaned text holds no run of
    three backticks, and neither does the text that [generateQuestions] or
    [generateFlashcards] hands to [JSON.parse]: a fence inside the JSON text
    is deleted too. *)
Theorem parsed_text_without_fence (text : jsstring) :
  occurs fence (cleanUp text) = false
  /\ (forall r, extractJson text = Some r -> occurs fence r = false)
  /\ occurs fence (flashJson text) = false.
Proof.
  pose proof (cleanUp_fence text) as Hclean. split_and!; [done| |].
  - intros r Hr. apply extractJson_Some_inv in Hr as (p & body & q & E & _ & _ & ->).
    apply (occurs_infix fence p _ q); [done|]. by rewrite <- E.
  - unfold flashJson. destruct (indexOf _ _) as [i|]; [|done].
    destruct (lastIndexOf _ _) as [j|]; [|done].
    unfold substringAny. destruct (_ <=? _)%nat.
    + destruct (substring_infix i (j + 1) (cleanUp text)) as (p & q & E).
      apply (occurs_infix fence p _ q); [done|]. by rewrite <- E.
    + destruct (substring_infix (j + 1) i (cleanUp text)) as (p & q & E).
      apply (occurs_infix fence p _ q); [done|]. by rewrite <- E.
Qed.

End Extraction.

Section Sets.
Import Assistant.
Context {A : Type} `{EqDecision A}.

Implicit Types (set arr : list A) (x : A).

Lemma addAll_spec arr : forall set,
  NoDup set ->
  NoDup (addAll set arr)
  /\ (forall x, x ∈ addAll set arr <-> x ∈ set \/ x ∈ arr)
  /\ exists more, addAll set arr = set ++ more /\ sublist more arr.
Proof.
  induction arr as [|a arr IH]; intros set Hnd; simpl.
  - split_and!; [done| |exists []; split; [by rewrite app_nil_r|done]].
    intros x. rewrite elem_of_nil. tauto.
  - destruct (decide (a ∈ set)) as [Hin|Hnin].
    + destruct (IH set Hnd) as (H1 & H2 & more & H3 & H4).
      split_and!; [done| |exists more; split; [done|by apply sublist_cons]].
      intros x. rewrite H2, elem_of_cons. split; [tauto|].
      intros [?|[->|?]]; tauto.
    + assert (Hnd' : NoDup (set ++ [a])).
      { apply NoDup_app. split_and!; [done| |apply NoDup_singleton].
        intros x Hx ->%list_elem_of_singleton. done. }
      destruct (IH (set ++ [a]) Hnd') as (H1 & H2 & more & H3 & H4).
      split_and!; [done| |exists (a :: more); split;
                            [by rewrite H3, <- app_assoc|by apply sublist_skip]].
      intros x. rewrite H2, elem_of_app, list_elem_of_singleton, elem_of_cons. tauto.
Qed.

Lemma arrayFromSet_spec arr :
  NoDup (arrayFromSet arr)
  /\ (forall x, x ∈ arrayFromSet arr <-> x ∈ arr)
  /\ sublist (arrayFromSet arr) arr.
Proof.
  destruct (addAll_spec arr [] (NoDup_nil_2)) as (H1 & H2 & more & H3 & H4).
  unfold arrayFromSet. simpl in H3. rewrite H3 in *.
  split_and!; [done| |done]. intros x. rewrite H2, elem_of_nil. tauto.
Qed.

Lemma arrayFromSet_head arr : head (arrayFromSet arr) = head arr.
Proof.
  destruct arr as [|a arr]; [done|]. unfold arrayFromSet, addAll. simpl.
  destruct (decide (a ∈ [])) as [H|_]; [by apply elem_of_nil in H|].
  destruct (addAll_spec arr [a] (NoDup_singleton a)) as (_ & _ & more & H3 & _).
  unfold addAll in H3. simpl. by rewrite H3.
Qed.

End Sets.

Section AssistantProperties.
Import Js Gemini Notions Assistant ResultAnalysis.

Lemma trimStart_head (s : jsstring) (c : N) :
  head (trimStart s) = Some c -> isWhiteSpace c = false.
Proof.
  induction s as [|x s IH]; simpl; [done|].
  destruct (isWhiteSpace x) eqn:E; [done|]. simpl. by intros [= <-].
Qed.

Lemma last_rev_head {A} (l : list A) : last (rev l) = head l.
Proof. destruct l as [|x l]; [done|]. simpl. by rewrite last_snoc. Qed.

Lemma trim_trimmed (s : jsstring) : trimmed (trim s).
Proof.
  unfold trimmed, trim. set (t := trimStart s). split; intros c Hc.
  - destruct (trimEnd_prefix t) as [w Hw].
    apply (trimStart_head s). fold t. rewrite Hw.
    destruct (trimEnd t); [done|]. exact Hc.
  - unfold trimEnd in Hc. rewrite last_rev_head in Hc.
    by apply trimStart_head in Hc.
Qed.

Lemma orElse_trimmed (text : option jsstring) (d : string) :
  units d <> [] -> trimmed (units d) ->
  orElse (trim <$> text) d <> [] /\ trimmed (orElse (trim <$> text) d).
Proof.
  intros Hne Htr. destruct text as [t|]; simpl; [|done].
  pose proof (trim_trimmed t) as Ht. by destruct (trim t).
Qed.

Lemma trimStart_split (s : jsstring) :
  exists w, s = w ++ trimStart s /\ white w.
Proof.
  induction s as [|c s (w & IH & Hw)]; [exists []; split; [done|constructor]|]. simpl.
  destruct (isWhiteSpace c) eqn:Hc; [|exists []; split; [done|constructor]].
  exists (c :: w). split; [simpl; by rewrite <- IH|]. by constructor.
Qed.

Lemma trim_split (s : jsstring) :
  exists p q, s = p ++ trim s ++ q /\ white p /\ white q.
Proof.
  unfold trim, trimEnd. destruct (trimStart_split s) as (p & Hp & Hwp).
  destruct (trimStart_split (rev (trimStart s))) as (w & Hw & Hww).
  exists p, (rev w). split_and!; [|done|by apply Forall_rev].
  rewrite <- rev_app_distr, <- Hw, rev_involutive. exact Hp.
Qed.

Lemma trimStart_white (s : jsstring) : trimStart s = [] <-> white s.
Proof.
  unfold white. induction s as [|c s IH]; simpl; [split; [constructor|done]|].
  destruct (isWhiteSpace c) eqn:Hc.
  - rewrite IH. split; [by constructor|]. by intros [_ ?]%Forall_cons.
  - split; [done|]. intros [? _]%Forall_cons. congruence.
Qed.

Lemma trim_white (s : jsstring) : trim s = [] <-> white s.
Proof.
  split.
  - intros He. destruct (trim_split s) as (p & q & Hs & Hp & Hq).
    rewrite He in Hs. rewrite Hs. by apply Forall_app.
  - intros Hw. unfold trim, trimEnd.
    apply trimStart_white in Hw. rewrite Hw. done.
Qed.

Lemma orElse_answer (text : option jsstring) (d : string) :
  (blank text -> units d <> [] -> orElse (trim <$> text) d = units d)
  /\ (~ blank text ->
      exists t before after,
        text = Some t /\ t = before ++ orElse (trim <$> text) d ++ after
        /\ white before /\ white after).
Proof.
  destruct text as [t|]; simpl.
  - destruct (trim t) as [|c r] eqn:Ht.
    + apply trim_white in Ht. split; [done|]. intros Hnb. destruct Hnb.
      by intros ? [= <-].
    + split.
      * intros Hb. specialize (Hb t eq_refl). apply trim_white in Hb. congruence.
      * intros _. destruct (trim_split t) as (p & q & Hs & Hp & Hq).
        exists t, p, q. by rewrite <- Ht.
  - split; [done|]. intros Hnb. destruct Hnb. by intros ? [=].
Qed.

Local Ltac constant_answer :=
  split; [done|split; intros c [= <-]; reflexivity].

(** X15. [getAIHint] and [solveAIDoubt] answer with their own fixed
    message when no key is configured, with a second one when the call is
    rejected, with a third one when the provider's answer is absent or
    white space only, and else with the provider's answer without the
    white space around it.  So they never return the empty string, and what
    they return neither begins nor ends with white space. *)
Theorem assistant_answers_characterised (apiKey : option string)
    (hintProvider : Question -> Outcome) (doubtProvider : Question -> jsstring -> Outcome)
    (question : Question) (userQuery : jsstring) :
  let hint := getAIHint apiKey hintProvider question in
  let answer := solveAIDoubt apiKey doubtProvider question userQuery in
  answersWith "Hints unavailable without API Key."
    "Check specific keywords in the question." "Analyze the options carefully."
    apiKey (hintProvider question) hint
  /\ answersWith "Feature unavailable." "Connection error. Please try again."
       "I couldn't generate an explanation at this moment."
       apiKey (doubtProvider question userQuery) answer
  /\ (hint <> [] /\ trimmed hint)
  /\ (answer <> [] /\ trimmed answer).
Proof.
  intros hint answer. subst hint answer. unfold getAIHint, solveAIDoubt, answersWith.
  destruct (hasKey apiKey); cbn [negb].
  2:{ split_and!; try done; split; intros c [= <-]; reflexivity. }
  split; [|split; [|split]].
  - split; [done|]. split.
    + by intros _ ->.
    + intros _ text ->. split.
      * intros Hb. by apply orElse_answer.
      * apply orElse_answer.
  - split; [done|]. split.
    + by intros _ ->.
    + intros _ text ->. split.
      * intros Hb. by apply orElse_answer.
      * apply orElse_answer.
  - destruct (hintProvider question) as [|text]; [constant_answer|].
    apply orElse_trimmed; [done|]. split; intros c [= <-]; reflexivity.
  - destruct (doubtProvider question userQuery) as [|text]; [constant_answer|].
    apply orElse_trimmed; [done|]. split; intros c [= <-]; reflexivity.
Qed.


(** X14. The flashcards of the result screen: the request names at most
    three topics, pairwise distinct, the first of them being the topic of
    the first question answered wrongly; each named topic is the topic of a
    loaded question whose record holds a selection that is neither [null]
    nor the correct answer.  The flashcards depend on the provider through
    this one request only, and when no question was answered wrongly no
    request is made and there are no flashcards. *)
Theorem flashcard_request_topics (responses : gmap string UserResponse)
    (questions : list Question) :
  let wrong := wrongAnswerTopics responses questions in
  let topics := uniqueTopics wrong in
  (length topics <= 3)%nat
  /\ NoDup topics
  /\ head topics = head wrong
  /\ (forall t, t ∈ topics ->
        exists q r, q ∈ questions /\ topic q = t
          /\ responses !! qid q = Some r
          /\ selectedOption r <> Null
          /\ selectedOption r <> Chosen (correctAnswer q))
  /\ (forall JSON_parse apiKey provider provider',
        provider (mkFlashPrompt "gemini-2.5-flash" topics)
          = provider' (mkFlashPrompt "gemini-2.5-flash" topics) ->
        flashcardEffect JSON_parse apiKey provider responses questions
        = flashcardEffect JSON_parse apiKey provider' responses questions)
  /\ (forall JSON_parse apiKey provider,
        wrong = [] ->
        flashcardEffect JSON_parse apiKey provider responses questions = []).
Proof.
  intros wrong topics.
  destruct (arrayFromSet_spec wrong) as (Hnd & Hin & Hsub).
  split_and!.
  - subst topics. unfold uniqueTopics. rewrite length_take. lia.
  - subst topics. unfold uniqueTopics.
    eapply sublist_NoDup; [exact Hnd|apply sublist_take].
  - subst topics. unfold uniqueTopics. rewrite <- (arrayFromSet_head wrong).
    by destruct (arrayFromSet wrong).
  - intros t Ht. subst topics. unfold uniqueTopics in Ht.
    apply elem_of_take in Ht as (i & Ht & _). apply list_elem_of_lookup_2, Hin in Ht.
    subst wrong. unfold wrongAnswerTopics in Ht.
    apply list_elem_of_fmap in Ht as (q & -> & Hq).
    apply list_elem_of_In, filter_In in Hq as [Hq Hwrong].
    apply list_elem_of_In in Hq. unfold answeredWrong in Hwrong.
    destruct (responses !! qid q) as [r|] eqn:Hr; [|done].
    apply andb_prop in Hwrong as [H1 H2].
    apply negb_true_iff, bool_decide_eq_false in H1.
    apply negb_true_iff, bool_decide_eq_false in H2.
    exists q, r. done.
  - intros JSON_parse apiKey provider provider' Hp.
    unfold flashcardEffect, generateFlashcards. fold wrong. fold topics.
    by rewrite Hp.
  - intros JSON_parse apiKey provider Hw. unfold flashcardEffect. fold wrong.
    by rewrite Hw.
Qed.

End AssistantProperties.

Lemma assistant_answers_characterised_witness :
  let text := Js.units "  Compare the ratios. " in
  exists t before after,
    Some text = Some t
    /\ t = before
           ++ Assistant.getAIHint (Some "key") (fun _ => Gemini.Responded (Some text))
                Samples.generated
           ++ after
    /\ Assistant.white before /\ Assistant.white after.
Proof.
  intros text.
  apply (proj2 (proj2 (proj1 (assistant_answers_characterised (Some "key")
           (fun _ => Gemini.Responded (Some text))
           (fun _ _ => Gemini.Rejected) Samples.generated []))) eq_refl _ eq_refl).
  intros Hb. specialize (Hb _ eq_refl).
  apply Forall_inv_tail, Forall_inv_tail, Forall_inv in Hb. discriminate Hb.
Defined.

Section ResultProperties.
Import TestInterface Notions Assistant ResultAnalysis.

Variable responses : gmap string UserResponse.

Local Abbreviation isCorrect := (ResultAnalysis.isCorrect responses).
Local Abbreviation isAttempted := (ResultAnalysis.isAttempted responses).
Local Abbreviation passes := (ResultAnalysis.passes responses).
Local Abbreviation rowLabel := (ResultAnalysis.rowLabel responses).
Local Abbreviation selectionOf := (ResultAnalysis.selectionOf responses).

Lemma isCorrect_isAttempted q : isCorrect q = true -> isAttempted q = true.
Proof.
  unfold ResultAnalysis.isCorrect, ResultAnalysis.isAttempted.
  intros H%bool_decide_eq_true. rewrite H. done.
Qed.

Lemma views_cases q :
  (isCorrect q = true /\ passes Incorrect q = false /\ passes Skipped q = false)
  \/ (isCorrect q = false /\ passes Incorrect q = true /\ passes Skipped q = false)
  \/ (isCorrect q = false /\ passes Incorrect q = false /\ passes Skipped q = true).
Proof.
  unfold ResultAnalysis.passes.
  destruct (isCorrect q) eqn:Hc.
  - rewrite (isCorrect_isAttempted q Hc). left. done.
  - destruct (isAttempted q); [right; left|right; right]; done.
Qed.

Lemma views_length (questions : list Question) :
  length questions
  = (length (List.filter isCorrect questions)
     + length (filteredQuestions responses questions Incorrect)
     + length (filteredQuestions responses questions Skipped))%nat.
Proof.
  unfold filteredQuestions.
  induction questions as [|q qs IH]; [done|]. cbn [List.filter length].
  destruct (views_cases q) as [(-> & -> & ->)|[(-> & -> & ->)|(-> & -> & ->)]];
    cbn [length]; lia.
Qed.

(** X16. The review list of the result screen: the filter All shows every
    question; every question is of exactly one of three kinds, correct,
    shown by the filter Incorrect, or shown by the filter Skipped, so the
    numbers of the three kinds add up to the number of questions. *)
Theorem review_views_partition (questions : list Question) :
  filteredQuestions responses questions All = questions
  /\ length questions
     = (length (List.filter isCorrect questions)
        + length (filteredQuestions responses questions Incorrect)
        + length (filteredQuestions responses questions Skipped))%nat
  /\ forall q,
       (isCorrect q = true /\ passes Incorrect q = false /\ passes Skipped q = false)
       \/ (isCorrect q = false /\ passes Incorrect q = true /\ passes Skipped q = false)
       \/ (isCorrect q = false /\ passes Incorrect q = false /\ passes Skipped q = true).
Proof.
  split_and!; [|apply views_length|apply views_cases].
  unfold filteredQuestions.
  induction questions as [|q qs IH]; simpl; [done|]. by rewrite IH.
Qed.

(** X17. Badges and filters of the review list: a row that the filter
    Skipped shows carries the badge Skipped; a row that the filter Incorrect
    shows carries the badge Incorrect, or the badge Skipped when the
    question has no selection on record at all.  A question without a
    record (one loaded after the test was submitted) is shown by the filter
    Incorrect with the badge Skipped, counts as attempted in the subject
    chart and gives no flashcard topic.  For a question whose record holds
    a selection or [null], badge and filter agree. *)
Theorem review_labels (q : Question) :
  (passes Skipped q = true -> rowLabel q = LabelSkipped)
  /\ (passes Incorrect q = true ->
      rowLabel q = LabelIncorrect
      \/ (rowLabel q = LabelSkipped /\ selectionOf q = Unset))
  /\ (responses !! qid q = None ->
      passes Incorrect q = true /\ rowLabel q = LabelSkipped
      /\ isAttempted q = true /\ answeredWrong responses q = false)
  /\ (selectionOf q <> Unset ->
      (rowLabel q = LabelIncorrect <-> passes Incorrect q = true)
      /\ (rowLabel q = LabelSkipped <-> passes Skipped q = true)).
Proof.
  unfold ResultAnalysis.passes, ResultAnalysis.rowLabel, ResultAnalysis.isCorrect,
    ResultAnalysis.isAttempted, ResultAnalysis.isSkipped, answeredWrong,
    ResultAnalysis.selectionOf.
  destruct (responses !! qid q) as [r|]; [destruct (selectedOption r) as [| |i]|].
  - split_and!; try done. intros _. by right.
  - split_and!; done.
  - split_and!; try done;
      (destruct (decide (Chosen i = Chosen (correctAnswer q))) as [E|E];
       [rewrite !(bool_decide_eq_true_2 _ E)|rewrite !(bool_decide_eq_false_2 _ E)];
       simpl; try done; by left).
  - split_and!; try done. intros _. by right.
Qed.

End ResultProperties.

Section Breakdown.
Import TestInterface Screen SessionNotions Notions Assistant ResultAnalysis.

Lemma sum_list_zero {A} (l : list A) : sum_list ((fun _ => O) <$> l) = O.
Proof. induction l as [|x l IH]; csimpl; [done|]. by rewrite IH. Qed.

Lemma sum_list_fmap_add {A} (f g : A -> nat) (l : list A) :
  sum_list ((fun x => f x + g x)%nat <$> l)
  = (sum_list (f <$> l) + sum_list (g <$> l))%nat.
Proof. induction l as [|x l IH]; csimpl; [done|]. rewrite IH. unfold id. lia. Qed.

Lemma sum_indicator (subs : list Subject) (x : Subject) (n : nat) :
  NoDup subs -> x ∈ subs ->
  sum_list ((fun sub => if bool_decide (x = sub) then n else O) <$> subs) = n.
Proof.
  induction 1 as [|y subs Hy Hnd IH]; intros Hin; [by apply elem_of_nil in Hin|].
  csimpl. case_bool_decide as E.
  - subst y. replace (sum_list _) with O; [unfold id; lia|]. symmetry.
    clear IH Hin Hnd. induction subs as [|z subs IHs]; csimpl; [done|].
    apply not_elem_of_cons in Hy as [Hz Hy].
    rewrite bool_decide_eq_false_2 by done. by rewrite IHs.
  - apply elem_of_cons in Hin as [->|Hin]; [done|]. by rewrite IH.
Qed.

Lemma count_by_subject (P : Question -> bool) (subs : list Subject) (qs : list Question) :
  NoDup subs -> (forall q, q ∈ qs -> subject q ∈ subs) ->
  sum_list ((fun sub => length (List.filter P (List.filter (ofSubject sub) qs))) <$> subs)
  = length (List.filter P qs).
Proof.
  intros Hnd Hin. induction qs as [|q qs IH].
  - simpl. apply sum_list_zero.
  - transitivity
      (sum_list ((fun sub =>
                    (if bool_decide (subject q = sub) then (if P q then 1 else 0) else 0)
                    + length (List.filter P (List.filter (ofSubject sub) qs)))%nat <$> subs)).
    + f_equal. apply list_fmap_ext. intros _ sub _. cbn [List.filter]. unfold ofSubject at 1.
      case_bool_decide; [|done]. cbn [List.filter]. by destruct (P q).
    + rewrite sum_list_fmap_add, IH by (intros q' Hq'; apply Hin; by right).
      rewrite sum_indicator by (done || apply Hin; by left).
      cbn [List.filter]. by destruct (P q).
Qed.

Lemma filter_length_le {A} (P Q : A -> bool) (l : list A) :
  (forall x, P x = true -> Q x = true) ->
  (length (List.filter P l) <= length (List.filter Q l))%nat.
Proof.
  intros HPQ. induction l as [|x l IH]; simpl; [done|].
  destruct (P x) eqn:HP.
  - rewrite (HPQ x HP). simpl. lia.
  - destruct (Q x); simpl; lia.
Qed.

Lemma filter_all_length {A} (l : list A) : length (List.filter (fun _ => true) l) = length l.
Proof. induction l; simpl; [done|lia]. Qed.

Lemma isCorrect_selectsCorrect R q :
  ResultAnalysis.isCorrect R q = true <-> selectsCorrect R q.
Proof.
  unfold ResultAnalysis.isCorrect, ResultAnalysis.selectionOf, selectsCorrect.
  rewrite bool_decide_eq_true. destruct (R !! qid q); simpl; split; congruence.
Qed.

Lemma correctQuestions_length R qs :
  length (correctQuestions R qs) = length (List.filter (ResultAnalysis.isCorrect R) qs).
Proof.
  unfold correctQuestions. induction qs as [|q qs IH]; [done|].
  rewrite filter_cons. cbn [List.filter].
  destruct (decide (selectsCorrect R q)) as [H|H].
  - apply isCorrect_selectsCorrect in H as ->. simpl. by rewrite IH.
  - destruct (ResultAnalysis.isCorrect R q) eqn:E; [|done].
    by apply isCorrect_selectsCorrect in E.
Qed.

(** X18. The subject chart of the result screen has one row for each
    subject that occurs among the questions, each once; the totals of the
    rows add up to the number of questions, their correct counts to the
    correct count of [finishTest], their attempted counts to the number of
    questions whose selection on record is not [null]; and in each row
    [correct <= attempted <= total]. *)
Theorem subject_breakdown_adds_up (now : string) (s : Session) :
  let R := responses s in
  let rows := subjectData R (questions s) in
  NoDup (full <$> rows)
  /\ (forall q, q ∈ questions s -> subject q ∈ full <$> rows)
  /\ Z.of_nat (sum_list (row_total <$> rows)) = res_totalQuestions (finishTest now s)
  /\ Z.of_nat (sum_list (row_correct <$> rows)) = correct (finishTest now s)
  /\ sum_list (row_attempted <$> rows)
     = length (List.filter (ResultAnalysis.isAttempted R) (questions s))
  /\ Forall (fun row => (row_correct row <= row_attempted row <= row_total row)%nat) rows.
Proof.
  intros R rows. subst R.
  destruct (arrayFromSet_spec (subject <$> questions s)) as (Hnd & Hin & _).
  fold (subjects (questions s)) in Hnd, Hin.
  assert (Hall : forall q, q ∈ questions s -> subject q ∈ subjects (questions s)).
  { intros q Hq. apply Hin, list_elem_of_fmap. eauto. }
  assert (Hfull : full <$> rows = subjects (questions s)).
  { subst rows. unfold subjectData. rewrite <- list_fmap_compose.
    rewrite <- (list_fmap_id (subjects (questions s))) at 2.
    by apply list_fmap_ext. }
  split_and!.
  - by rewrite Hfull.
  - intros q Hq. rewrite Hfull. by apply Hall.
  - subst rows. unfold subjectData. rewrite <- list_fmap_compose.
    unfold finishTest. cbn [res_totalQuestions]. f_equal.
    rewrite <- (filter_all_length (questions s)).
    rewrite <- (count_by_subject (fun _ => true) _ _ Hnd Hall).
    f_equal. apply list_fmap_ext. intros _ sub _. simpl. by rewrite filter_all_length.
  - subst rows. unfold subjectData. rewrite <- list_fmap_compose.
    unfold finishTest. cbn [correct]. rewrite correct_count, Z.add_0_l. f_equal.
    rewrite correctQuestions_length.
    by rewrite <- (count_by_subject (ResultAnalysis.isCorrect (responses s)) _ _ Hnd Hall).
  - subst rows. unfold subjectData. rewrite <- list_fmap_compose.
    by rewrite <- (count_by_subject (ResultAnalysis.isAttempted (responses s)) _ _ Hnd Hall).
  - subst rows. unfold subjectData. apply Forall_fmap, Forall_forall. intros sub _.
    simpl. split.
    + apply filter_length_le. intros q Hq. unfold ResultAnalysis.isAttempted.
      apply bool_decide_eq_true in Hq. rewrite Hq. done.
    + etransitivity; [|by rewrite <- (filter_all_length (List.filter (ofSubject sub) (questions s)))].
      by apply filter_length_le.
Qed.

End Breakdown.

Section ResultScreen.
Import TestInterface Screen SessionNotions Notions Assistant ResultAnalysis.

Lemma List_filter_sublist {A} (P : A -> bool) (l : list A) : sublist (List.filter P l) l.
Proof.
  induction l as [|x l IH]; simpl; [done|].
  destruct (P x); [by apply sublist_skip|by apply sublist_cons].
Qed.

Lemma List_filter_negb_length {A} (P : A -> bool) (l : list A) :
  (length (List.filter (fun x => negb (P x)) l) + length (List.filter P l))%nat = length l.
Proof. induction l as [|x l IH]; simpl; [done|]. destruct (P x); simpl; lia. Qed.

Lemma attempted_questions_records (qs : list Question) (R : gmap string UserResponse) :
  NoDup (qid <$> qs) -> covered qs R -> owned qs R ->
  length (List.filter (ResultAnalysis.isAttempted R) qs) = size (attemptedRecords R).
Proof.
  intros Hnd Hcov Hown.
  set (A := List.filter (ResultAnalysis.isAttempted R) qs).
  set (M := attemptedRecords R).
  assert (Hin : forall k, k ∈ qid <$> A <-> k ∈ (map_to_list M).*1).
  { intros k. split.
    - intros (q & -> & Hq)%list_elem_of_fmap.
      apply list_elem_of_In, filter_In in Hq as [Hq Hatt].
      apply list_elem_of_In in Hq. destruct (Hcov q Hq) as [r Hr].
      apply list_elem_of_fmap. exists (qid q, r). split; [done|].
      apply elem_of_map_to_list. apply map_lookup_filter_Some. split; [done|]. simpl.
      unfold ResultAnalysis.isAttempted, ResultAnalysis.selectionOf in Hatt.
      rewrite Hr in Hatt. by apply negb_true_iff, bool_decide_eq_false in Hatt.
    - intros ([k' r] & -> & Hkr)%list_elem_of_fmap. simpl.
      apply elem_of_map_to_list, map_lookup_filter_Some in Hkr as [Hr Hsel]. simpl in Hsel.
      assert (Hk : k' ∈ qid <$> qs) by (apply Hown; by rewrite Hr).
      apply list_elem_of_fmap in Hk as (q & -> & Hq).
      apply list_elem_of_fmap. exists q. split; [done|].
      apply list_elem_of_In, filter_In. split; [by apply list_elem_of_In|].
      unfold ResultAnalysis.isAttempted, ResultAnalysis.selectionOf. rewrite Hr.
      by apply negb_true_iff, bool_decide_eq_false. }
  assert (HndA : NoDup (qid <$> A)).
  { eapply sublist_NoDup; [exact Hnd|apply fmap_sublist, List_filter_sublist]. }
  rewrite <- (length_fmap qid A), <- length_map_to_list, <- (length_fmap fst (map_to_list M)).
  apply Nat.le_antisymm; apply submseteq_length, NoDup_submseteq;
    [done|by intros k ?%Hin|apply NoDup_fst_map_to_list|by intros k ?%Hin].
Qed.

(** X19. At submission the result screen agrees with the result: in a
    state reached from the mount by events in which the question list only
    grows, with pairwise distinct question ids, the three slices of the pie
    chart (correct, wrong, skipped) are the numbers of correct questions, of
    questions under the filter Incorrect and of questions under the filter
    Skipped; the attempted counts of the subject chart add up to the
    attempted count of the result; and the minutes and seconds shown are
    those of the time taken, the seconds being below 60. *)
Theorem result_screen_consistent (qs : list Question) (d total : Z) (l : list Action)
    (s : Session) (now : string) :
  0 <= d ->
  acts (mount qs d total None) l = Some s ->
  extending (mount qs d total None) l ->
  NoDup (qid <$> questions s) ->
  let res := finishTest now s in
  let R := responses s in
  pieData res
  = (Z.of_nat (length (List.filter (ResultAnalysis.isCorrect R) (questions s))),
     Z.of_nat (length (filteredQuestions R (questions s) Incorrect)),
     Z.of_nat (length (filteredQuestions R (questions s) Skipped)))
  /\ Z.of_nat (sum_list (row_attempted <$> subjectData R (questions s))) = attempted res
  /\ 60 * (timeDisplay res).1 + (timeDisplay res).2 = timeTakenSeconds res
  /\ 0 <= (timeDisplay res).1 /\ 0 <= (timeDisplay res).2 < 60.
Proof.
  intros Hd Hl Hext Hnd res R. subst R.
  pose proof (wellFormed_acts l _ s (wellFormed_mount qs d total Hd) Hl) as Hwf.
  assert (Ho : owned (questions s) (responses s)).
  { eapply owned_acts; [|exact Hext|exact Hl].
    apply visitedMarkEffect_owned. simpl. apply (owned_sync []); [|set_solver].
    intros k. rewrite lookup_empty. by intros [? ?]. }
  destruct Hwf as (Hcov & _ & Htl & _ & _).
  pose proof (attempted_questions_records _ _ Hnd Hcov Ho) as Hatt.
  pose proof (views_length (responses s) (questions s)) as Hviews.
  pose proof (List_filter_negb_length (ResultAnalysis.isAttempted (responses s)) (questions s)) as Hskip.
  assert (Hc : correct res = Z.of_nat (length (List.filter (ResultAnalysis.isCorrect (responses s)) (questions s)))).
  { subst res. unfold finishTest. cbn [correct].
    by rewrite correct_count, Z.add_0_l, correctQuestions_length. }
  assert (Ha : attempted res
               = Z.of_nat (length (List.filter (ResultAnalysis.isAttempted (responses s)) (questions s)))).
  { subst res. unfold finishTest. cbn [attempted]. by rewrite attempted_count, <- Hatt. }
  assert (Hrows : sum_list (row_attempted <$> subjectData (responses s) (questions s))
                  = length (List.filter (ResultAnalysis.isAttempted (responses s)) (questions s))).
  { destruct (arrayFromSet_spec (subject <$> questions s)) as (Hnds & Hin & _).
    unfold subjectData. rewrite <- list_fmap_compose.
    rewrite <- (count_by_subject (ResultAnalysis.isAttempted (responses s)) (subjects (questions s))
                  (questions s)); [done|exact Hnds|].
    intros q Hq. apply Hin, list_elem_of_fmap. eauto. }
  assert (Hw : wrong res = attempted res - correct res) by done.
  assert (Ht : res_totalQuestions res = Z.of_nat (length (questions s))) by done.
  assert (Htime : 0 <= timeTakenSeconds res).
  { subst res. unfold finishTest. cbn [timeTakenSeconds]. lia. }
  change (filteredQuestions (responses s) (questions s) Skipped)
    with (List.filter (fun q => negb (ResultAnalysis.isAttempted (responses s) q)) (questions s)) in *.
  split_and!.
  - unfold pieData. rewrite Hw, Ht, Ha, Hc. repeat f_equal; lia.
  - by rewrite Hrows, Ha.
  - unfold timeDisplay. cbn [fst snd]. rewrite Z.rem_mod_nonneg by lia.
    pose proof (Z.div_mod (timeTakenSeconds res) 60 ltac:(lia)). lia.
  - unfold timeDisplay. cbn [fst]. apply Z.div_pos; lia.
  - unfold timeDisplay. cbn [snd]. rewrite Z.rem_mod_nonneg by lia.
    apply Z.mod_pos_bound. lia.
  - unfold timeDisplay. cbn [snd]. rewrite Z.rem_mod_nonneg by lia.
    apply Z.mod_pos_bound. lia.
Qed.

End ResultScreen.

Lemma result_screen_consistent_witness :
  ResultAnalysis.pieData (TestInterface.finishTest "" SessionNotions.walked)
  = (Z.of_nat (length (List.filter
                 (ResultAnalysis.isCorrect (TestInterface.responses SessionNotions.walked))
                 (TestInterface.questions SessionNotions.walked))),
     Z.of_nat (length (ResultAnalysis.filteredQuestions
                 (TestInterface.responses SessionNotions.walked)
                 (TestInterface.questions SessionNotions.walked) ResultAnalysis.Incorrect)),
     Z.of_nat (length (ResultAnalysis.filteredQuestions
                 (TestInterface.responses SessionNotions.walked)
                 (TestInterface.questions SessionNotions.walked) ResultAnalysis.Skipped))).
Proof.
  apply (result_screen_consistent Gemini.FALLBACK_QUESTIONS 90 100 SessionNotions.walk
           SessionNotions.walked "").
  - lia.
  - vm_compute. reflexivity.
  - vm_compute. repeat split. eexists. reflexivity.
  - apply (bool_decide_unpack _). vm_compute. exact I.
Defined.

(* ===================================================================== *)
(** * Part V. The question bank, the loader's faults and the database    *)
(* ===================================================================== *)

Section BankProperties.
Import App Bank Notions.

Lemma grouped_from (cached : list Question) (g : Subject -> list Question) (sub : Subject) :
  fold_left (fun grouped q =>
               fun sub => if decide (sub = subject q) then grouped sub ++ [q]
                          else grouped sub)
            cached g sub
  = g sub ++ filter (fun q => subject q = sub) cached.
Proof.
  revert g. induction cached as [|q cached IH]; intros g; simpl.
  - by rewrite app_nil_r.
  - rewrite IH. rewrite filter_cons.
    destruct (decide (sub = subject q)) as [->|Hne].
    + rewrite decide_True by done. by rewrite <- app_assoc.
    + by rewrite decide_False by done.
Qed.

Lemma grouped_filter (cached : list Question) (sub : Subject) :
  grouped cached sub = filter (fun q => subject q = sub) cached.
Proof. unfold grouped. by rewrite grouped_from. Qed.

(** X20. The cache load groups the cached questions by subject in
    reading order and puts each group in place of the bank entry of its
    subject; a subject without cached questions keeps its entry, and a
    rejected read leaves the bank as it is.  So the order of cache load and
    preload matters: a cache load that follows the preload of a subject
    drops the preloaded questions of that subject when the cache holds
    questions of it, while a preload that follows the cache load appends to
    them. *)
Theorem loadCache_replaces (cached qs : list Question) (prev : Subject -> list Question)
    (sub : Subject) :
  let mine := filter (fun q => subject q = sub) cached in
  loadCache None prev sub = prev sub
  /\ loadCache (Some cached) prev sub = (if decide (mine = []) then prev sub else mine)
  /\ loadCache (Some cached) (preloaded sub qs prev) sub
     = (if decide (mine = []) then prev sub ++ qs else mine)
  /\ preloaded sub qs (loadCache (Some cached) prev) sub
     = (if decide (mine = []) then prev sub else mine) ++ qs.
Proof.
  intros mine. unfold loadCache, preloaded. rewrite grouped_filter. fold mine.
  destruct (decide (sub = sub)) as [_|]; [|done].
  destruct mine; simpl; done.
Qed.

Lemma take_min {A} (l : list A) (n : nat) : take (Nat.min (length l) n) l = take n l.
Proof.
  destruct (Nat.le_ge_cases (length l) n).
  - rewrite Nat.min_l by done. by rewrite !take_ge by lia.
  - by rewrite Nat.min_r by done.
Qed.

Lemma drop_min {A} (l : list A) (n : nat) : drop (Nat.min (length l) n) l = drop n l.
Proof.
  destruct (Nat.le_ge_cases (length l) n).
  - rewrite Nat.min_l by done. by rewrite !drop_ge by lia.
  - by rewrite Nat.min_r by done.
Qed.

Lemma takeFromBank_concat (config : TestConfig) (bank : Subject -> list Question) :
  topicChosen config = false ->
  takeFromBank config bank
  = concat ((fun sub => take 5 (bank sub)) <$> selectedSubjects config).
Proof.
  intros Htopic. unfold takeFromBank. rewrite Htopic.
  assert (H : forall subs init,
             fold_left (fun initialQs subject =>
                          let cached := bank subject in
                          let takeCount := Nat.min (length cached) 5 in
                          let subset := take takeCount cached in
                          if (0 <? length subset)%nat then initialQs ++ subset else initialQs)
                       subs init
             = init ++ concat ((fun sub => take 5 (bank sub)) <$> subs)).
  { induction subs as [|sub subs IH]; intros init; simpl; [by rewrite app_nil_r|].
    rewrite IH, take_min.
    destruct (take 5 (bank sub)) eqn:E; simpl; [done|]. by rewrite <- app_assoc. }
  by rewrite H.
Qed.

Lemma usedFromBank_spec (config : TestConfig) (bank : Subject -> list Question) (sub : Subject) :
  topicChosen config = false ->
  consumeBank (usedFromBank config bank) bank sub
  = (if decide (sub ∈ selectedSubjects config) then drop 5 (bank sub) else bank sub).
Proof.
  intros Htopic. unfold usedFromBank, consumeBank. rewrite Htopic.
  assert (H : forall subs used0,
             match fold_left (fun used subject =>
                       let cached := bank subject in
                       let takeCount := Nat.min (length cached) 5 in
                       let subset := take takeCount cached in
                       if (0 <? length subset)%nat
                       then fun sub => if decide (sub = subject) then Some takeCount
                                       else used sub
                       else used) subs used0 sub with
             | Some n => drop n (bank sub)
             | None => bank sub
             end
             = if decide (sub ∈ subs) then drop 5 (bank sub)
               else match used0 sub with Some n => drop n (bank sub) | None => bank sub end).
  { induction subs as [|x subs IH]; intros used0; cbn [fold_left].
    - by rewrite decide_False by apply not_elem_of_nil.
    - rewrite IH. cbv zeta. rewrite take_min.
      destruct (decide (sub ∈ subs)) as [Hin|Hnin].
      + rewrite decide_True by (by right). done.
      + destruct (decide (sub = x)) as [->|Hne].
        * rewrite decide_True by (by left).
          destruct (take 5 (bank x)) eqn:E; simpl.
          -- destruct (bank x) eqn:Eb; [|done].
             rewrite drop_nil. by destruct (used0 x) as [n|]; rewrite ?drop_nil.
          -- rewrite decide_True by done. by rewrite drop_min.
        * rewrite decide_False by (intros [?|?]%elem_of_cons; done).
          destruct (0 <? _)%nat; [|done]. by rewrite decide_False by done. }
  rewrite H. by destruct (decide _).
Qed.

(** X21. A start from the bank: with a topic chosen nothing is taken and
    the bank is unchanged; otherwise the first questions are the first five
    banked questions of each selected subject, in the order of the
    selection, those questions are removed from the bank (what is served
    followed by what remains is the old entry), the entries of the other
    subjects are unchanged, and the next start with the same configuration
    is served the five questions that follow. *)
Theorem bank_slices (config : TestConfig) (bank : Subject -> list Question) :
  let served := takeFromBank config bank in
  let bank' := bankAfterStart config bank in
  (topicChosen config = true -> served = [] /\ forall sub, bank' sub = bank sub)
  /\ (topicChosen config = false ->
      served = concat ((fun sub => take 5 (bank sub)) <$> selectedSubjects config)
      /\ (forall sub, sub ∈ selectedSubjects config ->
            take 5 (bank sub) ++ bank' sub = bank sub)
      /\ (forall sub, sub ∉ selectedSubjects config -> bank' sub = bank sub)
      /\ takeFromBank config bank'
         = concat ((fun sub => take 5 (drop 5 (bank sub))) <$> selectedSubjects config)).
Proof.
  intros served bank'. split; intros Htopic.
  - subst served bank'. unfold bankAfterStart, takeFromBank. by rewrite Htopic.
  - assert (Hbank : forall sub,
              bank' sub = if decide (sub ∈ selectedSubjects config)
                          then drop 5 (bank sub) else bank sub).
    { intros sub. subst bank'. unfold bankAfterStart.
      destruct (0 <? length (takeFromBank config bank))%nat eqn:E.
      - by apply usedFromBank_spec.
      - destruct (decide (sub ∈ selectedSubjects config)) as [Hin|]; [|done].
        apply Nat.ltb_ge in E. rewrite takeFromBank_concat in E by done.
        assert (Hnil : take 5 (bank sub) = []).
        { apply list_elem_of_In, in_split in Hin as (l1 & l2 & Hl). rewrite Hl in E.
          rewrite fmap_app, fmap_cons, concat_app, concat_cons, !length_app in E.
          destruct (take 5 (bank sub)); [done|simpl in E; lia]. }
        destruct (bank sub); [done|discriminate]. }
    split_and!.
    + by apply takeFromBank_concat.
    + intros sub Hin. rewrite Hbank, decide_True by done. apply take_drop.
    + intros sub Hnin. by rewrite Hbank, decide_False.
    + rewrite takeFromBank_concat by done. f_equal. apply list_fmap_ext.
      intros _ sub Hsub%list_elem_of_lookup_2. by rewrite Hbank, decide_True.
Qed.

End BankProperties.

Section LoaderFaults.
Import App Bank Notions.

Variable config : TestConfig.




(** X23. When the batch that completes the question set is merged, the
    latch [isFetchingRef] is left set and nothing is pending.  Whatever
    test is started afterwards in the same application, no call is issued
    for it: through any events its question set stays the initial one (the
    bank slice or the first batch). *)
Theorem latch_left_set (bank : Subject -> list Question) (events : list Event)
    (st : Loader) (newQs : list Question) :
  sessionSteps config (startSession config bank) events = Some (Loading st) ->
  inFlight st <> [] ->
  totalQuestions config <= Z.of_nat (length (mergeQuestions (questions st) newQs)) ->
  let full := resolve config newQs st in
  isFetching full = true /\ inFlight full = [] /\ timers full = []
  /\ forall (config' : TestConfig) (initialQs : list Question) (events' : list Event)
            (st' : Loader),
       steps config' (startOn full config' initialQs) events' = Some st' ->
       questions st' = initialQs /\ issued st' = issued full
       /\ inFlight st' = [] /\ timers st' = [].
Proof.
  intros Hreach Hflight Hfull full.
  pose proof (session_single_flight config bank events _ Hreach) as (Hone & Hlatch & _).
  destruct (Hlatch (or_introl Hflight)) as [Hfetch _].
  destruct (inFlight st) as [|b rest] eqn:Hin; [done|].
  assert (rest = [] /\ timers st = []) as [-> Htimers].
  { destruct rest, (timers st); simpl in Hone; try lia; done. }
  assert (Hfull' : full = mkLoader (mergeQuestions (questions st) newQs) true [] [] (issued st)).
  { subst full. unfold resolve. rewrite Hin, Htimers, Hfetch. cbn [tail].
    by destruct (Z.ltb_spec (Z.of_nat (length (mergeQuestions (questions st) newQs)))
                   (totalQuestions config)); [lia|]. }
  rewrite Hfull'. split_and!; [done..|].
  intros config' initialQs events' st'.
  assert (Hstart : startOn (mkLoader (mergeQuestions (questions st) newQs) true [] []
                              (issued st)) config' initialQs
                   = mkLoader initialQs true [] [] (issued st)).
  { unfold startOn, loadMoreQuestions. cbn [isFetching inFlight timers issued].
    destruct (_ <? _); [|done]. by destruct (_ <=? _). }
  rewrite Hstart. clear.
  induction events' as [|e events' IH]; simpl.
  - by intros [= <-].
  - destruct e; simpl; done.
Qed.

End LoaderFaults.
Section Database.
Import App Bank Db Notions.

Implicit Types (store : Store) (qs : list Question) (q : Question) (k : string).

Lemma puts_lookup qs store k :
  fold_left (fun store q => put q store) qs store !! k
  = match last (filter (fun q => qid q = k) qs) with
    | Some q => Some q
    | None => store !! k
    end.
Proof.
  revert store. induction qs as [|q qs IH]; intros store; simpl; [done|].
  rewrite IH, filter_cons. unfold put.
  destruct (decide (qid q = k)) as [<-|Hne].
  - destruct (filter (fun q0 => qid q0 = qid q) qs) as [|q' l] eqn:E; simpl.
    + by rewrite lookup_insert_eq.
    + destruct (last (q' :: l)) eqn:El; [done|]. by apply last_None in El.
  - by rewrite lookup_insert_ne.
Qed.

Lemma puts_keyed qs store :
  keyed store -> keyed (fold_left (fun store q => put q store) qs store).
Proof.
  revert store. induction qs as [|q qs IH]; intros store Hk; simpl; [done|].
  apply IH. intros k q'. unfold put. destruct (decide (qid q = k)) as [<-|Hne].
  - rewrite lookup_insert_eq. by intros [= <-].
  - rewrite lookup_insert_ne by done. apply Hk.
Qed.

(** X24. [cacheQuestions] files each question under its id, a later
    question of the batch replacing an earlier one with the same id and the
    stored one: afterwards an id holds the last question of the batch that
    carries it, or what it held before.  Caching the same batch again
    changes nothing, every record stays filed under its own id, and with
    the database failing to open nothing is stored. *)
Theorem cacheQuestions_upsert qs store :
  cacheQuestions qs None = None
  /\ exists store',
       cacheQuestions qs (Some store) = Some store'
       /\ (forall k, store' !! k
                     = match last (filter (fun q => qid q = k) qs) with
                       | Some q => Some q
                       | None => store !! k
                       end)
       /\ cacheQuestions qs (Some store') = Some store'
       /\ (keyed store -> keyed store').
Proof.
  split; [done|]. eexists. split; [reflexivity|]. split_and!.
  - apply puts_lookup.
  - unfold cacheQuestions. simpl. f_equal. apply map_eq. intros k.
    rewrite !puts_lookup. by destruct (last _).
  - apply puts_keyed.
Qed.

Lemma getAll_Permutation limit store :
  exists rest, (map_to_list store).*2 ≡ₚ getAll limit store ++ rest
    /\ (limit = O \/ (size store <= limit)%nat -> rest = []).
Proof.
  unfold getAll. set (all := merge_sort keyLe (map_to_list store).*2).
  assert (Hperm : (map_to_list store).*2 ≡ₚ all) by (symmetry; apply merge_sort_Permutation).
  assert (Hlen : length all = size store).
  { rewrite <- Hperm, length_fmap. apply length_map_to_list. }
  destruct (limit =? 0)%nat eqn:E.
  - exists []. rewrite app_nil_r. done.
  - exists (drop limit all). rewrite take_drop. split; [done|].
    intros [->|Hle]; [done|]. apply drop_ge. lia.
Qed.

Lemma keyed_values_NoDup store : keyed store -> NoDup (qid <$> (map_to_list store).*2).
Proof.
  intros Hk. replace (qid <$> (map_to_list store).*2) with (map_to_list store).*1.
  - apply NoDup_fst_map_to_list.
  - rewrite <- list_fmap_compose. apply list_fmap_ext.
    intros _ [k q] Hkq%list_elem_of_lookup_2. simpl.
    symmetry. apply Hk. by apply elem_of_map_to_list.
Qed.

Lemma getAll_spec limit store :
  keyed store ->
  NoDup (qid <$> getAll limit store)
  /\ (forall q, q ∈ getAll limit store -> store !! qid q = Some q)
  /\ length (getAll limit store)
     = (if (limit =? 0)%nat then size store else Nat.min limit (size store)).
Proof.
  intros Hk. destruct (getAll_Permutation limit store) as (rest & Hperm & _).
  split_and!.
  - pose proof (keyed_values_NoDup store Hk) as Hnd.
    rewrite Hperm, fmap_app in Hnd. by apply NoDup_app in Hnd as [? _].
  - intros q Hq. assert (Hin : q ∈ (map_to_list store).*2).
    { rewrite Hperm. apply elem_of_app. by left. }
    apply list_elem_of_fmap in Hin as ([k q'] & -> & Hkq). simpl.
    apply elem_of_map_to_list in Hkq. by rewrite (Hk _ _ Hkq).
  - unfold getAll.
    assert (Hlen : length (merge_sort keyLe (map_to_list store).*2) = size store).
    { rewrite merge_sort_Permutation, length_fmap. apply length_map_to_list. }
    destruct (limit =? 0)%nat; [done|]. by rewrite length_take, Hlen.
Qed.

Lemma puts_values qs :
  NoDup (qid <$> qs) ->
  (map_to_list (fold_left (fun store q => put q store) qs ∅)).*2 ≡ₚ qs.
Proof.
  intros Hnd.
  assert (Hgen : forall store,
             (forall q, q ∈ qs -> store !! qid q = None) ->
             (map_to_list (fold_left (fun store q => put q store) qs store)).*2
             ≡ₚ (map_to_list store).*2 ++ qs).
  { induction qs as [|q qs IH]; intros store Hfresh; simpl; [by rewrite app_nil_r|].
    apply NoDup_cons in Hnd as [Hq Hnd]. rewrite IH; [|done|].
    - unfold put. rewrite map_to_list_insert by (apply Hfresh; by left).
      rewrite fmap_cons. simpl. by rewrite Permutation_middle.
    - intros q' Hq'. unfold put. rewrite lookup_insert_ne.
      + apply Hfresh. by right.
      + intros E. apply Hq. rewrite E. apply list_elem_of_fmap. eauto. }
  rewrite Hgen by (intros; apply lookup_empty). by rewrite map_to_list_empty.
Qed.

(** X25. [getCachedQuestions(limit)] returns stored questions with
    pairwise distinct ids, [min limit size] of them (all of them for the
    limit 0).  Read after write: a batch with pairwise distinct ids cached
    into an empty store is read back complete, up to its order, when the
    limit admits it.  With the database failing to open the read is
    rejected. *)
Theorem cache_read_back (limit : nat) qs store :
  (keyed store ->
     exists l, getCachedQuestions limit (Some store) = Some l
       /\ NoDup (qid <$> l)
       /\ (forall q, q ∈ l -> store !! qid q = Some q)
       /\ length l = (if (limit =? 0)%nat then size store else Nat.min limit (size store)))
  /\ (NoDup (qid <$> qs) -> limit = O \/ (length qs <= limit)%nat ->
      exists l, getCachedQuestions limit (cacheQuestions qs (Some ∅)) = Some l /\ l ≡ₚ qs)
  /\ getCachedQuestions limit None = None.
Proof.
  split_and!; [| |done].
  - intros Hk. eexists. split; [reflexivity|]. by apply getAll_spec.
  - intros Hnd Hlimit. eexists. split; [reflexivity|].
    set (store' := fold_left (fun store q => put q store) qs ∅).
    destruct (getAll_Permutation limit store') as (rest & Hperm & Hrest).
    pose proof (puts_values qs Hnd) as Hvals. fold store' in Hvals.
    assert (Hsize : size store' = length qs).
    { rewrite <- length_map_to_list, <- (length_fmap snd), Hvals. done. }
    rewrite Hrest in Hperm by (rewrite Hsize; tauto).
    rewrite app_nil_r in Hperm. by rewrite <- Hperm.
Qed.

End Database.

Section CacheToTest.
Import App Bank Db Notions.

Lemma NoDup_fmap_eq {A B} (f : A -> B) (l : list A) (x y : A) :
  NoDup (f <$> l) -> x ∈ l -> y ∈ l -> f x = f y -> x = y.
Proof.
  induction l as [|a l IH]; intros Hnd Hx Hy Hf; [by apply elem_of_nil in Hx|].
  rewrite fmap_cons in Hnd. apply NoDup_cons in Hnd as [Ha Hnd].
  apply elem_of_cons in Hx as [->|Hx]; apply elem_of_cons in Hy as [->|Hy]; try done.
  - exfalso. apply Ha. rewrite Hf. apply list_elem_of_fmap. eauto.
  - exfalso. apply Ha. rewrite <- Hf. apply list_elem_of_fmap. eauto.
  - by apply IH.
Qed.

Lemma by_subject_length (cached : list Question) :
  (length (filter (fun q => subject q = Mathematics) cached)
   + length (filter (fun q => subject q = Reasoning) cached)
   + length (filter (fun q => subject q = GeneralAwareness) cached))%nat
  = length cached.
Proof.
  induction cached as [|q cached IH]; [done|]. rewrite !filter_cons.
  destruct (subject q) eqn:E; simpl; lia.
Qed.

Lemma slices_NoDup (cached : list Question) (subs : list Subject) :
  NoDup (qid <$> cached) -> NoDup subs ->
  NoDup (qid <$> concat ((fun sub => take 5 (filter (fun q => subject q = sub) cached))
                           <$> subs)).
Proof.
  intros Hnd. induction 1 as [|x subs Hx Hsubs IH]; [constructor|].
  rewrite fmap_cons, concat_cons, fmap_app. apply NoDup_app. split_and!.
  - eapply sublist_NoDup; [exact Hnd|]. apply fmap_sublist.
    etransitivity; [apply sublist_take|apply sublist_filter].
  - intros i (q1 & -> & Hq1)%list_elem_of_fmap (q2 & Hid & Hq2)%list_elem_of_fmap.
    apply subseteq_take in Hq1. apply list_elem_of_filter in Hq1 as [Hs1 Hc1].
    apply list_elem_of_In, in_concat in Hq2 as (part & Hpart & Hq2).
    apply list_elem_of_In in Hpart, Hq2.
    apply list_elem_of_fmap in Hpart as (y & -> & Hy).
    apply subseteq_take in Hq2. apply list_elem_of_filter in Hq2 as [Hs2 Hc2].
    assert (q1 = q2) by (by apply (NoDup_fmap_eq qid cached)). subst q2.
    apply Hx. congruence.
  - exact IH.
Qed.

(** X26. A bank filled by the cache load alone holds at most 20
    questions, each under its own subject and stored in the database; a test
    started from it (the selected subjects being distinct) gets at most
    five questions for each selected subject, with pairwise distinct
    ids. *)
Theorem bank_from_cache (store : Store) (config : TestConfig) :
  keyed store ->
  NoDup (selectedSubjects config) ->
  let bank := loadCache (getCachedQuestions 20 (Some store)) emptyBank in
  let initialQs := takeFromBank config bank in
  (forall sub q, q ∈ bank sub -> subject q = sub /\ store !! qid q = Some q)
  /\ (length (bank Mathematics) + length (bank Reasoning)
      + length (bank GeneralAwareness) <= 20)%nat
  /\ NoDup (qid <$> initialQs)
  /\ (length initialQs <= 5 * length (selectedSubjects config))%nat.
Proof.
  intros Hk Hsubs bank initialQs.
  destruct (getAll_spec 20 store Hk) as (Hnd & Hstored & Hlen).
  set (cached := getAll 20 store) in *.
  assert (Hbank : forall sub, bank sub = filter (fun q => subject q = sub) cached).
  { intros sub. subst bank. unfold loadCache, getCachedQuestions. simpl.
    rewrite grouped_filter. fold cached. by destruct (filter _ cached). }
  split_and!.
  - intros sub q. rewrite Hbank. intros [Hs Hc]%list_elem_of_filter. auto.
  - rewrite !Hbank, by_subject_length, Hlen. change (20 =? 0)%nat with false. cbv iota. lia.
  - subst initialQs. unfold takeFromBank. destruct (topicChosen config) eqn:Ht; [constructor|].
    fold (takeFromBank config bank). unfold takeFromBank in *.
    pose proof (takeFromBank_concat config bank Ht) as E. unfold takeFromBank in E.
    rewrite Ht in E. rewrite E.
    replace ((fun sub => take 5 (bank sub)) <$> selectedSubjects config)
      with ((fun sub => take 5 (filter (fun q => subject q = sub) cached))
              <$> selectedSubjects config)
      by (apply list_fmap_ext; intros; by rewrite Hbank).
    by apply slices_NoDup.
  - subst initialQs. destruct (topicChosen config) eqn:Ht.
    + unfold takeFromBank. rewrite Ht. simpl. lia.
    + rewrite takeFromBank_concat by done.
      induction (selectedSubjects config) as [|sub subs IH]; [done|].
      rewrite fmap_cons, concat_cons, length_app, length_take. simpl length.
      apply NoDup_cons in Hsubs as [_ Hsubs]. specialize (IH Hsubs). lia.
Qed.

End CacheToTest.


Lemma latch_left_set_witness :
  App.isFetching
    (App.resolve Samples.customFive [Gemini.withId "gen-1-a" Samples.generated]
       (App.startLoader Samples.customFive Samples.cachedFour))
  = true.
Proof.
  apply (latch_left_set Samples.customFive Samples.cachedBank []
           (App.startLoader Samples.customFive Samples.cachedFour)
           [Gemini.withId "gen-1-a" Samples.generated]).
  - reflexivity.
  - discriminate.
  - vm_compute. discriminate.
Defined.

Lemma bank_from_cache_witness :
  NoDup (qid <$> App.takeFromBank Samples.customFive
                   (Bank.loadCache
                      (Db.getCachedQuestions 20
                         (Db.cacheQuestions Samples.cachedFour (Some ∅)))
                      App.emptyBank)).
Proof.
  apply (bank_from_cache (fold_left (fun store q => Db.put q store) Samples.cachedFour ∅)
           Samples.customFive).
  - apply puts_keyed. intros k q. by rewrite lookup_empty.
  - apply NoDup_singleton.
Defined.

(* ===================================================================== *)
(** * Part VI. The dashboard and the clock display                       *)
(* ===================================================================== *)

Section DashboardProperties.
Import Dashboard.

(** What the inputs keep true of the form. *)
Lemma form_invariant (inputs : list Input) :
  let f := fold_left input inputs initialForm in
  customCount f ∈ sliderValues
  /\ (customTopic f = "" \/ customTopic f ∈ SUBJECT_TOPICS (customSubject f)).
Proof.
  assert (Hgen : forall f0,
             customCount f0 ∈ sliderValues
             /\ (customTopic f0 = "" \/ customTopic f0 ∈ SUBJECT_TOPICS (customSubject f0)) ->
             let f := fold_left input inputs f0 in
             customCount f ∈ sliderValues
             /\ (customTopic f = "" \/ customTopic f ∈ SUBJECT_TOPICS (customSubject f))).
  { induction inputs as [|i inputs IH]; intros f0 Hf0; [done|]. simpl. apply IH.
    destruct Hf0 as [Hc Ht]. destruct i as [s|n|n]; simpl.
    - split; [done|by left].
    - destruct (topicOptions f0 !! n) as [t|] eqn:E; [|done]. simpl. split; [done|].
      apply list_elem_of_lookup_2 in E. unfold topicOptions in E.
      apply elem_of_cons in E as [->|E]; [by left|by right].
    - destruct (sliderValues !! n) as [c|] eqn:E; [|done]. simpl. split; [|done].
      by apply list_elem_of_lookup_2 in E. }
  apply Hgen. split; [|by left]. by apply (bool_decide_unpack _).
Qed.

Lemma customDuration_exact :
  forallb (fun c => customDuration c =? (9 * c + 9) / 10) sliderValues = true.
Proof. vm_compute. reflexivity. Qed.

(** X27. Whatever the user does with the custom test form (subject,
    topic, slider), the configuration that Start Custom Test hands over has
    the mode Custom, a number of questions that is a stop of the slider (5
    to 50 in steps of 5), the duration [ceil(0.9 * questions)] minutes
    (computed in double precision, equal to the exact value), the chosen
    subject alone, and a topic only if one is chosen, which then belongs to
    the chosen subject.  Every configuration the dashboard offers, the four
    cards and the custom one, asks for 5 to 100 questions, lasts at least
    one minute and at most one minute for each question, and selects at
    least one subject, none twice. *)
Theorem dashboard_configurations (inputs : list Input) :
  let f := fold_left input inputs initialForm in
  let custom := customConfig f in
  (mode custom = Custom
   /\ totalQuestions custom ∈ sliderValues
   /\ durationMinutes custom = (9 * totalQuestions custom + 9) / 10
   /\ selectedSubjects custom = [customSubject f]
   /\ (selectedTopic custom = None <-> customTopic f = "")
   /\ (forall t, selectedTopic custom = Some t ->
         t <> "" /\ t ∈ SUBJECT_TOPICS (customSubject f)))
  /\ Forall (fun config =>
               5 <= totalQuestions config <= 100
               /\ 0 < durationMinutes config <= totalQuestions config
               /\ selectedSubjects config <> []
               /\ NoDup (selectedSubjects config))
            (testCards ++ [custom]).
Proof.
  intros f custom. destruct (form_invariant inputs) as [Hc Ht]. fold f in Hc, Ht.
  assert (Hd : customDuration (customCount f) = (9 * customCount f + 9) / 10).
  { pose proof customDuration_exact as H. rewrite forallb_forall in H.
    apply Z.eqb_eq, H. by apply list_elem_of_In. }
  assert (Hrange : 5 <= customCount f <= 50).
  { unfold sliderValues in Hc. repeat (apply elem_of_cons in Hc as [->|Hc]; [lia|]).
    by apply elem_of_nil in Hc. }
  split.
  - subst custom. unfold customConfig. cbn [mode totalQuestions durationMinutes
      selectedSubjects selectedTopic].
    split; [done|]. split; [done|]. split; [done|]. split; [done|]. split.
    + destruct (String.eqb_spec (customTopic f) ""); split; congruence.
    + intros t. destruct (String.eqb_spec (customTopic f) "") as [E|E]; [done|].
      intros [= <-]. split; [done|]. by destruct Ht.
  - apply Forall_app. split.
    + unfold testCards.
      repeat (apply Forall_cons; split;
              [cbn [totalQuestions durationMinutes selectedSubjects];
               split_and!; [lia..|done|by apply (bool_decide_unpack _)]|]).
      constructor.
    + apply Forall_singleton. subst custom. unfold customConfig. simpl. rewrite Hd.
      pose proof (Z.div_str_pos (9 * customCount f + 9) 10 ltac:(lia)) as Hpos.
      pose proof (Z.div_lt_upper_bound (9 * customCount f + 9) 10 (customCount f + 1)
                    ltac:(lia) ltac:(lia)) as Hup.
      split_and!; [lia..|done|apply NoDup_singleton].
Qed.

End DashboardProperties.

Section ClockDisplay.
Import Clock.

Lemma displayed_below_6000 :
  forallb (fun n => displayedExactly (Z.of_nat n)) (seq 0 (Z.to_nat 6000)) = true.
Proof. vm_compute. reflexivity. Qed.

(** X28. The clock display: for every number of seconds from 0 up to 99
    minutes 59 seconds (every test of the dashboard lasts at most 90
    minutes), [formatTime] gives five characters, minutes and seconds of
    two digits each around a colon, and reading them back as decimal
    numbers gives the very number of seconds. *)
Theorem clock_display (seconds : Z) :
  0 <= seconds < 6000 ->
  String.length (formatTime seconds) = 5%nat
  /\ readTime (formatTime seconds) = Some seconds.
Proof.
  intros Hrange. pose proof displayed_below_6000 as H.
  rewrite forallb_forall in H. specialize (H (Z.to_nat seconds)).
  rewrite Z2Nat.id in H by lia.
  assert (Hin : In (Z.to_nat seconds) (seq 0 (Z.to_nat 6000))) by (apply in_seq; lia).
  apply H in Hin. unfold displayedExactly in Hin.
  apply andb_prop in Hin as [Hlen Hread].
  split; [by apply Nat.eqb_eq|by apply bool_decide_eq_true in Hread].
Qed.

End ClockDisplay.

Lemma clock_display_witness :
  String.length (Clock.formatTime 5400) = 5%nat
  /\ Clock.readTime (Clock.formatTime 5400) = Some 5400.
Proof. apply (clock_display 5400). lia. Defined.

(* ===================================================================== *)
(** * Part VII. After the test: leaving, and late questions              *)
(* ===================================================================== *)

Section LoaderAfterExit.
Import App Bank Exit Notions.

Variable config : TestConfig.

(** X29. Leaving a test does not stop the loader.  When a test is left
    while a call is in flight and another test is started, no call is
    issued for the new test (the latch is still set); the batch of the
    pending call, asked for under the old configuration, is merged into the
    question set of the new test, and whether loading goes on after it is
    decided by the old configuration's total. *)
Theorem loader_survives_exit (bank : Subject -> list Question) (events : list Event)
    (st : Loader) (config' : TestConfig) (initialQs newQs : list Question) :
  sessionSteps config (startSession config bank) events = Some (Loading st) ->
  inFlight st <> [] ->
  let st' := startOn (handleExitTest st) config' initialQs in
  questions st' = initialQs
  /\ inFlight st' = inFlight st /\ issued st' = issued st
  /\ exists st'',
       step config st' (Resolve newQs) = Some st''
       /\ questions st'' = mergeQuestions initialQs newQs
       /\ (timers st'' <> []
           <-> Z.of_nat (length (mergeQuestions initialQs newQs)) < totalQuestions config).
Proof.
  intros Hreach Hflight st'.
  pose proof (session_single_flight config bank events _ Hreach) as (Hone & Hlatch & _).
  destruct (Hlatch (or_introl Hflight)) as [Hfetch _].
  destruct (inFlight st) as [|b rest] eqn:Hin; [done|].
  assert (rest = [] /\ timers st = []) as [-> Htimers].
  { destruct rest, (timers st); simpl in Hone; try lia; done. }
  assert (Hst' : st' = mkLoader initialQs true [b] [] (issued st)).
  { subst st'. unfold startOn, handleExitTest, loadMoreQuestions.
    cbn [isFetching inFlight timers issued questions]. rewrite Hfetch, Hin, Htimers.
    destruct (_ <? _); [|done]. by destruct (_ <=? _). }
  rewrite Hst'. split_and!; [done..|].
  eexists. split; [reflexivity|]. unfold resolve.
  cbn [questions timers inFlight isFetching issued]. split; [done|].
  destruct (Z.ltb_spec (Z.of_nat (length (mergeQuestions initialQs newQs)))
              (totalQuestions config)); split; try done; lia.
Qed.

End LoaderAfterExit.

Lemma loader_survives_exit_witness :
  App.questions
    (Bank.startOn (Exit.handleExitTest (App.startLoader Samples.fullMock Samples.cachedFour))
       Samples.customFive [])
  = [].
Proof.
  apply (loader_survives_exit Samples.fullMock Samples.cachedBank []
           (App.startLoader Samples.fullMock Samples.cachedFour) Samples.customFive [] []).
  - reflexivity.
  - discriminate.
Defined.

Section LateQuestions.
Import TestInterface Screen SessionNotions Notions Assistant ResultAnalysis.

Lemma List_filter_all {A} (P : A -> bool) (l : list A) :
  (forall x, x ∈ l -> P x = true) -> List.filter P l = l.
Proof.
  induction l as [|x l IH]; intros H; [done|]. simpl.
  rewrite (H x) by (by left). f_equal. apply IH. intros y Hy. apply H. by right.
Qed.

Lemma List_filter_none {A} (P : A -> bool) (l : list A) :
  (forall x, x ∈ l -> P x = false) -> List.filter P l = [].
Proof.
  induction l as [|x l IH]; intros H; [done|]. simpl.
  rewrite (H x) by (by left). apply IH. intros y Hy. apply H. by right.
Qed.

Lemma late_question_views (R : gmap string UserResponse) (more : list Question) :
  (forall q, q ∈ more -> R !! qid q = None) ->
  List.filter (ResultAnalysis.isAttempted R) more = more
  /\ List.filter (ResultAnalysis.passes R Incorrect) more = more
  /\ List.filter (ResultAnalysis.passes R Skipped) more = [].
Proof.
  intros Hnone.
  split_and!; [apply List_filter_all|apply List_filter_all|apply List_filter_none];
    intros q Hq; unfold ResultAnalysis.passes, ResultAnalysis.isAttempted,
      ResultAnalysis.isCorrect, ResultAnalysis.selectionOf;
    by rewrite (Hnone q Hq).
Qed.

(** X30. Questions that arrive after the submission skew the result
    screen, which reads the live question list but the frozen result.  For
    a result taken in a state reached from the mount (question list only
    growing, pairwise distinct ids) and any questions without a record
    added to the list afterwards: the filter Incorrect shows [wrong] plus
    the number of late questions, the subject chart's attempted counts add
    up to [attempted] plus that number and its totals to [totalQuestions]
    plus that number, while the filter Skipped still shows
    [totalQuestions - attempted] questions. *)
Theorem late_questions_skew (qs : list Question) (d total : Z) (l : list Action)
    (s : Session) (now : string) (more : list Question) :
  0 <= d ->
  acts (mount qs d total None) l = Some s ->
  extending (mount qs d total None) l ->
  NoDup (qid <$> questions s) ->
  (forall q, q ∈ more -> responses s !! qid q = None) ->
  let res := finishTest now s in
  let R := responses s in
  let shown := questions s ++ more in
  Z.of_nat (length (filteredQuestions R shown Incorrect))
  = wrong res + Z.of_nat (length more)
  /\ Z.of_nat (length (filteredQuestions R shown Skipped))
     = res_totalQuestions res - attempted res
  /\ Z.of_nat (sum_list (row_attempted <$> subjectData R shown))
     = attempted res + Z.of_nat (length more)
  /\ Z.of_nat (sum_list (row_total <$> subjectData R shown))
     = res_totalQuestions res + Z.of_nat (length more).
Proof.
  intros Hd Hl Hext Hnd Hmore res R shown. subst R shown.
  pose proof (wellFormed_acts l _ s (wellFormed_mount qs d total Hd) Hl) as Hwf.
  assert (Ho : owned (questions s) (responses s)).
  { eapply owned_acts; [|exact Hext|exact Hl].
    apply visitedMarkEffect_owned. simpl. apply (owned_sync []); [|set_solver].
    intros k. rewrite lookup_empty. by intros [? ?]. }
  destruct Hwf as (Hcov & _).
  pose proof (attempted_questions_records _ _ Hnd Hcov Ho) as Hatt.
  pose proof (views_length (responses s) (questions s)) as Hviews.
  pose proof (List_filter_negb_length (ResultAnalysis.isAttempted (responses s)) (questions s))
    as Hskip.
  destruct (late_question_views (responses s) more Hmore) as (Hm1 & Hm2 & Hm3).
  assert (Hc : correct res
               = Z.of_nat (length (List.filter (ResultAnalysis.isCorrect (responses s))
                                     (questions s)))).
  { subst res. unfold finishTest. cbn [correct].
    by rewrite correct_count, Z.add_0_l, correctQuestions_length. }
  assert (Ha : attempted res
               = Z.of_nat (length (List.filter (ResultAnalysis.isAttempted (responses s))
                                     (questions s)))).
  { subst res. unfold finishTest. cbn [attempted]. by rewrite attempted_count, <- Hatt. }
  assert (Hw : wrong res = attempted res - correct res) by done.
  assert (Ht : res_totalQuestions res = Z.of_nat (length (questions s))) by done.
  assert (Hrows : forall P : Question -> bool,
             sum_list ((fun sub => length (List.filter P
                          (List.filter (ofSubject sub) (questions s ++ more))))
                       <$> subjects (questions s ++ more))
             = length (List.filter P (questions s ++ more))).
  { intros P.
    destruct (arrayFromSet_spec (subject <$> (questions s ++ more))) as (Hnds & Hin & _).
    apply count_by_subject; [exact Hnds|].
    intros q Hq. apply Hin, list_elem_of_fmap. eauto. }
  unfold filteredQuestions in *.
  change (List.filter (ResultAnalysis.passes (responses s) Skipped) (questions s))
    with (List.filter (fun q => negb (ResultAnalysis.isAttempted (responses s) q)) (questions s))
    in Hviews.
  split_and!.
  - rewrite List.filter_app, length_app, Hm2, Hw, Ha, Hc. lia.
  - rewrite List.filter_app, length_app, Hm3, Ht, Ha. simpl length.
    change (List.filter (ResultAnalysis.passes (responses s) Skipped) (questions s))
      with (List.filter (fun q => negb (ResultAnalysis.isAttempted (responses s) q))
              (questions s)). lia.
  - unfold subjectData. rewrite <- list_fmap_compose.
    change (sum_list ((row_attempted ∘ _) <$> _))
      with (sum_list ((fun sub => length (List.filter (ResultAnalysis.isAttempted (responses s))
                          (List.filter (ofSubject sub) (questions s ++ more))))
                      <$> subjects (questions s ++ more))).
    rewrite Hrows, List.filter_app, length_app, Hm1, Ha. lia.
  - unfold subjectData. rewrite <- list_fmap_compose.
    transitivity (Z.of_nat (length (List.filter (fun _ => true) (questions s ++ more)))).
    + rewrite <- Hrows. do 2 f_equal. apply list_fmap_ext. intros _ sub _. simpl.
      by rewrite filter_all_length.
    + rewrite filter_all_length, length_app, Ht. lia.
Qed.

End LateQuestions.

Lemma late_questions_skew_witness :
  Z.of_nat (length (ResultAnalysis.filteredQuestions
                      (TestInterface.responses SessionNotions.walked)
                      (TestInterface.questions SessionNotions.walked
                       ++ [Gemini.withId "gen-2-a" Samples.generated])
                      ResultAnalysis.Incorrect))
  = wrong (TestInterface.finishTest "" SessionNotions.walked) + Z.of_nat 1.
Proof.
  apply (late_questions_skew Gemini.FALLBACK_QUESTIONS 90 100 SessionNotions.walk
           SessionNotions.walked "" [Gemini.withId "gen-2-a" Samples.generated]).
  - lia.
  - vm_compute. reflexivity.
  - vm_compute. repeat split. eexists. reflexivity.
  - apply (bool_decide_unpack _). vm_compute. exact I.
  - intros q Hq%list_elem_of_singleton. subst q. vm_compute. reflexivity.
Defined.
